(** * Pointer-generator summariser: extended vocabulary, mixer, loss, decoding

    A shallow embedding of [summarus/pgn.py] (class [PointerGeneratorNetwork])
    and of the hypothesis/reference preparation of [evaluate.py].

    - Integer tensors are lists of rows of [Z]; every arithmetic operation on
      them is 64-bit and wraps ([wrap64]).
    - Tensors live in a store ([heap]); a Python name bound to a tensor is a
      location, slices are views on a location, and [t[i, :] = r] writes in
      place.  A raised exception is [None].
    - Floating-point tensors are idealised as real numbers. *)

From Stdlib Require Import ZArith List Lia Bool String Ascii Reals Lra.
From stdpp Require Import base list sorting strings.
Import ListNotations.

#[local] Open Scope Z_scope.

(** ** 64-bit integer arithmetic of [torch.long] tensors *)

Module Int64.

Definition wrap64 (z : Z) : Z := (z + 2 ^ 63) `mod` 2 ^ 64 - 2 ^ 63.

Definition add64 (x y : Z) : Z := wrap64 (x + y).
Definition sub64 (x y : Z) : Z := wrap64 (x - y).
Definition mul64 (x y : Z) : Z := wrap64 (x * y).

(** The values that fit a [torch.long]. *)
Definition int64 (z : Z) : Prop := - 2 ^ 63 <= z < 2 ^ 63.


End Int64.
Export Int64.

(** ** The torch operations used by the model, on integer tensors *)

Module Torch.

Abbreviation row := (list Z) (only parsing).
Abbreviation tensor := (list (list Z)) (only parsing).

(** [t.size(0)] and [t.size(1)]. *)
Definition size0 (t : tensor) : nat := length t.
Definition size1 (t : tensor) : nat :=
  match t with
  | [] => 0%nat
  | r :: _ => length r
  end.

(** A tensor is rectangular: all rows have [n] columns. *)
Definition rect (n : nat) (t : tensor) : Prop := Forall (fun r => length r = n) t.

Definition same_shape (a b : tensor) : bool :=
  bool_decide (length <$> a = length <$> b).

(** Element-wise binary operation; operands of different shapes raise
    (broadcasting of size-1 dimensions is not used by the model). *)
Definition ew2 (f : Z -> Z -> Z) (a b : tensor) : option tensor :=
  if same_shape a b then Some (zip_with (zip_with f) a b) else None.

(** [torch.eq(t, c).long()] *)
Definition eq_long (c : Z) (t : tensor) : tensor :=
  (fun r : row => (fun x => if x =? c then 1 else 0) <$> r) <$> t.

(** [torch.gt(r, c).long()] on one row *)
Definition gt_long (c : Z) (r : row) : row :=
  (fun x => if c <? x then 1 else 0) <$> r.

(** [c * t] for a Python integer [c] *)
Definition scalar_mul (c : Z) (t : tensor) : tensor :=
  (fun r : row => mul64 c <$> r) <$> t.

(** [torch.cat((a, b), 1)] *)
Definition cat1 (a b : tensor) : option tensor :=
  if bool_decide (length a = length b) then Some (zip_with app a b) else None.

(** [t[:, lo:hi]] *)
Definition slice_cols (lo hi : nat) (t : tensor) : tensor :=
  (fun r : row => take (hi - lo) (drop lo r)) <$> t.

(** [t[i, j]] *)
Definition at2 (t : tensor) (i j : nat) : option Z := r ← t !! i; r !! j.

(** [t.new_zeros((n, m))] *)
Definition new_zeros (n m : nat) : tensor := replicate n (replicate m 0).

(** [torch.max(r)] of a one-dimensional tensor; an empty tensor raises. *)
Definition max_row (r : row) : option Z :=
  match r with
  | [] => None
  | x :: r' => Some (foldr Z.max x r')
  end.

(** [torch.max(t)] over all the elements of a tensor. *)
Definition max_all (t : tensor) : option Z := max_row (concat t).

(** [torch.unique(r, return_inverse=True, sorted=True)]: the distinct values
    of [r] in increasing order, and for every element of [r] its position in
    that list. *)
Fixpoint insert_unique (x : Z) (u : list Z) : list Z :=
  match u with
  | [] => [x]
  | y :: u' =>
      if x <? y then x :: u
      else if x =? y then u
      else y :: insert_unique x u'
  end.

Definition sorted_unique (r : row) : list Z := foldr insert_unique [] r.

Fixpoint position (x : Z) (u : list Z) : nat :=
  match u with
  | [] => 0%nat
  | y :: u' => if x =? y then 0%nat else S (position x u')
  end.

Definition unique (r : row) : list Z * row :=
  let u := sorted_unique r in
  (u, (fun x => Z.of_nat (position x u)) <$> r).

End Torch.
Export Torch.

(** ** The tensor store *)

Module Store.

Abbreviation loc := nat (only parsing).
Abbreviation heap := (list (list (list Z))) (only parsing).

(** A computation on the store; [None] is a raised exception. *)
Definition M (A : Type) : Type := heap -> option (A * heap).

#[export] Instance M_ret : MRet M := fun A a h => Some (a, h).
#[export] Instance M_bind : MBind M := fun A B f m h =>
  match m h with
  | Some (a, h') => f a h'
  | None => None
  end.

Definition raise {A} : M A := fun _ => None.

(** Lift a pure computation that may raise. *)
Definition lift {A} (o : option A) : M A := fun h =>
  match o with
  | Some a => Some (a, h)
  | None => None
  end.

(** Read the tensor a name is bound to. *)
Definition load (l : loc) : M tensor := fun h =>
  match h !! l with
  | Some t => Some (t, h)
  | None => None
  end.

(** Bind a name to a freshly created tensor. *)
Definition new_tensor (t : tensor) : M loc := fun h => Some (length h, h ++ [t]).

(** [t[i, :] = r], in place.  The row index must exist and the assigned row
    must have the width of the tensor. *)
Definition store_row (l : loc) (i : nat) (r : row) : M unit := fun h =>
  match h !! l with
  | Some t =>
      match t !! i with
      | Some old =>
          if bool_decide (length r = length old)
          then Some (tt, <[l := <[i := r]> t]> h)
          else None
      | None => None
      end
  | None => None
  end.

(** [for i in idx: body(i)] *)
Fixpoint for_each (idx : list nat) (body : nat -> M unit) : M unit :=
  match idx with
  | [] => mret tt
  | i :: idx' => _ ← body i; for_each idx' body
  end.

(** A slice [t[:, lo:hi]] of a stored tensor: it shares the storage. *)
Record view := View { base : loc; lo : nat; hi : nat }.

Definition read_view (h : heap) (v : view) : option tensor :=
  slice_cols (lo v) (hi v) <$> (h !! base v).

End Store.
Export Store.

(** ** The model object *)

Record PointerGeneratorNetwork := {
  _start_index : Z;
  _end_index : Z;
  _target_unk_index : Z;
  _target_vocab_size : Z;
  _max_decoding_steps : nat;
  _use_coverage : bool;
  _coverage_loss_weight : option R;
  (** the mode flag [self.training] of the framework's [Model] *)
  training : bool;
}.

(** ** [_prepare]: the extended-vocabulary builder *)

Module Prepare.

Record prepared := {
  (** shape of the float tensor of zeros [extra_zeros] *)
  extra_zeros : nat * nat;
  modified_source_tokens : view;
  modified_target_tokens : option view;
}.

Section WithModel.
Variable self : PointerGeneratorNetwork.

(** Line 122:
    [tokens - tokens * is_unk + (V - 1) * is_unk + unk_token_nums] *)
Definition extend_tokens (tokens is_unk unk_token_nums : tensor) : option tensor :=
  t1 ← ew2 mul64 tokens is_unk;
  t2 ← ew2 sub64 tokens t1;
  t3 ← ew2 add64 t2 (scalar_mul (_target_vocab_size self - 1) is_unk);
  ew2 add64 t3 unk_token_nums.

(** Lines 128-132, the new value of row [i] of [tokens]. *)
Definition collapse_row (source_max_length : nat) (r : row) : option row :=
  max_source_num ← max_row (take source_max_length r);
  let max_source_num := Z.max (_target_vocab_size self - 1) max_source_num in
  let unk_target_tokens_mask := gt_long max_source_num r in
  let zero_target_unk := zip_with sub64 r (zip_with mul64 r unk_target_tokens_mask) in
  Some (zip_with add64 zero_target_unk
          (mul64 (_target_unk_index self) <$> unk_target_tokens_mask)).

Definition _prepare (source_tokens source_token_ids : loc)
    (target : option (loc * loc)) : M prepared :=
  src ← load source_tokens;
  let batch_size := size0 src in
  let source_max_length := size1 src in
  (* tokens = source_tokens; token_ids = source_token_ids.long() *)
  '(tokens, token_ids) ←
     match target with
     | None => mret (source_tokens, source_token_ids)
     | Some (target_tokens, target_token_ids) =>
         a ← load source_tokens;
         b ← load target_tokens;
         c ← lift (cat1 a b);
         tokens ← new_tensor c;
         a ← load source_token_ids;
         b ← load target_token_ids;
         c ← lift (cat1 a b);
         token_ids ← new_tensor c;
         mret (tokens, token_ids)
     end;
  a ← load tokens;
  is_unk ← new_tensor (eq_long (_target_unk_index self) a);
  a ← load token_ids;
  b ← load is_unk;
  c ← lift (ew2 mul64 a b);
  unk_only ← new_tensor c;
  a ← load token_ids;
  unk_token_nums ← new_tensor (new_zeros batch_size (size1 a));
  _ ← for_each (seq 0 batch_size) (fun i =>
         a ← load unk_only;
         r ← lift (a !! i);
         store_row unk_token_nums i (snd (unique r)));
  a ← load tokens;
  b ← load is_unk;
  c ← load unk_token_nums;
  d ← lift (extend_tokens a b c);
  tokens ← new_tensor d;
  '(modified_source_tokens, modified_target_tokens) ←
     match target with
     | None => a ← load tokens; mret (View tokens 0 (size1 a), None)
     | Some _ =>
         _ ← for_each (seq 0 batch_size) (fun i =>
                a ← load tokens;
                r ← lift (a !! i);
                r' ← lift (collapse_row source_max_length r);
                store_row tokens i r');
         a ← load tokens;
         mret (View tokens 0 source_max_length,
               Some (View tokens source_max_length (size1 a)))
     end;
  a ← load unk_token_nums;
  source_unk_count ← lift (max_all (slice_cols 0 source_max_length a));
  mret {| extra_zeros := (batch_size, Z.to_nat source_unk_count);
          modified_source_tokens := modified_source_tokens;
          modified_target_tokens := modified_target_tokens |}.

(** Running [_prepare] on a batch given by value: the input tensors are put
    in an empty store and the results read back. *)
Definition prepare_values (source_tokens source_token_ids : tensor)
    (target : option (tensor * tensor))
    : option ((nat * nat) * tensor * option tensor) :=
  let h0 := [source_tokens; source_token_ids] ++
            match target with
            | Some (t, ti) => [t; ti]
            | None => []
            end in
  '(out, h) ← _prepare 0%nat 1%nat
                (match target with Some _ => Some (2%nat, 3%nat) | None => None end) h0;
  s ← read_view h (modified_source_tokens out);
  match modified_target_tokens out with
  | None => Some (extra_zeros out, s, None)
  | Some v => t ← read_view h v; Some (extra_zeros out, s, Some t)
  end.

End WithModel.

End Prepare.

(** ** What [_prepare] computes, row by row *)

Module PrepareSpec.

(** The widths of the rows of a tensor. *)
Definition shape (t : tensor) : list nat := length <$> t.

(** The number of distinct values of [r] that are smaller than [x]. *)
Definition rank_sorted (x : Z) (r : row) : nat :=
  length (remove_dups (filter (fun y => y < x) r)).

(** Values far enough from the 64-bit limits for the sums of line 122. *)
Definition small (z : Z) : Prop := - 2 ^ 62 <= z < 2 ^ 62.

(** The target tensors are bound in the store (training), or absent. *)
Definition stored (h : heap) (target : option (loc * loc))
    (tv : option (tensor * tensor)) : Prop :=
  match target, tv with
  | None, None => True
  | Some (t, ti), Some (tgt, tids) => h !! t = Some tgt /\ h !! ti = Some tids
  | _, _ => False
  end.

(** Shape of a batch as the data reader produces it: [B > 0] examples, the
    source tensors [B x S] with [S > 0], the target tensors [B x T]. *)
Record batch_ok (B S T : nat) (src sids tgt tids : tensor) : Prop := {
  ok_B : (0 < B)%nat;
  ok_S : (0 < S)%nat;
  ok_src : shape src = replicate B S;
  ok_sids : shape sids = replicate B S;
  ok_tgt : shape tgt = replicate B T;
  ok_tids : shape tids = replicate B T;
}.

Record well_formed (B S T : nat) (src sids : tensor)
    (tv : option (tensor * tensor)) : Prop := {
  wf_B : (0 < B)%nat;
  wf_S : (0 < S)%nat;
  wf_src : shape src = replicate B S;
  wf_sids : shape sids = replicate B S;
  wf_target :
    match tv with
    | None => T = 0%nat
    | Some (tgt, tids) => shape tgt = replicate B T /\ shape tids = replicate B T
    end;
}.

Definition read_target (h : heap) (out : Prepare.prepared) : option tensor :=
  v ← Prepare.modified_target_tokens out; read_view h v.

(** The tensors [tokens] and [token_ids] of lines 108-112. *)
Definition all_tokens (src : tensor) (tv : option (tensor * tensor)) : tensor :=
  match tv with
  | Some (tgt, _) => zip_with app src tgt
  | None => src
  end.

Definition all_ids (sids : tensor) (tv : option (tensor * tensor)) : tensor :=
  match tv with
  | Some (_, tids) => zip_with app sids tids
  | None => sids
  end.

Section WithModel.
Variable self : PointerGeneratorNetwork.

Abbreviation V := (_target_vocab_size self).
Abbreviation unk := (_target_unk_index self).

(** One row of [is_unk], [unk_only], [unk_token_nums] and of the rewritten
    [tokens] of line 122. *)
Definition is_unk_row (tokens : row) : row :=
  (fun x => if x =? unk then 1 else 0) <$> tokens.

Definition unk_only_row (tokens ids : row) : row :=
  zip_with mul64 ids (is_unk_row tokens).

Definition unk_token_nums_row (tokens ids : row) : row :=
  snd (unique (unk_only_row tokens ids)).

Definition extend_row (tokens ids : row) : row :=
  zip_with add64
    (zip_with add64
       (zip_with sub64 tokens (zip_with mul64 tokens (is_unk_row tokens)))
       (mul64 (V - 1) <$> is_unk_row tokens))
    (unk_token_nums_row tokens ids).

(** The row written back by lines 128-132 (the row itself where
    [torch.max] would raise). *)
Definition collapsed (source_max_length : nat) (r : row) : row :=
  default r (Prepare.collapse_row self source_max_length r).


(** The row [unk_only]: the token identity at the unknown positions, [0] at
    all the others. *)
Definition masked_ids (tokens ids : row) : row :=
  zip_with (fun t d => if t =? unk then d else 0) tokens ids.

(** [tokens] after line 122, and when the function returns. *)
Definition extended (src sids : tensor) (tv : option (tensor * tensor)) : tensor :=
  zip_with extend_row (all_tokens src tv) (all_ids sids tv).

Definition final_tokens (S : nat) (src sids : tensor)
    (tv : option (tensor * tensor)) : tensor :=
  match tv with
  | Some _ => collapsed S <$> extended src sids tv
  | None => extended src sids tv
  end.

(** The values of a batch are vocabulary indices and token identities, far
    from the 64-bit limits. *)
Record in_range (tokens ids : tensor) : Prop := {
  range_V : small (V - 1);
  range_unk : int64 unk;
  range_tokens : Forall (Forall small) tokens;
  range_ids : Forall (Forall int64) ids;
  range_width : Forall (fun r : row => Z.of_nat (length r) < 2 ^ 62) tokens;
}.

(** The spec's wording of the rank of an unknown word: the distinct token
    identities found at the unknown positions of an example (source, then
    target), in order of first occurrence; the rank of an identity is its
    0-based position in that list. *)
Definition oov_identities (tokens ids : row) : list Z :=
  foldl (fun seen p =>
           if bool_decide (fst p = unk /\ snd p ∉ seen)
           then seen ++ [snd p] else seen)
        [] (zip tokens ids).

Definition local_unk_rank (tokens ids : row) (d : Z) : nat :=
  position d (oov_identities tokens ids).

End WithModel.

End PrepareSpec.
Export PrepareSpec.

(** ** [decode]: from predicted indices to tokens *)

Module Decode.

(** One entry of [predicted_indices]: the ranked hypotheses of the beam
    search (a two-dimensional array), or a single index sequence. *)
Inductive predictions :=
| Beams (hypotheses : list (list Z))
| Sequence (indices : list Z).

(** [l.index(x)]; [None] is the [ValueError]. *)
Fixpoint index (x : Z) (l : list Z) : option nat :=
  match l with
  | [] => None
  | y :: l' => if x =? y then Some 0%nat else S <$> index x l'
  end.

(** [if token not in unk_tokens: unk_tokens.append(token)] *)
Definition append_new (unk_tokens : list string) (token : string) : list string :=
  if bool_decide (token ∈ unk_tokens) then unk_tokens else unk_tokens ++ [token].

Section WithModel.
Variable self : PointerGeneratorNetwork.
(** [self.vocab.get_token_from_index(x, namespace=self._target_namespace)];
    [None] is the [KeyError] of an index outside the vocabulary. *)
Variable get_token_from_index : Z -> option string.

Abbreviation V := (_target_vocab_size self).
Abbreviation unk := (_target_unk_index self).

(** Lines 339-341. *)
Definition top_indices (p : predictions) : option (list Z) :=
  match p with
  | Beams hypotheses => hypotheses !! 0%nat
  | Sequence indices => Some indices
  end.

(** Lines 343-344. *)
Definition until_end (indices : list Z) : option (list Z) :=
  if bool_decide (_end_index self ∈ indices)
  then k ← index (_end_index self) indices; Some (take k indices)
  else Some indices.

(** Lines 347-352: the loop over [enumerate(source_to_target)], from
    position [i] on. *)
Fixpoint collect_unk_tokens (i : nat) (source_to_target : list Z)
    (source_tokens : list string) (unk_tokens : list string)
    : option (list string) :=
  match source_to_target with
  | [] => Some unk_tokens
  | t :: rest =>
      if t =? unk then
        token ← source_tokens !! i;
        collect_unk_tokens (S i) rest source_tokens (append_new unk_tokens token)
      else collect_unk_tokens (S i) rest source_tokens unk_tokens
  end.

(** Lines 355-359. *)
Definition predicted_token (unk_tokens : list string) (x : Z) : option string :=
  if x <? V then get_token_from_index x
  else unk_tokens !! Z.to_nat (x - V).

(** The body of the loop of [decode] for one example; [source_tokens] is
    [metadata["source_tokens"]]. *)
Definition decode_example (p : predictions) (source_tokens : list string)
    (source_to_target : list Z) : option (list string) :=
  indices ← top_indices p;
  indices ← until_end indices;
  unk_tokens ← collect_unk_tokens 0 source_to_target source_tokens [];
  mapM (predicted_token unk_tokens) indices.

(** [decode]: the value of [output_dict["predicted_tokens"]]. *)
Definition decode (predicted_indices : list predictions)
    (metadata : list (list string)) (source_to_target : list (list Z))
    : option (list (list string)) :=
  mapM (fun e => decode_example (fst (fst e)) (snd (fst e)) (snd e))
       (zip (zip predicted_indices metadata) source_to_target).

(** *** The spec's wording *)

(** [kept] is [indices] cut before the first end-of-sequence index, or all
    of [indices] when there is none. *)
Definition truncated_at_end (indices kept : list Z) : Prop :=
  (_end_index self ∉ kept) /\
  (kept = indices \/ exists rest, indices = kept ++ _end_index self :: rest).

(** The source positions that held the unknown-word index in the original
    [source_to_target] row, in increasing order. *)
Definition unknown_positions (source_to_target : list Z) : list nat :=
  filter (fun i => source_to_target !! i = Some unk)
         (seq 0 (length source_to_target)).

(** The literal source tokens at those positions. *)
Definition tokens_at_unknown (source_to_target : list Z)
    (source_tokens : list string) : option (list string) :=
  mapM (fun i => source_tokens !! i) (unknown_positions source_to_target).

(** [oov] lists the distinct tokens of [l], in order of first occurrence:
    the slot of a token is the number of distinct tokens before its first
    occurrence. *)
Definition first_occurrence_order (l oov : list string) : Prop :=
  NoDup oov /\
  (forall w, w ∈ oov <-> w ∈ l) /\
  (forall i w, l !! i = Some w -> w ∉ take i l ->
               oov !! length (remove_dups (take i l)) = Some w).

(** The token an index stands for. *)
Definition token_of (oov : list string) (x : Z) (token : string) : Prop :=
  (x < V /\ get_token_from_index x = Some token) \/
  (V <= x /\ oov !! Z.to_nat (x - V) = Some token).

(** [tokens] are the predicted tokens of an example with predictions [p],
    literal source tokens [source_tokens] and original source indices
    [source_to_target]: the top-ranked hypothesis (the sequence itself when
    there is only one), cut before its first end-of-sequence index, each
    index replaced by the token it stands for, the out-of-vocabulary list
    being the distinct literal tokens at the unknown source positions in
    order of first occurrence. *)
Definition decoded_as (p : predictions) (source_tokens : list string)
    (source_to_target : list Z) (tokens : list string) : Prop :=
  exists indices kept l oov,
    (p = Sequence indices \/ exists others, p = Beams (indices :: others)) /\
    truncated_at_end indices kept /\
    tokens_at_unknown source_to_target source_tokens = Some l /\
    first_occurrence_order l oov /\
    Forall2 (token_of oov) kept tokens.

(** No tokens can be given for the example: there is no hypothesis, a
    literal source token is missing at an unknown position, or a kept index
    stands for no token. *)
Definition undecodable (p : predictions) (source_tokens : list string)
    (source_to_target : list Z) : Prop :=
  p = Beams [] \/
  tokens_at_unknown source_to_target source_tokens = None \/
  exists indices kept l oov x,
    top_indices p = Some indices /\
    truncated_at_end indices kept /\
    tokens_at_unknown source_to_target source_tokens = Some l /\
    first_occurrence_order l oov /\
    x ∈ kept /\
    forall token, ~ token_of oov x token.

End WithModel.

End Decode.

(** ** [evaluate.py]: hypothesis and reference strings *)

Module PyStr.

(** A Python [str]: a sequence of code points. *)
Abbreviation str := (list N) (only parsing).

(** An ASCII literal. *)
Definition lit (s : string) : str :=
  (fun c => N_of_ascii c) <$> list_ascii_of_string s.

(** [s.startswith(p)] *)
Fixpoint startswith (p s : str) : bool :=
  match p, s with
  | [], _ => true
  | _ :: _, [] => false
  | a :: p', b :: s' => bool_decide (a = b) && startswith p' s'
  end.

(** [sep.join(l)] *)
Fixpoint join (sep : str) (l : list str) : str :=
  match l with
  | [] => []
  | [a] => a
  | a :: l' => a ++ sep ++ join sep l'
  end.

(** [s.replace(old, new)]: the occurrences of [old] are replaced from left
    to right, without overlap; [skip] counts the characters of a replaced
    occurrence still to be passed over.  An empty [old] matches before every
    character and at the end. *)
Fixpoint replace_from (old new : str) (skip : nat) (s : str) : str :=
  match s with
  | [] => match old with [] => new | _ => [] end
  | c :: s' =>
      match skip with
      | S k => replace_from old new k s'
      | O =>
          match old with
          | [] => new ++ c :: replace_from old new 0 s'
          | _ :: _ =>
              if startswith old s
              then new ++ replace_from old new (length old - 1) s'
              else c :: replace_from old new 0 s'
          end
      end
  end.

Definition replace (old new s : str) : str := replace_from old new 0 s.

(** [s.split(sep)] for a non-empty [sep]: [cur] is the piece being read. *)
Fixpoint split_from (sep : str) (skip : nat) (cur : str) (s : str) : list str :=
  match s with
  | [] => [cur]
  | c :: s' =>
      match skip with
      | S k => split_from sep k cur s'
      | O =>
          if startswith sep s
          then cur :: split_from sep (length sep - 1) [] s'
          else split_from sep 0 (cur ++ [c]) s'
      end
  end.

Definition split (sep s : str) : list str := split_from sep 0 [] s.

(** [c.isspace()] *)
Definition isspace (c : N) : bool :=
  ((9 <=? c) && (c <=? 13) || (28 <=? c) && (c <=? 32)
   || (c =? 133) || (c =? 160) || (c =? 5760)
   || (8192 <=? c) && (c <=? 8202) || (c =? 8232) || (c =? 8233)
   || (c =? 8239) || (c =? 8287) || (c =? 12288))%N.

Fixpoint lstrip (s : str) : str :=
  match s with
  | [] => []
  | c :: s' => if isspace c then lstrip s' else s
  end.

(** [s.strip()] *)
Definition strip (s : str) : str := reverse (lstrip (reverse (lstrip s))).

End PyStr.

Module Evaluate.
Import PyStr.

(** A test-set target: a string, a list of sentences, or anything else. *)
Inductive target :=
| TStr (s : str)
| TList (sentences : list str)
| TOther.

Section WithRegex.
(** [re.findall(pattern, text, re.U)] *)
Variable re_findall : str -> str -> list str.

Definition dquote : str := [34%N].

(** [f[0] + f[2:-2] + f[-1]]; an empty [f] raises. *)
Definition unspace (f : str) : option str :=
  first ← head f;
  final ← last f;
  Some (first :: take (length f - 2 - 2) (drop 2 f) ++ [final]).

(** [detokenize] *)
Definition detokenize (text : str) : option str :=
  let punctuation := lit ",.!?:;%" in
  let closing_punctuation := lit ")]}" in
  let opening_punctuation := lit "([}" in
  let text := foldl (fun text ch => replace (lit " " ++ [ch]) [ch] text) text
                (punctuation ++ closing_punctuation) in
  let text := foldl (fun text ch => replace ([ch] ++ lit " ") [ch] text) text
                opening_punctuation in
  let res := [ dquote ++ lit "\s[^" ++ dquote ++ lit "]+\s" ++ dquote;
               lit "'\s[^']+\s'" ] in
  foldl (fun text r =>
           text ← text;
           foldl (fun text f =>
                    text ← text;
                    g ← unspace f;
                    Some (replace f g text))
                 (Some text) (re_findall r text))
        (Some text) res.

(** Lines 63-84 of [evaluate]: the hypothesis and the references appended
    for one output of the predictor. *)
Definition hyp_and_ref (is_multiple_ref is_subwords : bool)
    (decoded_words : list str) (target : target) : option (str * list str) :=
  if negb is_multiple_ref then
    hyp ← (if negb is_subwords then detokenize (join (lit " ") decoded_words)
           else Some (replace [9601%N] (lit " ") (join [] decoded_words)));
    let hyp := if (length (strip hyp) <=? 1)%nat then lit "empty" else hyp in
    target ← match target with
             | TStr s => Some s
             | _ => None
             end;
    let target := if (length (strip target) <=? 1)%nat then lit "empty" else target in
    Some (hyp, [target])
  else
    reference_sents ← match target with
                      | TList sentences => Some sentences
                      | TStr s => Some (split (lit " s_s ") s)
                      | TOther => None
                      end;
    let decoded_sents := split (lit "s_s") (join (lit " ") decoded_words) in
    let escape := fun w : str =>
      strip (replace (lit ">") (lit "&gt;") (replace (lit "<") (lit "&lt;") w)) in
    let hyp := escape <$> decoded_sents in
    let ref := escape <$> reference_sents in
    Some (join (lit " ") hyp, [join (lit " ") ref]).

(** The loop of lines 62-104 over the outputs of one batch: [hyps] and
    [refs] grow by one entry per output, until [max_count] is reached. *)
Fixpoint evaluate_batch (is_multiple_ref is_subwords : bool)
    (max_count : option nat) (outputs : list (list str * target))
    (hyps : list str) (refs : list (list str))
    : option (list str * list (list str)) :=
  match outputs with
  | [] => Some (hyps, refs)
  | (decoded_words, target) :: outputs' =>
      '(hyp, ref) ← hyp_and_ref is_multiple_ref is_subwords decoded_words target;
      let hyps := hyps ++ [hyp] in
      let refs := refs ++ [ref] in
      match max_count with
      | Some (S n) =>
          if (S n <=? length hyps)%nat then Some (hyps, refs)
          else evaluate_batch is_multiple_ref is_subwords max_count outputs' hyps refs
      | _ => evaluate_batch is_multiple_ref is_subwords max_count outputs' hyps refs
      end
  end.

End WithRegex.

End Evaluate.

(** ** The decoder: one step, the final distribution, the loop, the loss *)

Module Decoder.
#[local] Open Scope R_scope.

Abbreviation vec := (list R) (only parsing).

(** [self._eps = 1e-31] *)
Definition _eps : R := / 10 ^ 31.

Definition sum_R (l : vec) : R := foldr Rplus 0 l.

(** [torch.sigmoid], [F.softmax(., dim=-1)] and [torch.mean] on one row. *)
Definition sigmoid (x : R) : R := 1 / (1 + exp (- x)).
Definition softmax (l : vec) : vec :=
  (fun x => exp x / sum_R (exp <$> l)) <$> l.
Definition mean (l : vec) : R := sum_R l / INR (length l).

(** [a + b] and [torch.min(a, b)] on rows of the same length. *)
Definition vec_add (a b : vec) : option vec :=
  if bool_decide (length a = length b) then Some (zip_with Rplus a b) else None.
Definition vec_min (a b : vec) : option vec :=
  if bool_decide (length a = length b) then Some (zip_with Rmin a b) else None.

(** [out.scatter_add(0, index, src)] on one row: [out[index[j]] += src[j]]
    for every [j]; an index outside [out], or more indices than sources,
    raises. *)
Fixpoint scatter_add (out : vec) (index : list Z) (src : vec) : option vec :=
  match index with
  | [] => Some out
  | i :: index' =>
      match src with
      | [] => None
      | x :: src' =>
          if ((0 <=? i) && (i <? Z.of_nat (length out)))%Z
          then scatter_add (alter (fun y => y + x) (Z.to_nat i) out) index' src'
          else None
      end
  end.

(** The modules of the framework the model is built from, acting on one
    example (they treat the examples of a batch independently). *)
Record modules := {
  (** [self._target_embedder] *)
  target_embedder : Z -> vec;
  (** [self._attention.forward(hidden, encoder_outputs, mask[, coverage])] *)
  attention : vec -> list vec -> vec -> option vec -> vec;
  (** [util.weighted_sum] *)
  weighted_sum : list vec -> vec -> vec;
  (** [self._decoder_cell] *)
  decoder_cell : vec -> vec * vec -> vec * vec;
  hidden_projection_layer : vec -> vec;
  output_projection_layer : vec -> vec;
  p_gen_layer : vec -> R;
  (** the index returned by [torch.max(row, 0)] *)
  argmax : vec -> Z;
  (** the outcome of [torch.rand(1).item() < self._scheduled_sampling_ratio]
      at each time step *)
  sampled : nat -> bool;
  (** [util.get_final_encoder_states] for one example *)
  get_final_encoder_states : list vec -> vec -> vec;
  (** [self._decoder_output_dim] *)
  decoder_output_dim : nat;
}.

(** The dictionary [state]; the keys that are always written before they
    are read are plain fields, [coverage] and [target_tokens] may be
    absent. *)
Record state := {
  encoder_outputs : list (list vec);
  source_mask : list vec;
  decoder_hidden : list vec;
  decoder_context : list vec;
  coverage : option (list vec);
  tokens : list (list Z);
  extra_zeros : list vec;
  target_tokens : option (list (list Z));
  decoder_input : list vec;
  attn_scores : list vec;
  attn_context : list vec;
}.

Section WithModel.
Variable self : PointerGeneratorNetwork.
Variable m : modules.

Abbreviation V := (_target_vocab_size self).
Abbreviation unk := (_target_unk_index self).

(** [_init_decoder_state] *)
Definition _init_decoder_state (st : state) : state :=
  let batch_size := length (source_mask st) in
  let final_encoder_output :=
    zip_with (get_final_encoder_states m) (encoder_outputs st) (source_mask st) in
  {| encoder_outputs := encoder_outputs st;
     source_mask := source_mask st;
     decoder_hidden := final_encoder_output;
     decoder_context := replicate batch_size (replicate (decoder_output_dim m) 0);
     coverage :=
       if _use_coverage self
       then Some ((fun r : vec => replicate (length r) 0) <$> source_mask st)
       else coverage st;
     tokens := tokens st;
     extra_zeros := extra_zeros st;
     target_tokens := target_tokens st;
     decoder_input := decoder_input st;
     attn_scores := attn_scores st;
     attn_context := attn_context st |}.

(** What [_prepare_output_projections] computes for one example. *)
Record step_row := {
  row_input : vec;
  row_hidden : vec;
  row_context : vec;
  row_attn_scores : vec;
  row_attn_context : vec;
  row_coverage : option vec;
  row_projections : vec;
}.

(** Lines 182-200 for example [n] of the batch. *)
Definition prepare_row (last_predictions : list Z) (st : state) (n : nat)
    : option step_row :=
  x ← last_predictions !! n;
  encoder_outputs ← encoder_outputs st !! n;
  source_mask ← source_mask st !! n;
  decoder_hidden ← decoder_hidden st !! n;
  decoder_context ← decoder_context st !! n;
  let is_unk := (if (V <=? x)%Z then 1 else 0)%Z in
  let last_predictions_fixed :=
    add64 (sub64 x (mul64 x is_unk)) (mul64 unk is_unk) in
  let embedded_input := target_embedder m last_predictions_fixed in
  '(attn_scores, coverage) ←
     (if negb (_use_coverage self)
      then Some (attention m decoder_hidden encoder_outputs source_mask None,
                 None)
      else
        all ← coverage st;
        coverage ← all !! n;
        let attn_scores :=
          attention m decoder_hidden encoder_outputs source_mask (Some coverage) in
        coverage ← vec_add coverage attn_scores;
        Some (attn_scores, Some coverage));
  let attn_context := weighted_sum m encoder_outputs attn_scores in
  let decoder_input := attn_context ++ embedded_input in
  let '(decoder_hidden, decoder_context) :=
    decoder_cell m decoder_input (decoder_hidden, decoder_context) in
  Some {| row_input := decoder_input;
          row_hidden := decoder_hidden;
          row_context := decoder_context;
          row_attn_scores := attn_scores;
          row_attn_context := attn_context;
          row_coverage := coverage;
          row_projections :=
            output_projection_layer m (hidden_projection_layer m decoder_hidden) |}.

(** [_prepare_output_projections] *)
Definition _prepare_output_projections (last_predictions : list Z) (st : state)
    : option (list vec * state) :=
  rows ← mapM (prepare_row last_predictions st) (seq 0 (length last_predictions));
  coverage ← (if negb (_use_coverage self) then Some (coverage st)
              else Some <$> mapM row_coverage rows);
  Some (row_projections <$> rows,
        {| encoder_outputs := encoder_outputs st;
           source_mask := source_mask st;
           decoder_hidden := row_hidden <$> rows;
           decoder_context := row_context <$> rows;
           coverage := coverage;
           tokens := tokens st;
           extra_zeros := extra_zeros st;
           target_tokens := target_tokens st;
           decoder_input := row_input <$> rows;
           attn_scores := row_attn_scores <$> rows;
           attn_context := row_attn_context <$> rows |}).

(** Lines 219-231 for one example: the gate, the two scaled distributions,
    the padding with the extra slots, the scatter-add and the division by
    the row sum. *)
Definition final_dist_row (p_gen : R) (output_projections attn_dist : vec)
    (tokens : list Z) (with_extra : bool) (extra_zeros : vec) : option vec :=
  let vocab_dist := softmax output_projections in
  let vocab_dist := (fun x => x * p_gen) <$> vocab_dist in
  let attn_dist := (fun x => x * (1 - p_gen)) <$> attn_dist in
  let vocab_dist := if with_extra then vocab_dist ++ extra_zeros else vocab_dist in
  final_dist ← scatter_add vocab_dist tokens attn_dist;
  let normalization_factor := sum_R final_dist in
  Some ((fun x => x / normalization_factor) <$> final_dist).

(** The gate of one example, lines 219-221. *)
Definition p_gen_row (st : state) (n : nat) : option R :=
  attn_context ← attn_context st !! n;
  decoder_hidden ← decoder_hidden st !! n;
  decoder_context ← decoder_context st !! n;
  decoder_input ← decoder_input st !! n;
  Some (sigmoid (p_gen_layer m
          (attn_context ++ (decoder_hidden ++ decoder_context) ++ decoder_input))).

(** [extra_zeros.size(1)] *)
Definition extra_size1 (st : state) : nat :=
  match extra_zeros st with
  | [] => 0%nat
  | r :: _ => length r
  end.

(** [_get_final_dist] *)
Definition _get_final_dist (st : state) (output_projections : list vec)
    : option (list vec) :=
  mapM (fun n =>
          p_gen ← p_gen_row st n;
          output_projections ← output_projections !! n;
          attn_dist ← attn_scores st !! n;
          tokens ← tokens st !! n;
          extra_zeros ←
            (if bool_decide (extra_size1 st = 0%nat) then Some []
             else extra_zeros st !! n);
          final_dist_row p_gen output_projections attn_dist tokens
            (negb (bool_decide (extra_size1 st = 0%nat))) extra_zeros)
       (seq 0 (length output_projections)).

(** *** The final distribution in the spec's words *)

(** The attention mass of the source positions whose token index is [k]. *)
Definition copy_mass (tokens : list Z) (attn_dist : vec) (k : nat) : R :=
  sum_R ((fun ia : Z * R =>
            if bool_decide (fst ia = Z.of_nat k) then snd ia else 0)
           <$> zip tokens attn_dist).

(** The mass of slot [k] before the division by the row sum: the softmax
    mass scaled by the gate (nothing for an extra slot), plus the copy mass
    scaled by one minus the gate. *)
Definition mixed_mass (p_gen : R) (output_projections attn_dist : vec)
    (tokens : list Z) (k : nat) : R :=
  p_gen * nth k (softmax output_projections) 0
  + (1 - p_gen) * copy_mass tokens attn_dist k.

(** The tensors are those of a decoding step: one row per example, scores
    for at least one class, non-negative attention weights for every source
    position, source token indices inside the combined vocabulary, and
    extra slots holding zero. *)
Definition mixer_ok (st : state) (output_projections : list vec) : Prop :=
  forall n, (n < length output_projections)%nat ->
    is_Some (attn_context st !! n) /\ is_Some (decoder_hidden st !! n) /\
    is_Some (decoder_context st !! n) /\ is_Some (decoder_input st !! n) /\
    exists proj attn toks extra,
      output_projections !! n = Some proj /\
      attn_scores st !! n = Some attn /\
      tokens st !! n = Some toks /\
      extra_zeros st !! n = Some extra /\
      proj <> [] /\
      Forall (fun a => 0 <= a) attn /\
      (length toks <= length attn)%nat /\
      Forall (fun i => (0 <= i < Z.of_nat (length proj + length extra))%Z) toks /\
      length extra = extra_size1 st /\
      Forall (fun z => z = 0) extra.

(** *** The loss *)

(** The term of one target position at step [t] with class [c] in
    [torch.nn.NLLLoss(ignore_index)]: nothing for the ignored class,
    [- input[c][t]] otherwise; a class outside the input raises. *)
Definition nll_term (ignore_index : Z) (input : list vec) (t : nat) (c : Z)
    : option (option R) :=
  if (c =? ignore_index)%Z then Some None
  else if (0 <=? c)%Z then
    row ← input !! Z.to_nat c; x ← row !! t; Some (Some (- x))
  else None.

(** The terms of one example; the input must have one column per target
    position. *)
Definition nll_row (ignore_index : Z) (input : list vec) (target : list Z)
    : option (list R) :=
  if bool_decide (Forall (fun row : vec => length row = length target) input)
  then terms ← mapM (fun tc => nll_term ignore_index input (fst tc) (snd tc))
                    (imap pair target);
       Some (omap (fun term : option R => term) terms)
  else None.

(** [torch.nn.NLLLoss(ignore_index)(input, target)] with the default mean
    reduction, for an input [N x C x d] and a target [N x d].  [None] is a
    raised exception, and also the NaN of a batch without any counted
    target. *)
Definition nll_loss (ignore_index : Z) (input : list (list vec))
    (target : list (list Z)) : option R :=
  if bool_decide (length input = length target) then
    rows ← mapM (fun it => nll_row ignore_index (fst it) (snd it)) (zip input target);
    let terms := concat rows in
    if bool_decide (terms = []) then None
    else Some (sum_R terms / INR (length terms))
  else None.

(** [_get_loss]; [torch.log] is [ln] on the positive reals. *)
Definition _get_loss (proba : list (list vec)) (targets : list (list Z))
    (eps : R) : option R :=
  let targets := drop 1 <$> targets in
  let proba :=
    (fun example : list vec =>
       (fun row : vec => (fun p => ln (p + eps)) <$> row) <$> example) <$> proba in
  nll_loss 0 proba targets.

(** *** The loss in the spec's words *)

(** The logarithm of the probability, plus epsilon, that the stacked
    distributions of an example give to class [c] at step [t]. *)
Definition log_likelihood (example : list vec) (eps : R) (t : nat) (c : Z) : R :=
  ln (nth t (nth (Z.to_nat c) example []) 0 + eps).

(** The negative log-likelihood of one example against its targets
    shifted by one position, the padding index 0 left out, and the number of
    targets that count. *)
Definition row_nll (eps : R) (example : list vec) (target : list Z) : R :=
  sum_R (imap (fun t c =>
                 if (c =? 0)%Z then 0 else - log_likelihood example eps t c)
              (drop 1 target)).

Definition row_count (target : list Z) : nat :=
  length (filter (fun c => c <> 0%Z) (drop 1 target)).

Definition nll_spec (proba : list (list vec)) (targets : list (list Z))
    (eps : R) : R :=
  sum_R (zip_with (row_nll eps) proba targets)
  / INR (sum_list (row_count <$> targets)).

(** [proba] is [N x C x d], [targets] is [N x (d + 1)] and holds classes
    below [C]. *)
Record loss_ok (N C d : nat) (proba : list (list vec))
    (targets : list (list Z)) : Prop := {
  loss_ok_proba : length proba = N;
  loss_ok_targets : length targets = N;
  loss_ok_shape :
    Forall (fun example : list vec =>
              length example = C /\
              Forall (fun row : vec => length row = d) example) proba;
  loss_ok_classes :
    Forall (fun target : list Z =>
              length target = S d /\
              Forall (fun c => (0 <= c < Z.of_nat C)%Z) (drop 1 target)) targets;
}.

(** *** The decoding loop *)

(** The variables of [_forward_loop] that change from step to step. *)
Record loop_state := {
  ls_state : state;
  last_predictions : list Z;
  step_proba : list (list vec);
  step_predictions : list (list Z);
  coverage_loss : option vec;
}.

(** The body of the loop, lines 256-276. *)
Definition loop_body (targets : option (list (list Z))) (acc : loop_state)
    (timestep : nat) : option loop_state :=
  input_choices ←
    (if training self && sampled m timestep then Some (last_predictions acc)
     else match targets with
          | None => Some (last_predictions acc)
          | Some targets => mapM (fun r : list Z => r !! timestep) targets
          end);
  coverage ← (if _use_coverage self then Some <$> coverage (ls_state acc)
              else Some None);
  '(output_projections, st) ←
     _prepare_output_projections input_choices (ls_state acc);
  final_dist ← _get_final_dist st output_projections;
  coverage_loss ←
    (if _use_coverage self then
       coverage ← coverage;
       _ ← guard (length (attn_scores st) = length coverage);
       step_coverage_loss ←
         mapM (fun ac => sum_R <$> vec_min (fst ac) (snd ac))
              (zip (attn_scores st) coverage);
       match coverage_loss acc with
       | Some coverage_loss => Some <$> vec_add coverage_loss step_coverage_loss
       | None => Some (Some step_coverage_loss)
       end
     else Some (coverage_loss acc));
  let predicted_classes := argmax m <$> final_dist in
  Some {| ls_state := st;
          last_predictions := predicted_classes;
          step_proba := step_proba acc ++ [final_dist];
          step_predictions := step_predictions acc ++ [predicted_classes];
          coverage_loss := coverage_loss |}.

(** [for timestep in timesteps: ...] *)
Fixpoint run_loop (targets : option (list (list Z))) (timesteps : list nat)
    (acc : loop_state) : option loop_state :=
  match timesteps with
  | [] => Some acc
  | timestep :: timesteps' =>
      acc ← loop_body targets acc timestep;
      run_loop targets timesteps' acc
  end.

(** [torch.cat(step_predictions, 1)] of columns [B x 1]: an empty list and
    columns of different heights raise. *)
Definition cat_columns (columns : list (list Z)) : option (list (list Z)) :=
  first ← head columns;
  _ ← guard (Forall (fun c : list Z => length c = length first) columns);
  mapM (fun n => mapM (fun c : list Z => c !! n) columns) (seq 0 (length first)).

(** Lines 285-288: [proba[:, :, i] = p] for every step. *)
Definition stack_proba (batch_size : nat) (step_proba : list (list vec))
    : option (list (list vec)) :=
  first ← head step_proba;
  let num_classes := match first with [] => 0%nat | r :: _ => length r end in
  _ ← guard (Forall (fun p : list vec =>
                       length p = batch_size /\
                       Forall (fun r : vec => length r = num_classes) p)
                    step_proba);
  mapM (fun n =>
          mapM (fun c =>
                  mapM (fun p : list vec => r ← p !! n; r !! c) step_proba)
               (seq 0 num_classes))
       (seq 0 batch_size).

(** The dictionary returned by [_forward_loop]; [loss] is absent without
    targets. *)
Record output := {
  predictions : list (list Z);
  loss : option R;
}.

(** The number of rounds of the loop, lines 242-247; [targets] is
    [target_tokens["tokens"]] when [target_tokens] is given. *)
Definition num_decoding_steps (targets : option (list (list Z))) : nat :=
  match targets with
  | Some targets => size1 targets - 1
  | None => _max_decoding_steps self
  end.

(** The loop variables before the first round, lines 249-254. *)
Definition initial_loop_state (st : state) : loop_state :=
  {| ls_state := st;
     last_predictions := replicate (length (source_mask st)) (_start_index self);
     step_proba := [];
     step_predictions := [];
     coverage_loss := None |}.

(** [_forward_loop]; [targets] is [target_tokens["tokens"]] when
    [target_tokens] is given. *)
Definition _forward_loop (st : state) (targets : option (list (list Z)))
    : option output :=
  let batch_size := length (source_mask st) in
  let num_decoding_steps := num_decoding_steps targets in
  acc ← run_loop targets (seq 0 num_decoding_steps) (initial_loop_state st);
  predictions ← cat_columns (step_predictions acc);
  match targets with
  | None => Some {| predictions := predictions; loss := None |}
  | Some _ =>
      proba ← stack_proba batch_size (step_proba acc);
      targets ← target_tokens (ls_state acc);
      loss ← _get_loss proba targets _eps;
      loss ←
        (if _use_coverage self then
           coverage_loss ← coverage_loss acc;
           weight ← _coverage_loss_weight self;
           let coverage_loss :=
             mean ((fun x => x / INR num_decoding_steps) <$> coverage_loss) in
           Some (loss + weight * coverage_loss)
         else Some loss);
      Some {| predictions := predictions; loss := Some loss |}
  end.

(** *** The two parts of the training loss *)

(** The value of [loss] after line 290: the negative log-likelihood of the
    distributions of the run. *)
Definition primary_loss (st : state) (targets : list (list Z)) : option R :=
  acc ← run_loop (Some targets) (seq 0 (num_decoding_steps (Some targets)))
          (initial_loop_state st);
  proba ← stack_proba (length (source_mask st)) (step_proba acc);
  targets ← target_tokens (ls_state acc);
  _get_loss proba targets _eps.

(** The value of [coverage_loss] after line 292: per step, the sum over the
    source positions of the minimum of the attention weight and the coverage
    accumulated before the step; summed over the steps, divided by their
    number, averaged over the examples. *)
Definition coverage_term (st : state) (targets : list (list Z)) : option R :=
  acc ← run_loop (Some targets) (seq 0 (num_decoding_steps (Some targets)))
          (initial_loop_state st);
  coverage_loss ← coverage_loss acc;
  Some (mean ((fun x => x / INR (num_decoding_steps (Some targets)))
                <$> coverage_loss)).

(** *** Well-formed inputs of the loop *)

(** The tensors of [state] have one row per example, the source token
    indices stay inside the [C] classes and the extra slots, and with
    coverage there is a coverage value per source position. *)
Record state_ok (B C : nat) (st : state) : Prop := {
  ok_encoder_outputs : length (encoder_outputs st) = B;
  ok_source_mask : length (source_mask st) = B;
  ok_decoder_hidden : length (decoder_hidden st) = B;
  ok_decoder_context : length (decoder_context st) = B;
  ok_extra_zeros :
    length (extra_zeros st) = B /\
    Forall (fun r : vec => length r = extra_size1 st) (extra_zeros st);
  ok_tokens :
    Forall2 (fun (toks : list Z) (mask : vec) =>
               (length toks <= length mask)%nat /\
               Forall (fun i => (0 <= i < Z.of_nat (C + extra_size1 st))%Z) toks)
            (tokens st) (source_mask st);
  ok_coverage :
    _use_coverage self = true ->
    exists cov, coverage st = Some cov /\
                Forall2 (fun (c mask : vec) => length c = length mask)
                        cov (source_mask st);
}.

End WithModel.

(** The shapes the modules return: one attention weight per source position
    and [C] scores per example. *)
Record modules_ok (m : modules) (C : nat) : Prop := {
  attention_length :
    forall h e mask c, length (attention m h e mask c) = length mask;
  projection_length :
    forall x, length (output_projection_layer m x) = C;
}.

(** What a decoding step leaves in [state]: the inputs of the loop are
    unchanged, the tensors written by the step have one row per example,
    and there is an attention weight per source position. *)
Definition after_step (B C : nat) (st st' : state) (proj : list vec) : Prop :=
  length proj = B /\
  Forall (fun r : vec => length r = C) proj /\
  encoder_outputs st' = encoder_outputs st /\
  source_mask st' = source_mask st /\
  tokens st' = tokens st /\
  extra_zeros st' = extra_zeros st /\
  target_tokens st' = target_tokens st /\
  length (decoder_input st') = B /\
  length (attn_context st') = B /\
  Forall2 (fun a mask : vec => length a = length mask)
          (attn_scores st') (source_mask st).

(** The loop variables after [k] rounds started from the state [st0]. *)
Definition loop_inv (self : PointerGeneratorNetwork) (B C : nat) (st0 : state)
    (k : nat) (acc : loop_state) : Prop :=
  state_ok self B C (ls_state acc) /\
  source_mask (ls_state acc) = source_mask st0 /\
  extra_zeros (ls_state acc) = extra_zeros st0 /\
  target_tokens (ls_state acc) = target_tokens st0 /\
  length (last_predictions acc) = B /\
  length (step_proba acc) = k /\
  Forall (fun p : list vec =>
            length p = B /\
            Forall (fun r : vec => length r = (C + extra_size1 st0)%nat) p)
         (step_proba acc) /\
  length (step_predictions acc) = k /\
  Forall (fun c : list Z => length c = B) (step_predictions acc) /\
  (forall cl, coverage_loss acc = Some cl -> length cl = B) /\
  (_use_coverage self = true -> (0 < k)%nat -> is_Some (coverage_loss acc)).

(** The targets fed to the decoder have a row per example, long enough for
    the time step. *)
Definition targets_ok (B : nat) (targets : option (list (list Z)))
    (timestep : nat) : Prop :=
  match targets with
  | None => True
  | Some targets =>
      length targets = B /\
      Forall (fun r : list Z => (timestep < length r)%nat) targets
  end.

(** The model with coverage switched on or off. *)
Definition with_coverage (b : bool) (self : PointerGeneratorNetwork)
    : PointerGeneratorNetwork :=
  {| _start_index := _start_index self;
     _end_index := _end_index self;
     _target_unk_index := _target_unk_index self;
     _target_vocab_size := _target_vocab_size self;
     _max_decoding_steps := _max_decoding_steps self;
     _use_coverage := b;
     _coverage_loss_weight := _coverage_loss_weight self;
     training := training self |}.

(** Two states that differ at most in [coverage]. *)
Definition same_except_coverage (a b : state) : Prop :=
  encoder_outputs a = encoder_outputs b /\
  source_mask a = source_mask b /\
  decoder_hidden a = decoder_hidden b /\
  decoder_context a = decoder_context b /\
  tokens a = tokens b /\
  extra_zeros a = extra_zeros b /\
  target_tokens a = target_tokens b /\
  decoder_input a = decoder_input b /\
  attn_scores a = attn_scores b /\
  attn_context a = attn_context b.

(** The attention scores do not depend on the coverage argument. *)
Definition attention_ignores_coverage (m : modules) : Prop :=
  forall h e mask c, attention m h e mask (Some c) = attention m h e mask None.

(** A row of a step without its coverage. *)
Definition without_coverage (r : step_row) : step_row :=
  {| row_input := row_input r;
     row_hidden := row_hidden r;
     row_context := row_context r;
     row_attn_scores := row_attn_scores r;
     row_attn_context := row_attn_context r;
     row_coverage := None;
     row_projections := row_projections r |}.

(** The loop variables of the two runs agree, up to the coverage. *)
Definition same_run (a b : loop_state) : Prop :=
  same_except_coverage (ls_state a) (ls_state b) /\
  last_predictions a = last_predictions b /\
  step_proba a = step_proba b /\
  step_predictions a = step_predictions b.

End Decoder.

(** A small model for the examples: 10 target words, padding [0], unknown
    word [1], start [2], end [3], at most 5 decoding steps. *)
Definition model10 : PointerGeneratorNetwork :=
  {| _start_index := 2; _end_index := 3; _target_unk_index := 1;
     _target_vocab_size := 10; _max_decoding_steps := 5;
     _use_coverage := false; _coverage_loss_weight := None;
     training := false |}.

(** The spec's scenario: source "the zorblax ran", target "zorblax ran fast",
    with "the" = 4 and "ran" = 5 in the vocabulary, "zorblax" and "fast"
    unknown; the token identities number the words of the example in order
    of first occurrence.  The store holds the four input tensors. *)
Definition scenario_heap : heap :=
  [ [[4; 1; 5]]; [[0; 1; 2]]; [[1; 5; 1]]; [[1; 2; 3]] ].

(** An example without unknown words: source word 3, target word 7. *)
Definition known_words_heap : heap := [ [[3]]; [[0]]; [[7]]; [[1]] ].

(** A vocabulary for the examples. *)
Definition vocab10 (x : Z) : option string :=
  if (0 <=? x) && (x <? 10) then
    Some (nth (Z.to_nat x)
            ["<pad>"; "<unk>"; "<s>"; "</s>"; "the"; "ran"; "a"; "b"; "c"; "d"]
            EmptyString)%string
  else None.

(** Modules for the examples: every layer returns zeros, the attention puts
    all its weight on the first source position, and with a coverage vector
    on the first position that is not covered yet. *)
Definition toy_attention (hidden : list R) (encoder_outputs : list (list R))
    (mask : list R) (coverage : option (list R)) : list R :=
  match coverage with
  | Some (c :: _) => if Req_dec_T c 0 then [1; 0]%R else [0; 1]%R
  | _ => [1; 0]%R
  end.

Definition toy_modules (attention : list R -> list (list R) -> list R ->
                                    option (list R) -> list R)
    : Decoder.modules :=
  {| Decoder.target_embedder := fun _ => [];
     Decoder.attention := attention;
     Decoder.weighted_sum := fun _ _ => [];
     Decoder.decoder_cell := fun _ hc => hc;
     Decoder.hidden_projection_layer := fun h => h;
     Decoder.output_projection_layer := fun _ => [0; 0; 0; 0]%R;
     Decoder.p_gen_layer := fun _ => 0%R;
     Decoder.argmax := fun _ => 0;
     Decoder.sampled := fun _ => false;
     Decoder.get_final_encoder_states := fun _ _ => [];
     Decoder.decoder_output_dim := 0 |}.

(** One example with two source positions holding the words 2 and 3, after
    a decoding step. *)
Definition toy_state (coverage : option (list (list R)))
    (target_tokens : option (list (list Z))) : Decoder.state :=
  {| Decoder.encoder_outputs := [[[]; []]];
     Decoder.source_mask := [[1; 1]%R];
     Decoder.decoder_hidden := [[]];
     Decoder.decoder_context := [[]];
     Decoder.coverage := coverage;
     Decoder.tokens := [[2; 3]];
     Decoder.extra_zeros := [[]];
     Decoder.target_tokens := target_tokens;
     Decoder.decoder_input := [[]];
     Decoder.attn_scores := [[1; 0]%R];
     Decoder.attn_context := [[]] |}.

(** A model with 4 target words for the decoder examples, with or without
    coverage, and an attention that does not look at the coverage. *)
Definition model4 (use_coverage : bool) : PointerGeneratorNetwork :=
  {| _start_index := 2; _end_index := 3; _target_unk_index := 1;
     _target_vocab_size := 4; _max_decoding_steps := 5;
     _use_coverage := use_coverage; _coverage_loss_weight := Some 1%R;
     training := false |}.

Definition const_attention (hidden : list R) (encoder_outputs : list (list R))
    (mask : list R) (coverage : option (list R)) : list R := [1; 0]%R.

(** An attention that returns the mask itself: one weight per source
    position. *)
Definition mask_attention (hidden : list R) (encoder_outputs : list (list R))
    (mask : list R) (coverage : option (list R)) : list R := mask.

(** ** [evaluate.py]: the batches and the loop over them *)

Module EvaluateLoop.
Import PyStr Evaluate.

Section WithReader.
(** [s.lower()] *)
Variable lower : str -> str.

(** [get_batches]: the batches the generator yields for the pairs
    [(source, target)] that [reader.parse_set(test_path)] produces; [batch]
    is the batch being filled. *)
Fixpoint get_batches_from (items : list (str * target)) (batch_size : Z)
    (batch : list (str * target)) : list (list (str * target)) :=
  match items with
  | [] => match batch with [] => [] | _ :: _ => [batch] end
  | (source, target) :: items' =>
      let source := lower (strip source) in
      let batch := batch ++ [(source, target)] in
      if (Z.of_nat (length batch) =? batch_size)%Z
      then batch :: get_batches_from items' batch_size []
      else get_batches_from items' batch_size batch
  end.

Definition get_batches (items : list (str * target)) (batch_size : Z)
    : list (list (str * target)) :=
  get_batches_from items batch_size [].

(** [re.findall] and [predictor.predict_batch_json]: the predicted tokens of
    every example of a batch. *)
Variable re_findall : str -> str -> list str.
Variable predict_batch_json : list (str * target) -> list (list str).

(** Lines 56-104 of [evaluate]: the lists [hyps] and [refs] when the loop
    over the batches ends.  The [break] of line 104 leaves the loop over the
    outputs of one batch only.  The report of lines 89-101 (printing and
    scoring every [report_every] entries) does not change the two lists and
    is left out. *)
Definition evaluate (items : list (str * target)) (is_multiple_ref is_subwords : bool)
    (max_count : option nat) (batch_size : Z)
    : option (list str * list (list str)) :=
  foldl (fun acc batch =>
           '(hyps, refs) ← acc;
           let outputs := predict_batch_json batch in
           let targets := snd <$> batch in
           evaluate_batch re_findall is_multiple_ref is_subwords max_count
             (zip outputs targets) hyps refs)
        (Some ([], [])) (get_batches items batch_size).

End WithReader.

End EvaluateLoop.

(** ** The batches [_prepare] is called on *)

Module PrepareBatch.

Section WithModel.
Variable self : PointerGeneratorNetwork.

Abbreviation V := (_target_vocab_size self).
Abbreviation unk := (_target_unk_index self).

(** The values a data reader puts in a batch: indices of the target
    vocabulary, the unknown-word index among them, and non-negative token
    identities. *)
Record reader_values (tokens ids : tensor) : Prop := {
  reader_V : 0 < V < 2 ^ 62;
  reader_unk : 0 <= unk < V;
  reader_tokens : Forall (Forall (fun t => 0 <= t < V)) tokens;
  reader_ids : Forall (Forall (fun d => 0 <= d < 2 ^ 63)) ids;
  reader_width : Forall (fun r : row => Z.of_nat (length r) < 2 ^ 62) tokens;
}.

(** Example [i] is the same in two batches. *)
Definition same_example (i : nat) (src sids : tensor) (tv : option (tensor * tensor))
    (src' sids' : tensor) (tv' : option (tensor * tensor)) : Prop :=
  src !! i = src' !! i /\ sids !! i = sids' !! i /\
  match tv, tv' with
  | Some (tgt, tids), Some (tgt', tids') =>
      tgt !! i = tgt' !! i /\ tids !! i = tids' !! i
  | None, None => True
  | _, _ => False
  end.

End WithModel.

End PrepareBatch.

(** ** The step function of the beam search, and [forward] *)

Module DecoderStep.
Import Decoder.
#[local] Open Scope R_scope.

(** The modules with another target embedder. *)
Definition with_embedder (embedder : Z -> vec) (m : modules) : modules :=
  {| target_embedder := embedder;
     attention := attention m;
     weighted_sum := weighted_sum m;
     decoder_cell := decoder_cell m;
     hidden_projection_layer := hidden_projection_layer m;
     output_projection_layer := output_projection_layer m;
     p_gen_layer := p_gen_layer m;
     argmax := argmax m;
     sampled := sampled m;
     get_final_encoder_states := get_final_encoder_states m;
     decoder_output_dim := decoder_output_dim m |}.

(** The modules with another choice of the predicted class. *)
Definition with_argmax (choice : vec -> Z) (m : modules) : modules :=
  {| target_embedder := target_embedder m;
     attention := attention m;
     weighted_sum := weighted_sum m;
     decoder_cell := decoder_cell m;
     hidden_projection_layer := hidden_projection_layer m;
     output_projection_layer := output_projection_layer m;
     p_gen_layer := p_gen_layer m;
     argmax := choice;
     sampled := sampled m;
     get_final_encoder_states := get_final_encoder_states m;
     decoder_output_dim := decoder_output_dim m |}.

(** Two runs of the loop that agree on everything but the predicted
    indices. *)
Definition same_but_predictions (a b : loop_state) : Prop :=
  ls_state a = ls_state b /\
  step_proba a = step_proba b /\
  coverage_loss a = coverage_loss b /\
  length <$> step_predictions a = length <$> step_predictions b.

(** Two dictionaries [state] with the same entries, but for the three keys
    that a decoding step writes without reading them. *)
Definition same_inputs (a b : state) : Prop :=
  encoder_outputs a = encoder_outputs b /\
  source_mask a = source_mask b /\
  decoder_hidden a = decoder_hidden b /\
  decoder_context a = decoder_context b /\
  coverage a = coverage b /\
  tokens a = tokens b /\
  extra_zeros a = extra_zeros b /\
  target_tokens a = target_tokens b.



Section WithModel.
Variable self : PointerGeneratorNetwork.
Variable m : modules.

(** [take_step] *)
Definition take_step (last_predictions : list Z) (st : state)
    : option (list vec * state) :=
  '(output_projections, st) ← _prepare_output_projections self m last_predictions st;
  final_dist ← _get_final_dist m st output_projections;
  let log_probabilities :=
    (fun row : vec => (fun p => ln (p + _eps)) <$> row) <$> (final_dist : list vec) in
  Some (log_probabilities, st).

(** [self._beam_search.search] of the framework: from the start
    predictions, the start state and the step function to the best
    sequences of every example (batch x beam x steps) and their
    log-probabilities (batch x beam); [None] when it raises. *)
Variable beam_search :
  list Z -> state -> (list Z -> state -> option (list vec * state)) ->
  option (list (list (list Z)) * list vec).




End WithModel.

End DecoderStep.

(** An attention for the examples: weight 1 on every source position. *)
Definition unit_attention (hidden : list R) (encoder_outputs : list (list R))
    (mask : list R) (coverage : option (list R)) : list R :=
  (fun _ => 1%R) <$> mask.

(** One example whose first source word is outside a vocabulary of 4 words
    (extended index 4) and whose second is the word 2, in a batch with two
    extra slots, after a decoding step. *)
Definition padded_state : Decoder.state :=
  {| Decoder.encoder_outputs := [[[]; []]];
     Decoder.source_mask := [[1; 1]%R];
     Decoder.decoder_hidden := [[]];
     Decoder.decoder_context := [[]];
     Decoder.coverage := None;
     Decoder.tokens := [[4; 2]];
     Decoder.extra_zeros := [[0; 0]%R];
     Decoder.target_tokens := None;
     Decoder.decoder_input := [[]];
     Decoder.attn_scores := [[1; 1]%R];
     Decoder.attn_context := [[]] |}.


(** Two target embedders that agree on the indices below 4. *)
Definition small_embedder (x : Z) : list R := [IZR (Z.min x 4)].
Definition index_embedder (x : Z) : list R := [IZR x].

(** ** The token identities of an example *)

Module Identities.

Section WithModel.
Variable self : PointerGeneratorNetwork.

Abbreviation unk := (_target_unk_index self).

(** The identities [ids] number the unknown words of an example in order of
    first occurrence: they are positive, two unknown positions have the same
    identity exactly when they hold the same word, and the identity of an
    unknown position that holds a new identity is larger than the identities
    of the unknown positions before it.  Every unknown position has its
    literal word in [words] (the row [tokens] may be padded beyond them),
    and some position of the row holds something else than the unknown
    word. *)
Record numbered_by_first_occurrence (tokens ids : list Z) (words : list string)
    : Prop := {
  numbered_ids : length ids = length tokens;
  numbered_words : forall j, tokens !! j = Some unk -> is_Some (words !! j);
  numbered_known : exists j t, tokens !! j = Some t /\ t <> unk;
  numbered_positive :
    forall j d, tokens !! j = Some unk -> ids !! j = Some d -> 0 < d;
  numbered_same :
    forall j k d d' w w',
      tokens !! j = Some unk -> tokens !! k = Some unk ->
      ids !! j = Some d -> ids !! k = Some d' ->
      words !! j = Some w -> words !! k = Some w' ->
      (d = d' <-> w = w');
  numbered_order :
    forall j k d d',
      (j < k)%nat -> tokens !! j = Some unk -> tokens !! k = Some unk ->
      ids !! j = Some d -> ids !! k = Some d' ->
      (forall k0, (k0 < k)%nat -> tokens !! k0 = Some unk -> ids !! k0 <> Some d') ->
      d < d';
}.

(** The list [unk_tokens] of [decode], with the identities [accd] of its
    words, after the source positions before [p]. *)
Definition collected (tokens ids : list Z) (words : list string) (p : nat)
    (acc : list string) (accd : list Z) : Prop :=
  length acc = length accd /\
  StronglySorted Z.lt accd /\
  Forall (fun y => 0 < y) accd /\
  (forall s w, acc !! s = Some w ->
     exists q d, (q < p)%nat /\ tokens !! q = Some unk /\
                 words !! q = Some w /\ ids !! q = Some d /\
                 accd !! s = Some d) /\
  (forall q w d, (q < p)%nat -> tokens !! q = Some unk ->
     words !! q = Some w -> ids !! q = Some d ->
     exists s, acc !! s = Some w /\ accd !! s = Some d).

End WithModel.

(** The elements of [l] at the positions [js]; [None] when a position is
    outside [l]. *)
Definition at_positions {A : Type} (l : list A) (js : list nat) : option (list A) :=
  mapM (fun j => l !! j) js.

(** The same for every example of a batch, with its own positions. *)
Definition at_positions_rows {A : Type} (rows : list (list A))
    (positions : list (list nat)) : option (list (list A)) :=
  mapM (fun e : list A * list nat => at_positions (fst e) (snd e))
       (zip rows positions).

End Identities.

(** The coverage and the coverage loss of a run hold no negative value. *)
Definition coverage_nonneg (acc : Decoder.loop_state) : Prop :=
  (forall cov, Decoder.coverage (Decoder.ls_state acc) = Some cov ->
               Forall (Forall (fun c => 0 <= c)%R) cov) /\
  (forall cl, Decoder.coverage_loss acc = Some cl -> Forall (fun x => 0 <= x)%R cl).

(** * Facts *)

Module Int64Facts.

Lemma wrap64_id z : int64 z -> wrap64 z = z.
Proof.
  unfold int64, wrap64. intros Hz.
  rewrite Z.mod_small by lia. lia.
Qed.

Lemma wrap64_range z : int64 (wrap64 z).
Proof.
  unfold int64, wrap64.
  pose proof (Z.mod_pos_bound (z + 2 ^ 63) (2 ^ 64) ltac:(lia)). lia.
Qed.

(** Remove the wrap-arounds of a goal, innermost first, where [lia] bounds
    the operand. *)
Ltac no_wrap :=
  repeat match goal with
         | |- context [wrap64 ?z] =>
             lazymatch z with
             | context [wrap64 _] => fail
             | _ => rewrite (wrap64_id z) by (unfold int64; lia)
             end
         end.


End Int64Facts.
Export Int64Facts.

(** ** [torch.unique]: the inverse indices are ranks *)

Module UniqueFacts.

Lemma elem_of_insert_unique x y u : y ∈ insert_unique x u <-> y = x \/ y ∈ u.
Proof.
  induction u as [|z u IH]; simpl.
  - rewrite list_elem_of_singleton, elem_of_nil. tauto.
  - destruct (Z.ltb_spec x z); [rewrite !elem_of_cons; tauto|].
    destruct (Z.eqb_spec x z) as [->|]; [rewrite !elem_of_cons; tauto|].
    rewrite !elem_of_cons, IH. tauto.
Qed.

Lemma elem_of_sorted_unique y r : y ∈ sorted_unique r <-> y ∈ r.
Proof.
  induction r as [|x r IH]; simpl; [done|].
  rewrite elem_of_insert_unique, elem_of_cons, IH. tauto.
Qed.

Lemma insert_unique_sorted x u :
  StronglySorted Z.lt u -> StronglySorted Z.lt (insert_unique x u).
Proof.
  induction 1 as [|z u Hu IH Hz]; simpl.
  - repeat constructor.
  - destruct (Z.ltb_spec x z).
    + constructor; [by constructor|].
      constructor; [done|]. eapply Forall_impl; [exact Hz|]. simpl. lia.
    + destruct (Z.eqb_spec x z); [by constructor|].
      constructor; [done|].
      apply Forall_forall. intros y Hy.
      apply elem_of_insert_unique in Hy as [->|Hy]; [lia|].
      by eapply Forall_forall in Hz.
Qed.

Lemma sorted_unique_sorted r : StronglySorted Z.lt (sorted_unique r).
Proof.
  induction r as [|x r IH]; simpl; [constructor|].
  by apply insert_unique_sorted.
Qed.

Lemma sorted_NoDup u : StronglySorted Z.lt u -> NoDup u.
Proof.
  induction 1 as [|z u Hu IH Hz]; constructor; [|done].
  intros Hin. eapply Forall_forall in Hz; [|exact Hin]. lia.
Qed.

Lemma position_sorted x u :
  StronglySorted Z.lt u -> x ∈ u ->
  position x u = length (filter (fun y => y < x) u).
Proof.
  induction 1 as [|z u Hu IH Hz]; intros Hin; [by apply elem_of_nil in Hin|].
  simpl. destruct (Z.eqb_spec x z) as [->|Hne].
  - rewrite filter_cons_False by lia.
    replace (filter (fun y => y < z) u) with (@nil Z); [done|].
    symmetry. clear -Hz. induction Hz as [|y u Hy _ IHz]; [done|].
    by rewrite filter_cons_False by lia.
  - apply elem_of_cons in Hin as [?|Hin]; [done|].
    eapply Forall_forall in Hz as Hzx; [|exact Hin].
    rewrite filter_cons_True by lia. simpl. by rewrite IH.
Qed.

(** The inverse index of a value of [r] is its rank among the distinct
    values of [r]. *)
Lemma position_rank x r :
  x ∈ r -> position x (sorted_unique r) = rank_sorted x r.
Proof.
  intros Hin. unfold rank_sorted.
  rewrite position_sorted;
    [| apply sorted_unique_sorted | by apply elem_of_sorted_unique].
  apply Permutation_length, NoDup_Permutation.
  - apply NoDup_filter, sorted_NoDup, sorted_unique_sorted.
  - apply NoDup_remove_dups.
  - intros y. rewrite elem_of_remove_dups, !list_elem_of_filter,
      elem_of_sorted_unique. tauto.
Qed.

Lemma unique_inverse_lookup (r : row) j x :
  r !! j = Some x -> snd (unique r) !! j = Some (Z.of_nat (rank_sorted x r)).
Proof.
  intros Hj. unfold unique. simpl.
  rewrite list_lookup_fmap, Hj. simpl.
  rewrite position_rank; [done|]. by eapply list_elem_of_lookup_2.
Qed.

Lemma rank_sorted_le x r : (rank_sorted x r <= length r)%nat.
Proof.
  unfold rank_sorted.
  etransitivity; [|apply (length_filter (fun y => y < x))].
  generalize (filter (fun y => y < x) r). intros l.
  induction l as [|y l IH]; simpl; [done|].
  destruct (decide_rel elem_of y l); simpl; lia.
Qed.


End UniqueFacts.
Import UniqueFacts.

(** ** Running store computations *)

Module StoreFacts.

Lemma bind_run {A B} (m : M A) (f : A -> M B) h a h' :
  m h = Some (a, h') -> (m ≫= f) h = f a h'.
Proof. intros Hm. unfold mbind, M_bind. rewrite Hm. reflexivity. Qed.

Lemma bind_assoc_run {A B C} (m : M A) (f : A -> M B) (g : B -> M C) h :
  ((m ≫= f) ≫= g) h = (m ≫= fun x => f x ≫= g) h.
Proof. unfold mbind, M_bind. destruct (m h) as [[a h']|]; reflexivity. Qed.

Lemma ret_run {A} (a : A) (h : heap) : (mret a : M A) h = Some (a, h).
Proof. reflexivity. Qed.

Lemma lift_run {A} (o : option A) (a : A) (h : heap) :
  o = Some a -> lift o h = Some (a, h).
Proof. intros ->. reflexivity. Qed.

(** The store is kept in the form [h0 ++ news]: [h0] is the caller's store,
    [news] the tensors created since. *)
Lemma load_old (h0 news : heap) l t :
  h0 !! l = Some t -> load l (h0 ++ news) = Some (t, h0 ++ news).
Proof.
  intros Hl. unfold load. rewrite (lookup_app_l_Some _ _ _ _ Hl). reflexivity.
Qed.

Lemma load_new (h0 news : heap) k t :
  news !! k = Some t ->
  load (length h0 + k) (h0 ++ news) = Some (t, h0 ++ news).
Proof.
  intros Hk. unfold load.
  rewrite lookup_app_r by lia.
  replace (length h0 + k - length h0)%nat with k by lia.
  rewrite Hk. reflexivity.
Qed.

Lemma new_tensor_run (h0 news : heap) t :
  new_tensor t (h0 ++ news)
  = Some ((length h0 + length news)%nat, h0 ++ (news ++ [t])).
Proof. unfold new_tensor. rewrite length_app, <- app_assoc. reflexivity. Qed.

Lemma store_row_new (h0 news : heap) k i (t : tensor) (old r : row) :
  news !! k = Some t -> t !! i = Some old -> length r = length old ->
  store_row (length h0 + k) i r (h0 ++ news)
  = Some (tt, h0 ++ <[k := <[i := r]> t]> news).
Proof.
  intros Hk Hi Hlen. unfold store_row.
  rewrite lookup_app_r by lia.
  replace (length h0 + k - length h0)%nat with k by lia.
  rewrite Hk, Hi, bool_decide_eq_true_2 by done.
  rewrite insert_app_r. reflexivity.
Qed.

(** The loop [for i in range(n): dst[i, :] = g(src[i, :])] over two created
    tensors at offsets [ks] (read) and [kd] (written), after [k] rounds. *)
Lemma for_each_rows_from (h0 : heap) (ks kd : nat) (g : row -> row)
    (a : tensor) (body : nat -> M unit) :
  ks <> kd ->
  (forall i (news : heap) (z : tensor) (r old : row),
      news !! ks = Some a -> news !! kd = Some z ->
      a !! i = Some r -> z !! i = Some old -> length (g r) = length old ->
      body i (h0 ++ news) = Some (tt, h0 ++ <[kd := <[i := g r]> z]> news)) ->
  forall (n k : nat) (news : heap) (z : tensor),
    (k + n = length a)%nat -> length z = length a ->
    (forall i r old, a !! i = Some r -> z !! i = Some old ->
                     length (g r) = length old) ->
    news !! ks = Some a ->
    news !! kd = Some ((g <$> take k a) ++ drop k z) ->
    for_each (seq k n) body (h0 ++ news)
    = Some (tt, h0 ++ <[kd := g <$> a]> news).
Proof.
  intros Hne Hbody n. induction n as [|n IH]; intros k news z Hk Hz Hlen Hs Hd.
  - simpl. rewrite ret_run.
    rewrite take_ge in Hd by lia. rewrite drop_ge, app_nil_r in Hd by lia.
    rewrite list_insert_id by done. reflexivity.
  - simpl.
    destruct (lookup_lt_is_Some_2 a k ltac:(lia)) as [r Hr].
    destruct (lookup_lt_is_Some_2 z k ltac:(lia)) as [old Hold].
    assert (Hcur : ((g <$> take k a) ++ drop k z) !! k = Some old).
    { rewrite lookup_app_r; rewrite length_fmap, length_take; [|lia].
      rewrite lookup_drop. rewrite <- Hold. f_equal. lia. }
    erewrite bind_run; [| eapply (Hbody k news _ r old); eauto].
    assert (Hnext : <[k := g r]> ((g <$> take k a) ++ drop k z)
                    = (g <$> take (S k) a) ++ drop (S k) z).
    { rewrite (take_S_r a k r Hr), fmap_app, <- app_assoc. simpl.
      rewrite insert_app_r_alt; rewrite length_fmap, length_take; [|lia].
      replace (k - k `min` length a)%nat with 0%nat by lia.
      rewrite (drop_S z old k Hold). reflexivity. }
    rewrite Hnext.
    erewrite (IH (S k) _ z); try done; try lia.
    + rewrite list_insert_insert_eq. reflexivity.
    + rewrite list_lookup_insert_ne by done. exact Hs.
    + rewrite list_lookup_insert_eq; [done|]. by eapply lookup_lt_Some.
Qed.

(** The in-place loop [for i in range(n): t[i, :] = g(t[i, :])]. *)
Lemma for_each_inplace_from (h0 : heap) (kd : nat) (g : row -> row)
    (a : tensor) (body : nat -> M unit) :
  (forall i (news : heap) (z : tensor) (r : row),
      news !! kd = Some z -> z !! i = Some r -> r ∈ a ->
      body i (h0 ++ news) = Some (tt, h0 ++ <[kd := <[i := g r]> z]> news)) ->
  forall (n k : nat) (news : heap),
    (k + n = length a)%nat ->
    news !! kd = Some ((g <$> take k a) ++ drop k a) ->
    for_each (seq k n) body (h0 ++ news)
    = Some (tt, h0 ++ <[kd := g <$> a]> news).
Proof.
  intros Hbody n. induction n as [|n IH]; intros k news Hk Hd.
  - simpl. rewrite ret_run.
    rewrite take_ge in Hd by lia. rewrite drop_ge, app_nil_r in Hd by lia.
    rewrite list_insert_id by done. reflexivity.
  - simpl.
    destruct (lookup_lt_is_Some_2 a k ltac:(lia)) as [r Hr].
    assert (Hcur : ((g <$> take k a) ++ drop k a) !! k = Some r).
    { rewrite lookup_app_r; rewrite length_fmap, length_take; [|lia].
      rewrite lookup_drop. rewrite <- Hr. f_equal. lia. }
    erewrite bind_run; [| eapply (Hbody k news _ r); eauto].
    2:{ eapply list_elem_of_lookup_2; eauto. }
    assert (Hnext : <[k := g r]> ((g <$> take k a) ++ drop k a)
                    = (g <$> take (S k) a) ++ drop (S k) a).
    { rewrite (take_S_r a k r Hr), fmap_app, <- app_assoc. simpl.
      rewrite insert_app_r_alt; rewrite length_fmap, length_take; [|lia].
      replace (k - k `min` length a)%nat with 0%nat by lia.
      rewrite (drop_S a r k Hr). reflexivity. }
    rewrite Hnext.
    erewrite (IH (S k)); try done; try lia.
    + rewrite list_insert_insert_eq. reflexivity.
    + rewrite list_lookup_insert_eq; [done|]. by eapply lookup_lt_Some.
Qed.

End StoreFacts.
Import StoreFacts.

(** ** Shapes and rows of [_prepare] *)

Module PrepareRows.

Section WithModel.
Variable self : PointerGeneratorNetwork.

Abbreviation V := (_target_vocab_size self).
Abbreviation unk := (_target_unk_index self).
#[local] Abbreviation is_unk_row := (PrepareSpec.is_unk_row self).
#[local] Abbreviation unk_only_row := (PrepareSpec.unk_only_row self).
#[local] Abbreviation unk_token_nums_row := (PrepareSpec.unk_token_nums_row self).
#[local] Abbreviation extend_row := (PrepareSpec.extend_row self).
#[local] Abbreviation collapsed := (PrepareSpec.collapsed self).
#[local] Abbreviation masked_ids := (PrepareSpec.masked_ids self).

Lemma shape_eq_long c t : shape (eq_long c t) = shape t.
Proof.
  unfold shape, eq_long. rewrite <- list_fmap_compose.
  apply list_fmap_ext. intros _ r _. simpl. by rewrite length_fmap.
Qed.

Lemma shape_zip_with (f : Z -> Z -> Z) (a b : tensor) :
  shape a = shape b -> shape (zip_with (zip_with f) a b) = shape a.
Proof.
  unfold shape. revert b. induction a as [|r a IH]; intros [|r' b]; simpl; try done.
  intros [= Hr Hab]. rewrite length_zip_with. f_equal; [lia|]. by apply IH.
Qed.

Lemma ew2_run (f : Z -> Z -> Z) (a b : tensor) :
  shape a = shape b -> ew2 f a b = Some (zip_with (zip_with f) a b).
Proof.
  intros Hs. unfold ew2, same_shape. by rewrite bool_decide_eq_true_2.
Qed.

Lemma shape_rect n t : rect n t -> shape t = replicate (length t) n.
Proof.
  unfold shape, rect. induction 1 as [|r t Hr _ IH]; simpl; [done|].
  rewrite Hr. f_equal. apply IH.
Qed.

Lemma shape_cat (a b : tensor) :
  length a = length b ->
  shape (zip_with app a b) = zip_with Nat.add (shape a) (shape b).
Proof.
  unfold shape. revert b. induction a as [|r a IH]; intros [|r' b]; simpl; try done.
  intros [= Hab]. rewrite length_app. f_equal. by apply IH.
Qed.

Lemma extend_rows (tokens ids : tensor) :
  zip_with (zip_with add64)
    (zip_with (zip_with add64)
       (zip_with (zip_with sub64) tokens
          (zip_with (zip_with mul64) tokens (eq_long unk tokens)))
       (scalar_mul (V - 1) (eq_long unk tokens)))
    ((fun r : row => snd (unique r))
       <$> zip_with (zip_with mul64) ids (eq_long unk tokens))
  = zip_with extend_row tokens ids.
Proof.
  revert ids. induction tokens as [|r tokens IH]; intros [|i ids]; simpl; try done.
  rewrite <- IH. reflexivity.
Qed.

Lemma shape_lookup (t : tensor) n w i r :
  shape t = replicate n w -> t !! i = Some r -> length r = w.
Proof.
  unfold shape. intros Hs Hi.
  assert (H : (length <$> t) !! i = Some (length r)) by (by rewrite list_lookup_fmap, Hi).
  rewrite Hs in H. apply lookup_replicate in H as [-> _]. reflexivity.
Qed.

Lemma shape_length (t : tensor) n w : shape t = replicate n w -> length t = n.
Proof.
  unfold shape. intros Hs. apply (f_equal length) in Hs.
  by rewrite length_fmap, length_replicate in Hs.
Qed.

Lemma shape_size1 (t : tensor) n w :
  shape t = replicate n w -> (0 < n)%nat -> size1 t = w.
Proof.
  destruct t as [|r t]; destruct n as [|n]; simpl; try done; try lia.
  by intros [= -> _] _.
Qed.

Lemma shape_fmap (g : row -> row) (t : tensor) :
  (forall r, length (g r) = length r) -> shape (g <$> t) = shape t.
Proof.
  intros Hg. unfold shape. rewrite <- list_fmap_compose.
  apply list_fmap_ext. intros _ r _. simpl. apply Hg.
Qed.

Lemma shape_new_zeros n m : shape (new_zeros n m) = replicate n m.
Proof.
  unfold shape, new_zeros. induction n as [|n IH]; simpl; [done|].
  rewrite length_replicate. f_equal. apply IH.
Qed.

Lemma shape_cat_rect (a b : tensor) n wa wb :
  shape a = replicate n wa -> shape b = replicate n wb ->
  shape (zip_with app a b) = replicate n (wa + wb)%nat.
Proof.
  intros Ha Hb. rewrite shape_cat, Ha, Hb.
  - clear. induction n as [|n IH]; simpl; [done|]. f_equal. apply IH.
  - by rewrite (shape_length _ _ _ Ha), (shape_length _ _ _ Hb).
Qed.

Lemma length_unique_inverse (r : row) : length (snd (unique r)) = length r.
Proof. unfold unique. simpl. apply length_fmap. Qed.

Lemma length_extend_row (tokens ids : row) :
  length ids = length tokens -> length (extend_row tokens ids) = length tokens.
Proof.
  intros Hl. unfold extend_row, unk_token_nums_row, unk_only_row, is_unk_row.
  rewrite !length_zip_with, length_unique_inverse, !length_zip_with,
    !length_fmap. lia.
Qed.

Lemma shape_extend (tokens ids : tensor) :
  shape ids = shape tokens -> shape (zip_with extend_row tokens ids) = shape tokens.
Proof.
  unfold shape. revert ids.
  induction tokens as [|r tokens IH]; intros [|i ids]; simpl; try done.
  intros [= Hr Hs]. rewrite length_extend_row by done. f_equal. by apply IH.
Qed.

Lemma collapse_row_run (S : nat) (r : row) :
  (0 < S)%nat -> (0 < length r)%nat ->
  Prepare.collapse_row self S r = Some (collapsed S r).
Proof.
  intros HS Hr. unfold collapsed, Prepare.collapse_row.
  destruct r as [|x r]; [simpl in Hr; lia|].
  destruct S as [|S]; [lia|]. reflexivity.
Qed.

Lemma length_collapsed (S : nat) (r : row) : length (collapsed S r) = length r.
Proof.
  unfold collapsed, Prepare.collapse_row.
  destruct (max_row (take S r)); simpl; [|done].
  unfold gt_long. rewrite !length_zip_with, !length_fmap. lia.
Qed.

Lemma max_all_is_Some (t : tensor) n w :
  shape t = replicate n w -> (0 < n)%nat -> (0 < w)%nat -> is_Some (max_all t).
Proof.
  destruct t as [|r t]; destruct n as [|n]; simpl; try done; try lia.
  intros [= Hr _] _ Hw. destruct r as [|x r]; [simpl in Hr; lia|].
  unfold max_all. simpl. eauto.
Qed.

Lemma shape_slice_cols (t : tensor) n w k :
  shape t = replicate n w -> (k <= w)%nat -> shape (slice_cols 0 k t) = replicate n k.
Proof.
  intros Hs Hk. unfold slice_cols.
  assert (Hlen : Forall (fun r => length r = w) t).
  { apply Forall_lookup. intros i r Hi. eapply shape_lookup; eauto. }
  rewrite <- (shape_length _ _ _ Hs). clear Hs. unfold shape.
  induction Hlen as [|r t Hr _ IH]; simpl; [done|].
  rewrite length_take, length_drop. f_equal; [lia | apply IH].
Qed.

(** *** The rewritten entries, position by position *)

Lemma unk_only_masked (tokens ids : row) :
  Forall int64 ids -> unk_only_row tokens ids = masked_ids tokens ids.
Proof.
  unfold unk_only_row, masked_ids, is_unk_row. intros Hids. revert tokens.
  induction Hids as [|d ids Hd _ IH]; intros [|t tokens]; simpl; try done.
  rewrite IH. f_equal. unfold mul64.
  destruct (t =? unk); rewrite wrap64_id; unfold int64 in *; lia.
Qed.


Lemma masked_ids_lookup (tokens ids : row) j t d :
  tokens !! j = Some t -> ids !! j = Some d ->
  masked_ids tokens ids !! j = Some (if t =? unk then d else 0).
Proof.
  intros Ht Hd. unfold masked_ids. by rewrite lookup_zip_with, Ht, Hd.
Qed.

Lemma extend_row_lookup (tokens ids : row) j t d :
  Forall int64 ids -> small t -> small (V - 1) ->
  Z.of_nat (length tokens) < 2 ^ 62 ->
  tokens !! j = Some t -> ids !! j = Some d ->
  extend_row tokens ids !! j
  = Some ((if t =? unk then V - 1 else t)
          + Z.of_nat (rank_sorted (if t =? unk then d else 0)
                        (masked_ids tokens ids))).
Proof.
  intros Hids Ht HV Hlen Hj Hd.
  unfold extend_row, unk_token_nums_row. rewrite unk_only_masked by done.
  pose proof (rank_sorted_le (if t =? unk then d else 0) (masked_ids tokens ids)) as Hle.
  assert (length (masked_ids tokens ids) <= length tokens)%nat.
  { unfold masked_ids. rewrite length_zip_with. lia. }
  rewrite !lookup_zip_with, Hj. unfold is_unk_row.
  rewrite !list_lookup_fmap, Hj.
  rewrite (unique_inverse_lookup _ j _ (masked_ids_lookup _ _ _ _ _ Hj Hd)).
  simpl. f_equal.
  unfold add64, sub64, mul64, small in *.
  destruct (t =? unk); no_wrap; lia.
Qed.

(** *** [torch.max] of a row *)

Lemma max_row_spec (r : row) m :
  max_row r = Some m -> m ∈ r /\ Forall (fun x => x <= m) r.
Proof.
  destruct r as [|x r]; [done|]. simpl. intros [= <-].
  induction r as [|y r [IHin IHle]]; simpl.
  - split; [apply list_elem_of_here | repeat constructor; lia].
  - split.
    + destruct (Z.max_spec y (foldr Z.max x r)) as [[_ ->]|[_ ->]].
      * apply elem_of_cons in IHin as [->|?];
          [apply list_elem_of_here | do 2 apply list_elem_of_further; done].
      * apply list_elem_of_further, list_elem_of_here.
    + apply Forall_cons in IHle as [Hx Hr].
      repeat constructor; try lia.
      eapply Forall_impl; [exact Hr|]. simpl. lia.
Qed.

Lemma collapsed_lookup (S : nat) (r : row) j x m :
  max_row (take S r) = Some m -> r !! j = Some x ->
  int64 x -> int64 unk ->
  collapsed S r !! j = Some (if Z.max (V - 1) m <? x then unk else x).
Proof.
  intros Hm Hj Hx Hunk. unfold collapsed, Prepare.collapse_row.
  rewrite Hm. simpl. unfold gt_long.
  rewrite !lookup_zip_with, !list_lookup_fmap, Hj. simpl. f_equal.
  unfold add64, sub64, mul64, int64 in *.
  destruct (Z.max (V - 1) m <? x); no_wrap; lia.
Qed.

End WithModel.

End PrepareRows.

(** ** Running [_prepare] on a well-formed batch *)

Module PrepareRun.
Import PrepareRows.

Section WithModel.
Variable self : PointerGeneratorNetwork.

Abbreviation V := (_target_vocab_size self).
Abbreviation unk := (_target_unk_index self).

Ltac run_with lem :=
  repeat rewrite bind_assoc_run;
  erewrite bind_run; [| solve [lem]]; cbn beta iota.
Ltac run_load :=
  run_with ltac:(first [ eapply load_new; reflexivity
                       | eapply load_new; eassumption
                       | eapply load_old; eassumption ]).
Ltac run_new :=
  run_with ltac:(apply new_tensor_run); cbn [length app Nat.add].
Ltac run_lift lem := run_with ltac:(eapply lift_run; lem).

Lemma prepare_training_run (h0 : heap) (s si t ti : loc) B S T src sids tgt tids :
  h0 !! s = Some src -> h0 !! si = Some sids ->
  h0 !! t = Some tgt -> h0 !! ti = Some tids ->
  batch_ok B S T src sids tgt tids ->
  let tokens := zip_with app src tgt in
  let ids := zip_with app sids tids in
  let nums := zip_with (unk_token_nums_row self) tokens ids in
  exists count,
    max_all (slice_cols 0 S nums) = Some count /\
    Prepare._prepare self s si (Some (t, ti)) h0
    = Some ({| Prepare.extra_zeros := (B, Z.to_nat count);
               Prepare.modified_source_tokens := View (length h0 + 5)%nat 0 S;
               Prepare.modified_target_tokens :=
                 Some (View (length h0 + 5)%nat S (S + T)%nat) |},
            h0 ++ [tokens; ids; eq_long unk tokens;
                   zip_with (zip_with mul64) ids (eq_long unk tokens); nums;
                   collapsed self S <$> zip_with (extend_row self) tokens ids]).
Proof.
  intros Hs Hsi Ht Hti [HB HS Hsrc Hsids Htgt Htids] tokens ids nums.
  assert (Htok : shape tokens = replicate B (S + T)%nat) by (by apply shape_cat_rect).
  assert (Hids : shape ids = replicate B (S + T)%nat) by (by apply shape_cat_rect).
  assert (Hunk : shape (eq_long unk tokens) = replicate B (S + T)%nat)
    by (by rewrite shape_eq_long).
  set (unk_only := zip_with (zip_with mul64) ids (eq_long unk tokens)).
  assert (Honly : shape unk_only = replicate B (S + T)%nat).
  { unfold unk_only. rewrite shape_zip_with; congruence. }
  assert (Hnums_eq : nums = (fun r : row => snd (unique r)) <$> unk_only).
  { unfold nums, unk_only, unk_token_nums_row, unk_only_row. clear.
    generalize tokens ids. intros a. induction a as [|r a IH]; intros [|i b];
      simpl; try done. f_equal. apply IH. }
  assert (Hnums : shape nums = replicate B (S + T)%nat).
  { rewrite Hnums_eq, shape_fmap; [done|]. apply length_unique_inverse. }
  assert (Hext : shape (zip_with (extend_row self) tokens ids) = replicate B (S + T)%nat).
  { rewrite shape_extend; congruence. }
  destruct (max_all_is_Some (slice_cols 0 S nums) B S) as [count Hcount];
    [apply (shape_slice_cols _ _ (S + T)%nat); [done | lia] | done | done |].
  exists count. split; [exact Hcount|].
  rewrite <- (app_nil_r h0) at 1.
  unfold Prepare._prepare.
  run_load. run_load. run_load.
  run_lift ltac:(unfold cat1; rewrite bool_decide_eq_true_2;
    [reflexivity | by rewrite (shape_length _ _ _ Hsrc), (shape_length _ _ _ Htgt)]).
  run_new. run_load. run_load.
  run_lift ltac:(unfold cat1; rewrite bool_decide_eq_true_2;
    [reflexivity | by rewrite (shape_length _ _ _ Hsids), (shape_length _ _ _ Htids)]).
  run_new. run_with ltac:(apply ret_run).
  run_load. run_new. run_load. run_load.
  run_lift ltac:(apply ew2_run; fold tokens ids; congruence).
  run_new. run_load. run_new.
  fold tokens ids unk_only.
  rewrite (shape_size1 ids B (S + T)%nat Hids HB).
  unfold size0. rewrite (shape_length _ _ _ Hsrc).
  erewrite bind_run.
  2:{ eapply (for_each_rows_from h0 3 4 (fun r => snd (unique r)) unk_only)
        with (z := new_zeros B (S + T)%nat); try done.
      - intros i news z r old Hks Hkd Hai Hzi Hlen.
        run_load. run_lift ltac:(eassumption).
        eapply store_row_new; eauto.
      - by rewrite (shape_length _ _ _ Honly).
      - rewrite (shape_length _ _ _ Honly). unfold new_zeros.
        by rewrite length_replicate.
      - intros i r old Hr Hold. rewrite length_unique_inverse.
        rewrite (shape_lookup _ _ _ _ _ Honly Hr).
        symmetry. eapply shape_lookup; [apply shape_new_zeros | exact Hold]. }
  cbn beta iota. cbn [list_insert insert].
  rewrite <- Hnums_eq.
  run_load. run_load. run_load.
  assert (Hmul : shape (zip_with (zip_with mul64) tokens (eq_long unk tokens))
                 = replicate B (S + T)%nat)
    by (rewrite shape_zip_with; congruence).
  assert (Hsub : shape (zip_with (zip_with sub64) tokens
                          (zip_with (zip_with mul64) tokens (eq_long unk tokens)))
                 = replicate B (S + T)%nat)
    by (rewrite shape_zip_with; congruence).
  assert (Hsc : shape (scalar_mul (V - 1) (eq_long unk tokens))
                = replicate B (S + T)%nat).
  { unfold scalar_mul. rewrite shape_fmap; [done|]. intros; apply length_fmap. }
  run_lift ltac:(unfold Prepare.extend_tokens; simpl;
    rewrite (ew2_run mul64) by congruence; simpl;
    rewrite (ew2_run sub64) by congruence; simpl;
    rewrite (ew2_run add64) by congruence; simpl;
    rewrite (ew2_run add64) by (rewrite shape_zip_with; congruence);
    rewrite Hnums_eq; unfold unk_only; rewrite extend_rows; reflexivity).
  run_new.
  rewrite (shape_size1 src B S Hsrc HB).
  repeat rewrite bind_assoc_run. erewrite bind_run.
  2:{ eapply (for_each_inplace_from h0 5 (collapsed self S)
                (zip_with (extend_row self) tokens ids)); try done.
      - intros i news z r Hkd Hzi Hin.
        run_load. run_lift ltac:(eassumption).
        run_lift ltac:(apply collapse_row_run; [done|];
          apply list_elem_of_lookup in Hin as [j Hj];
          rewrite (shape_lookup _ _ _ _ _ Hext Hj); lia).
        eapply store_row_new; eauto. apply length_collapsed.
      - by rewrite (shape_length _ _ _ Hext). }
  cbn beta iota. cbn [list_insert insert].
  run_load.
  rewrite (shape_size1 _ B (S + T)%nat);
    [| by rewrite shape_fmap; [|apply length_collapsed] | done].
  run_with ltac:(apply ret_run).
  run_load. run_lift ltac:(exact Hcount).
  reflexivity.
Qed.


Lemma prepare_inference_run (h0 : heap) (s si : loc) B S src sids :
  h0 !! s = Some src -> h0 !! si = Some sids ->
  (0 < B)%nat -> (0 < S)%nat ->
  shape src = replicate B S -> shape sids = replicate B S ->
  let nums := zip_with (unk_token_nums_row self) src sids in
  exists count,
    max_all (slice_cols 0 S nums) = Some count /\
    Prepare._prepare self s si None h0
    = Some ({| Prepare.extra_zeros := (B, Z.to_nat count);
               Prepare.modified_source_tokens := View (length h0 + 3)%nat 0 S;
               Prepare.modified_target_tokens := None |},
            h0 ++ [eq_long unk src;
                   zip_with (zip_with mul64) sids (eq_long unk src); nums;
                   zip_with (extend_row self) src sids]).
Proof.
  intros Hs Hsi HB HS Hsrc Hsids nums.
  assert (Hunk : shape (eq_long unk src) = replicate B S)
    by (by rewrite shape_eq_long).
  set (unk_only := zip_with (zip_with mul64) sids (eq_long unk src)).
  assert (Honly : shape unk_only = replicate B S).
  { unfold unk_only. rewrite shape_zip_with; congruence. }
  assert (Hnums_eq : nums = (fun r : row => snd (unique r)) <$> unk_only).
  { unfold nums, unk_only, unk_token_nums_row, unk_only_row. clear.
    generalize src sids. intros a. induction a as [|r a IH]; intros [|i b];
      simpl; try done. f_equal. apply IH. }
  assert (Hnums : shape nums = replicate B S).
  { rewrite Hnums_eq, shape_fmap; [done|]. apply length_unique_inverse. }
  assert (Hext : shape (zip_with (extend_row self) src sids) = replicate B S).
  { rewrite shape_extend; congruence. }
  destruct (max_all_is_Some (slice_cols 0 S nums) B S) as [count Hcount];
    [apply (shape_slice_cols _ _ S); [done | lia] | done | done |].
  exists count. split; [exact Hcount|].
  rewrite <- (app_nil_r h0) at 1.
  unfold Prepare._prepare.
  run_load. run_with ltac:(apply ret_run).
  run_load. run_new. run_load. run_load.
  run_lift ltac:(apply ew2_run; congruence).
  run_new. run_load. run_new.
  fold unk_only.
  rewrite (shape_size1 sids B S Hsids HB).
  unfold size0. rewrite (shape_length _ _ _ Hsrc).
  erewrite bind_run.
  2:{ eapply (for_each_rows_from h0 1 2 (fun r => snd (unique r)) unk_only)
        with (z := new_zeros B S); try done.
      - intros i news z r old Hks Hkd Hai Hzi Hlen.
        run_load. run_lift ltac:(eassumption).
        eapply store_row_new; eauto.
      - by rewrite (shape_length _ _ _ Honly).
      - rewrite (shape_length _ _ _ Honly). unfold new_zeros.
        by rewrite length_replicate.
      - intros i r old Hr Hold. rewrite length_unique_inverse.
        rewrite (shape_lookup _ _ _ _ _ Honly Hr).
        symmetry. eapply shape_lookup; [apply shape_new_zeros | exact Hold]. }
  cbn beta iota. cbn [list_insert insert].
  rewrite <- Hnums_eq.
  run_load. run_load. run_load.
  assert (Hmul : shape (zip_with (zip_with mul64) src (eq_long unk src))
                 = replicate B S)
    by (rewrite shape_zip_with; congruence).
  assert (Hsub : shape (zip_with (zip_with sub64) src
                          (zip_with (zip_with mul64) src (eq_long unk src)))
                 = replicate B S)
    by (rewrite shape_zip_with; congruence).
  assert (Hsc : shape (scalar_mul (V - 1) (eq_long unk src)) = replicate B S).
  { unfold scalar_mul. rewrite shape_fmap; [done|]. intros; apply length_fmap. }
  run_lift ltac:(unfold Prepare.extend_tokens; simpl;
    rewrite (ew2_run mul64) by congruence; simpl;
    rewrite (ew2_run sub64) by congruence; simpl;
    rewrite (ew2_run add64) by congruence; simpl;
    rewrite (ew2_run add64) by (rewrite shape_zip_with; congruence);
    rewrite Hnums_eq; unfold unk_only; rewrite extend_rows; reflexivity).
  run_new.
  rewrite (shape_size1 src B S Hsrc HB).
  run_load.
  rewrite (shape_size1 _ B S Hext HB).
  run_with ltac:(apply ret_run).
  run_load. run_lift ltac:(exact Hcount).
  reflexivity.
Qed.

(** *** Both modes at once *)

Lemma slice_cols_full (t : tensor) n w :
  shape t = replicate n w -> slice_cols 0 w t = t.
Proof.
  intros Hs. unfold slice_cols.
  rewrite <- (list_fmap_id t) at 2. apply list_fmap_ext.
  intros i r Hi. simpl. rewrite drop_0, take_ge; [done|].
  rewrite (shape_lookup _ _ _ _ _ Hs Hi). lia.
Qed.

Lemma prepare_run (h0 : heap) (s si : loc) target tv B S T src sids :
  h0 !! s = Some src -> h0 !! si = Some sids -> stored h0 target tv ->
  well_formed B S T src sids tv ->
  exists out news count,
    Prepare._prepare self s si target h0 = Some (out, h0 ++ news) /\
    max_all (slice_cols 0 S
               (zip_with (unk_token_nums_row self)
                  (all_tokens src tv) (all_ids sids tv))) = Some count /\
    Prepare.extra_zeros out = (B, Z.to_nat count) /\
    read_view (h0 ++ news) (Prepare.modified_source_tokens out)
    = Some (slice_cols 0 S (final_tokens self S src sids tv)) /\
    read_target (h0 ++ news) out
    = match tv with
      | Some _ => Some (slice_cols S (S + T) (final_tokens self S src sids tv))
      | None => None
      end /\
    (tv = None -> Prepare.modified_target_tokens out = None) /\
    shape (final_tokens self S src sids tv) = replicate B (S + T)%nat.
Proof.
  intros Hs Hsi Hst [HB HS Hsrc Hsids Htv].
  destruct target as [[t ti]|], tv as [[tgt tids]|]; simpl in Hst; try done.
  - destruct Hst as [Ht Hti], Htv as [Htgt Htids].
    destruct (prepare_training_run h0 s si t ti B S T src sids tgt tids)
      as (count & Hcount & Hrun); try done.
    eexists _, _, count. split; [exact Hrun|].
    split; [exact Hcount|]. split; [done|].
    assert (Hfin : shape (final_tokens self S src sids (Some (tgt, tids)))
                   = replicate B (S + T)%nat).
    { unfold final_tokens, extended. simpl.
      rewrite shape_fmap by apply length_collapsed.
      rewrite shape_extend; rewrite !(shape_cat_rect _ _ B S T); done. }
    unfold read_view, read_target. simpl. unfold read_view. simpl.
    rewrite !lookup_app_r by lia.
    replace (length h0 + 5 - length h0)%nat with 5%nat by lia. simpl.
    done.
  - subst T.
    destruct (prepare_inference_run h0 s si B S src sids)
      as (count & Hcount & Hrun); try done.
    eexists _, _, count. split; [exact Hrun|].
    split; [exact Hcount|]. split; [done|].
    assert (Hfin : shape (final_tokens self S src sids None) = replicate B (S + 0)%nat).
    { unfold final_tokens, extended. simpl.
      rewrite shape_extend, Nat.add_0_r; congruence. }
    unfold read_view, read_target. simpl.
    rewrite !lookup_app_r by lia.
    replace (length h0 + 3 - length h0)%nat with 3%nat by lia. simpl.
    done.
Qed.

End WithModel.

End PrepareRun.

(** ** The entries of the tensors returned by [_prepare] *)

Module PrepareEntries.
Import PrepareRows PrepareRun.

Section WithModel.
Variable self : PointerGeneratorNetwork.

Abbreviation V := (_target_vocab_size self).
Abbreviation unk := (_target_unk_index self).

Lemma at2_lookup (t : tensor) i j r :
  t !! i = Some r -> at2 t i j = r !! j.
Proof. intros Hi. unfold at2. by rewrite Hi. Qed.

Lemma at2_slice_cols (lo hi : nat) (t : tensor) i j :
  (lo + j < hi)%nat -> at2 (slice_cols lo hi t) i j = at2 t i (lo + j).
Proof.
  intros Hj. unfold at2, slice_cols. rewrite list_lookup_fmap.
  destruct (t !! i) as [r|]; simpl; [|done].
  rewrite lookup_take_lt by lia. apply lookup_drop.
Qed.

Lemma all_lookup_shape (src sids : tensor) tv B S T i :
  well_formed B S T src sids tv -> (i < B)%nat ->
  exists trow irow,
    all_tokens src tv !! i = Some trow /\ all_ids sids tv !! i = Some irow /\
    length trow = (S + T)%nat /\ length irow = (S + T)%nat.
Proof.
  intros [HB HS Hsrc Hsids Htv] Hi.
  assert (Ht : shape (all_tokens src tv) = replicate B (S + T)%nat).
  { destruct tv as [[tgt tids]|]; simpl.
    - destruct Htv. by apply shape_cat_rect.
    - subst T. by rewrite Nat.add_0_r. }
  assert (Hd : shape (all_ids sids tv) = replicate B (S + T)%nat).
  { destruct tv as [[tgt tids]|]; simpl.
    - destruct Htv. by apply shape_cat_rect.
    - subst T. by rewrite Nat.add_0_r. }
  destruct (lookup_lt_is_Some_2 (all_tokens src tv) i) as [trow Htrow];
    [by rewrite (shape_length _ _ _ Ht)|].
  destruct (lookup_lt_is_Some_2 (all_ids sids tv) i) as [irow Hirow];
    [by rewrite (shape_length _ _ _ Hd)|].
  exists trow, irow. repeat split; try done.
  - exact (shape_lookup _ _ _ _ _ Ht Htrow).
  - exact (shape_lookup _ _ _ _ _ Hd Hirow).
Qed.

(** Every entry of [tokens] after line 122. *)
Lemma extended_lookup (src sids : tensor) tv i j trow irow t d :
  in_range self (all_tokens src tv) (all_ids sids tv) ->
  all_tokens src tv !! i = Some trow -> all_ids sids tv !! i = Some irow ->
  trow !! j = Some t -> irow !! j = Some d ->
  at2 (extended self src sids tv) i j
  = Some ((if t =? unk then V - 1 else t)
          + Z.of_nat (rank_sorted (if t =? unk then d else 0)
                        (masked_ids self trow irow))).
Proof.
  intros [HV Hunk Htok Hids Hw] Htrow Hirow Ht Hd.
  unfold at2, extended. rewrite lookup_zip_with, Htrow, Hirow. simpl.
  apply extend_row_lookup; try done.
  - eapply Forall_lookup_1 in Hids; eauto.
  - eapply Forall_lookup_1 in Htok; [|exact Htrow].
    eapply Forall_lookup_1 in Htok; eauto.
  - eapply Forall_lookup_1 in Hw; [|exact Htrow]. done.
Qed.

Lemma extended_int64 (src sids : tensor) tv i j x :
  in_range self (all_tokens src tv) (all_ids sids tv) ->
  shape (all_ids sids tv) = shape (all_tokens src tv) ->
  at2 (extended self src sids tv) i j = Some x -> int64 x.
Proof.
  intros Hr Hsh Hx.
  unfold at2, extended in Hx. rewrite lookup_zip_with in Hx.
  destruct (all_tokens src tv !! i) as [trow|] eqn:Htrow; [|done].
  destruct (all_ids sids tv !! i) as [irow|] eqn:Hirow; [|done].
  simpl in Hx.
  assert (Hlen : length irow = length trow).
  { assert (Ha : shape (all_ids sids tv) !! i = Some (length irow))
      by (unfold shape; by rewrite list_lookup_fmap, Hirow).
    rewrite Hsh in Ha. unfold shape in Ha.
    rewrite list_lookup_fmap, Htrow in Ha. by injection Ha. }
  assert (Hj : (j < length trow)%nat).
  { apply lookup_lt_Some in Hx. by rewrite length_extend_row in Hx. }
  destruct (lookup_lt_is_Some_2 trow j Hj) as [t Ht].
  destruct (lookup_lt_is_Some_2 irow j ltac:(lia)) as [d Hd].
  pose proof (extended_lookup src sids tv i j trow irow t d Hr Htrow Hirow Ht Hd) as He.
  unfold at2, extended in He. rewrite lookup_zip_with, Htrow, Hirow in He.
  simpl in He. rewrite He in Hx. injection Hx as <-.
  destruct Hr as [HV Hunk Htok Hids Hw].
  eapply Forall_lookup_1 in Hw; [|exact Htrow]. simpl in Hw.
  eapply Forall_lookup_1 in Htok; [|exact Htrow].
  eapply Forall_lookup_1 in Htok; [|exact Ht].
  pose proof (rank_sorted_le (if t =? unk then d else 0) (masked_ids self trow irow)).
  assert (length (masked_ids self trow irow) <= length trow)%nat.
  { unfold masked_ids. rewrite length_zip_with. lia. }
  unfold int64, small in *. destruct (t =? unk); lia.
Qed.

(** Every entry of [tokens] when [_prepare] returns, in training. *)
Lemma final_lookup_training (S : nat) (src sids : tensor) tgt tids i j erow x m :
  int64 unk -> int64 x ->
  extended self src sids (Some (tgt, tids)) !! i = Some erow ->
  max_row (take S erow) = Some m -> erow !! j = Some x ->
  at2 (final_tokens self S src sids (Some (tgt, tids))) i j
  = Some (if Z.max (V - 1) m <? x then unk else x).
Proof.
  intros Hunk Hx Hrow Hm Hj. unfold at2, final_tokens.
  rewrite list_lookup_fmap, Hrow. simpl.
  by apply collapsed_lookup.
Qed.

(** A value that occurs in the source span of its row is never collapsed. *)
Lemma final_kept (S : nat) (src sids : tensor) tv i j0 j erow x :
  int64 unk -> int64 x ->
  extended self src sids tv !! i = Some erow ->
  (j0 < S)%nat -> erow !! j0 = Some x -> erow !! j = Some x ->
  at2 (final_tokens self S src sids tv) i j = Some x.
Proof.
  intros Hunk Hx Hrow Hj0 Hx0 Hj.
  destruct tv as [[tgt tids]|]; [|unfold at2, final_tokens; by rewrite Hrow].
  assert (Hin : x ∈ take S erow).
  { apply (list_elem_of_lookup_2 _ j0). by rewrite lookup_take_lt. }
  destruct (max_row (take S erow)) as [m|] eqn:Hm.
  2:{ destruct (take S erow) eqn:E; [by apply elem_of_nil in Hin | done]. }
  rewrite (final_lookup_training S src sids tgt tids i j erow x m) by done.
  apply max_row_spec in Hm as [_ Hle].
  eapply Forall_forall in Hle; [|exact Hin].
  destruct (Z.ltb_spec (Z.max (V - 1) m) x); [lia|done].
Qed.

Lemma all_tokens_source (src : tensor) tv i j trow t :
  at2 src i j = Some t -> all_tokens src tv !! i = Some trow ->
  trow !! j = Some t.
Proof.
  unfold at2. intros Hsrc Hrow.
  destruct (src !! i) as [srow|] eqn:Hs; [|done]. simpl in Hsrc.
  destruct tv as [[tgt tids]|]; simpl in Hrow; [|congruence].
  rewrite lookup_zip_with, Hs in Hrow. simpl in Hrow.
  destruct (tgt !! i) as [grow|]; [|done]. injection Hrow as <-.
  by apply lookup_app_l_Some.
Qed.

Lemma all_ids_source (sids : tensor) tv i j irow d :
  at2 sids i j = Some d -> all_ids sids tv !! i = Some irow ->
  irow !! j = Some d.
Proof.
  unfold at2. intros Hsrc Hrow.
  destruct (sids !! i) as [srow|] eqn:Hs; [|done]. simpl in Hsrc.
  destruct tv as [[tgt tids]|]; simpl in Hrow; [|congruence].
  rewrite lookup_zip_with, Hs in Hrow. simpl in Hrow.
  destruct (tids !! i) as [grow|]; [|done]. injection Hrow as <-.
  by apply lookup_app_l_Some.
Qed.

Lemma all_tokens_target (src tgt tids : tensor) B S i j trow t :
  shape src = replicate B S ->
  at2 tgt i j = Some t -> all_tokens src (Some (tgt, tids)) !! i = Some trow ->
  trow !! (S + j)%nat = Some t.
Proof.
  unfold at2. intros Hsh Htgt Hrow. simpl in Hrow.
  rewrite lookup_zip_with in Hrow.
  destruct (src !! i) as [srow|] eqn:Hs; [|done]. simpl in Hrow.
  destruct (tgt !! i) as [grow|]; [|done]. injection Hrow as <-.
  rewrite lookup_app_r; rewrite (shape_lookup _ _ _ _ _ Hsh Hs); [|lia].
  by replace (S + j - S)%nat with j by lia.
Qed.

Lemma all_ids_target (sids tgt tids : tensor) B S i j irow d :
  shape sids = replicate B S ->
  at2 tids i j = Some d -> all_ids sids (Some (tgt, tids)) !! i = Some irow ->
  irow !! (S + j)%nat = Some d.
Proof.
  unfold at2. intros Hsh Htgt Hrow. simpl in Hrow.
  rewrite lookup_zip_with in Hrow.
  destruct (sids !! i) as [srow|] eqn:Hs; [|done]. simpl in Hrow.
  destruct (tids !! i) as [grow|]; [|done]. injection Hrow as <-.
  rewrite lookup_app_r; rewrite (shape_lookup _ _ _ _ _ Hsh Hs); [|lia].
  by replace (S + j - S)%nat with j by lia.
Qed.

Lemma take_collapsed (S : nat) (r : row) :
  int64 unk -> Forall int64 r ->
  take S (collapsed self S r) = take S r.
Proof.
  intros Hunk Hr. apply list_eq. intros j.
  destruct (decide (j < S)%nat) as [Hj|Hj];
    [| by rewrite !lookup_take_ge by lia].
  rewrite !lookup_take_lt by done.
  destruct (r !! j) as [x|] eqn:Hx.
  2:{ apply lookup_ge_None. rewrite length_collapsed. by apply lookup_ge_None. }
  assert (Hin : x ∈ take S r).
  { apply (list_elem_of_lookup_2 _ j). by rewrite lookup_take_lt. }
  destruct (max_row (take S r)) as [m|] eqn:Hm.
  2:{ destruct (take S r) eqn:E; [by apply elem_of_nil in Hin | done]. }
  rewrite (collapsed_lookup self S r j x m Hm Hx); [| |done].
  2:{ eapply Forall_lookup_1 in Hr; eauto. }
  apply max_row_spec in Hm as [_ Hle].
  eapply Forall_forall in Hle; [|exact Hin].
  destruct (Z.ltb_spec (Z.max (V - 1) m) x); [lia|done].
Qed.

Lemma read_view_app (h news : heap) v x :
  read_view h v = Some x -> read_view (h ++ news) v = Some x.
Proof.
  unfold read_view. intros Hv.
  destruct (h !! base v) as [t|] eqn:Ht; [|done].
  by rewrite (lookup_app_l_Some _ _ _ _ Ht).
Qed.

Lemma at2_row (t : tensor) i j x :
  at2 t i j = Some x -> exists r, t !! i = Some r /\ r !! j = Some x.
Proof.
  unfold at2. destruct (t !! i) as [r|]; [|done]. simpl. eauto.
Qed.

Lemma all_shapes (src sids : tensor) tv B S T :
  well_formed B S T src sids tv ->
  shape (all_tokens src tv) = replicate B (S + T)%nat /\
  shape (all_ids sids tv) = replicate B (S + T)%nat.
Proof.
  intros [HB HS Hsrc Hsids Htv].
  destruct tv as [[tgt tids]|]; simpl.
  - destruct Htv. split; by apply shape_cat_rect.
  - subst T. by rewrite Nat.add_0_r.
Qed.

End WithModel.

End PrepareEntries.

(** ** [decode] *)

Module DecodeFacts.
Import Decode.

Lemma index_spec (x : Z) (l : list Z) :
  x ∈ l -> exists k, index x l = Some k /\ l !! k = Some x /\ x ∉ take k l.
Proof.
  induction l as [|y l IH]; intros Hin; [by apply elem_of_nil in Hin|].
  simpl. destruct (Z.eqb_spec x y) as [->|Hne].
  - exists 0%nat. repeat split; try done. simpl. apply not_elem_of_nil.
  - apply elem_of_cons in Hin as [?|Hin]; [done|].
    destruct (IH Hin) as (k & Hk & Hl & Hnot).
    exists (S k). rewrite Hk. repeat split; try done.
    simpl. rewrite not_elem_of_cons. done.
Qed.

(** The accumulated list of the loop of lines 347-352 over the tokens [l]. *)
Lemma append_new_elem (acc : list string) (tok w : string) :
  w ∈ append_new acc tok <-> w ∈ acc \/ w = tok.
Proof.
  unfold append_new. case_bool_decide as Hin.
  - split; [tauto|]. intros [?| ->]; done.
  - rewrite elem_of_app, list_elem_of_singleton. tauto.
Qed.

Lemma append_new_NoDup (acc : list string) (tok : string) :
  NoDup acc -> NoDup (append_new acc tok).
Proof.
  intros Hnd. unfold append_new. case_bool_decide as Hin; [done|].
  apply NoDup_app. repeat split; try done.
  - intros x Hx ->%list_elem_of_singleton. done.
  - apply NoDup_singleton.
Qed.

Lemma foldl_append_new_prefix (acc l : list string) :
  acc `prefix_of` foldl append_new acc l.
Proof.
  revert acc. induction l as [|x l IH]; intros acc; simpl; [done|].
  etransitivity; [|apply IH].
  unfold append_new. case_bool_decide; [done | by apply prefix_app_r].
Qed.

Lemma foldl_append_new_elem (acc l : list string) (w : string) :
  w ∈ foldl append_new acc l <-> w ∈ acc \/ w ∈ l.
Proof.
  revert acc. induction l as [|x l IH]; intros acc; simpl.
  - rewrite elem_of_nil. tauto.
  - rewrite IH, append_new_elem, elem_of_cons. tauto.
Qed.

Lemma foldl_append_new_NoDup (acc l : list string) :
  NoDup acc -> NoDup (foldl append_new acc l).
Proof.
  revert acc. induction l as [|x l IH]; intros acc Hnd; simpl; [done|].
  by apply IH, append_new_NoDup.
Qed.

Lemma foldl_append_new_length (l : list string) :
  length (foldl append_new [] l) = length (remove_dups l).
Proof.
  apply Permutation_length, NoDup_Permutation.
  - apply foldl_append_new_NoDup, NoDup_nil_2.
  - apply NoDup_remove_dups.
  - intros w. rewrite foldl_append_new_elem, elem_of_remove_dups, elem_of_nil.
    tauto.
Qed.

Lemma foldl_append_new_order (l : list string) :
  first_occurrence_order l (foldl append_new [] l).
Proof.
  split; [apply foldl_append_new_NoDup, NoDup_nil_2|].
  split; [intros w; rewrite foldl_append_new_elem, elem_of_nil; tauto|].
  intros i w Hi Hnot.
  set (acc := foldl append_new [] (take i l)).
  assert (Hacc : w ∉ acc).
  { unfold acc. rewrite foldl_append_new_elem, elem_of_nil. tauto. }
  assert (Hl : foldl append_new [] l
               = foldl append_new (acc ++ [w]) (drop (S i) l)).
  { rewrite <- (take_drop_middle l i w Hi) at 1.
    rewrite foldl_app. simpl. fold acc.
    unfold append_new at 2. by rewrite bool_decide_eq_false_2. }
  rewrite Hl.
  eapply prefix_lookup_Some; [|apply foldl_append_new_prefix].
  rewrite <- foldl_append_new_length. fold acc.
  by rewrite lookup_app_r, Nat.sub_diag.
Qed.

Lemma filter_ext_elem {A} (P Q : A -> Prop) `{!forall x, Decision (P x)}
    `{!forall x, Decision (Q x)} (l : list A) :
  (forall x, x ∈ l -> P x <-> Q x) -> filter P l = filter Q l.
Proof.
  induction l as [|x l IH]; intros Hext; [done|].
  rewrite !filter_cons.
  rewrite IH by (intros y Hy; apply Hext; by apply list_elem_of_further).
  pose proof (Hext x (list_elem_of_here _ _)).
  destruct (decide (P x)), (decide (Q x)); tauto.
Qed.

Section WithModel.
Variable self : PointerGeneratorNetwork.
Variable get_token_from_index : Z -> option string.

Abbreviation V := (_target_vocab_size self).
Abbreviation unk := (_target_unk_index self).

Lemma until_end_spec (indices : list Z) :
  exists kept, until_end self indices = Some kept /\
               truncated_at_end self indices kept.
Proof.
  unfold until_end, truncated_at_end. case_bool_decide as Hin.
  - destruct (index_spec _ _ Hin) as (k & Hk & Hl & Hnot).
    rewrite Hk. simpl. exists (take k indices). repeat split; try done.
    right. exists (drop (S k) indices). by rewrite take_drop_middle.
  - exists indices. repeat split; try done. by left.
Qed.

(** The loop of lines 347-352 reads the tokens at the unknown positions and
    keeps the first occurrence of each. *)
Lemma collect_unk_tokens_from (i : nat) (rest : list Z)
    (source_tokens acc : list string) :
  collect_unk_tokens self i rest source_tokens acc
  = l ← mapM (fun k => source_tokens !! k)
            (filter (fun k => rest !! (k - i)%nat = Some unk)
                    (seq i (length rest)));
    Some (foldl append_new acc l).
Proof.
  revert i acc. induction rest as [|t rest IH]; intros i acc; [done|].
  cbn [collect_unk_tokens length seq].
  rewrite filter_cons, Nat.sub_diag.
  rewrite (filter_ext_elem _ (fun k => rest !! (k - S i)%nat = Some unk)).
  2:{ intros k Hk. apply elem_of_seq in Hk.
      replace (k - i)%nat with (S (k - S i)) by lia. done. }
  destruct (Z.eqb_spec t unk) as [->|Hne].
  - rewrite decide_True by done. cbn [mapM].
    destruct (source_tokens !! i) as [tok|]; simpl; [|done].
    rewrite IH.
    destruct (mapM _ _); simpl; done.
  - rewrite decide_False by (simpl; congruence). apply IH.
Qed.

Lemma collect_unk_tokens_spec (source_to_target : list Z)
    (source_tokens : list string) :
  collect_unk_tokens self 0 source_to_target source_tokens []
  = l ← tokens_at_unknown self source_to_target source_tokens;
    Some (foldl append_new [] l).
Proof.
  rewrite collect_unk_tokens_from. unfold tokens_at_unknown, unknown_positions.
  erewrite (filter_ext_elem _ (fun i => source_to_target !! i = Some unk));
    [done|].
  intros k _. by rewrite Nat.sub_0_r.
Qed.

Lemma predicted_token_spec (oov : list string) (x : Z) (token : string) :
  predicted_token self get_token_from_index oov x = Some token
  <-> token_of self get_token_from_index oov x token.
Proof.
  unfold predicted_token, token_of.
  destruct (Z.ltb_spec x V); split; try tauto; intros [[? ?]|[? ?]];
    try done; lia.
Qed.

(** The tokens of one example. *)
Lemma decode_example_spec (p : predictions) (source_tokens : list string)
    (source_to_target : list Z) :
  match decode_example self get_token_from_index p source_tokens source_to_target with
  | Some tokens =>
      decoded_as self get_token_from_index p source_tokens source_to_target tokens
  | None => undecodable self get_token_from_index p source_tokens source_to_target
  end.
Proof.
  unfold decoded_as, undecodable, decode_example.
  destruct (top_indices p) as [indices|] eqn:Htop; simpl.
  2:{ left. destruct p as [[|h hs]|]; simpl in Htop; done. }
  destruct (until_end_spec indices) as (kept & Hkept & Htrunc).
  rewrite Hkept. simpl.
  rewrite collect_unk_tokens_spec.
  destruct (tokens_at_unknown self source_to_target source_tokens) as [l|] eqn:Hl;
    simpl; [|by right; left].
  pose proof (foldl_append_new_order l) as Hord.
  set (oov := foldl append_new [] l) in *.
  destruct (mapM _ kept) as [tokens|] eqn:Hmap.
  - exists indices, kept, l, oov. repeat split; try apply Htrunc; try apply Hord.
    + destruct p as [[|h hs]|]; simpl in Htop; try done.
      * right. exists hs. congruence.
      * left. congruence.
    + apply mapM_Some_1 in Hmap.
      eapply Forall2_impl; [exact Hmap|].
      intros x token. apply predicted_token_spec.
  - right. right.
    apply mapM_None_1, Exists_exists in Hmap as (x & Hx & Hnone).
    exists indices, kept, l, oov, x. repeat split; try apply Htrunc; try apply Hord;
      try done.
    intros token Htok. apply predicted_token_spec in Htok. congruence.
Qed.

End WithModel.

End DecodeFacts.

(** ** Sums, softmax, sigmoid and scatter-add *)

Module MixerFacts.
Import Decoder.
#[local] Open Scope R_scope.

Lemma sum_R_app (a b : list R) : sum_R (a ++ b) = sum_R a + sum_R b.
Proof. induction a as [|x a IH]; simpl; [lra|]. rewrite IH. lra. Qed.

Lemma sum_R_scale (c : R) (l : list R) :
  sum_R ((fun x => x * c) <$> l) = sum_R l * c.
Proof. induction l as [|x l IH]; csimpl; [lra|]. rewrite IH. lra. Qed.

Lemma sum_R_div (c : R) (l : list R) :
  sum_R ((fun x => x / c) <$> l) = sum_R l / c.
Proof. induction l as [|x l IH]; csimpl; [lra|]. rewrite IH. lra. Qed.

Lemma sum_R_nonneg (l : list R) : Forall (fun x => 0 <= x) l -> 0 <= sum_R l.
Proof. induction 1 as [|x l Hx _ IH]; simpl; lra. Qed.

Lemma sum_R_zero (l : list R) : Forall (fun x => x = 0) l -> sum_R l = 0.
Proof. induction 1 as [|x l Hx _ IH]; simpl; lra. Qed.

Lemma sum_R_alter (x : R) (i : nat) (l : list R) :
  (i < length l)%nat -> sum_R (alter (fun y => y + x) i l) = sum_R l + x.
Proof.
  revert i. induction l as [|y l IH]; intros [|i] Hi; simpl in Hi; try lia.
  - simpl. lra.
  - change (alter (fun y => y + x) (S i) (y :: l))
      with (y :: alter (fun y => y + x) i l).
    cbn [sum_R foldr]. fold (sum_R (alter (fun y => y + x) i l)).
    rewrite IH by lia. fold (sum_R l). lra.
Qed.

Lemma sigmoid_range (x : R) : 0 < sigmoid x < 1.
Proof.
  unfold sigmoid. pose proof (exp_pos (- x)) as He.
  split.
  - apply Rdiv_lt_0_compat; lra.
  - apply (Rmult_lt_reg_r (1 + exp (- x))); [lra|].
    field_simplify; lra.
Qed.

Lemma sum_exp_pos (l : list R) : l <> [] -> 0 < sum_R (exp <$> l).
Proof.
  destruct l as [|x l]; [done|]. intros _. csimpl.
  pose proof (exp_pos x).
  assert (0 <= sum_R (exp <$> l)); [|lra].
  apply sum_R_nonneg, Forall_fmap, Forall_forall. intros y _. simpl.
  pose proof (exp_pos y). lra.
Qed.

Lemma softmax_pos (l : list R) : l <> [] -> Forall (fun x => 0 < x) (softmax l).
Proof.
  intros Hl. unfold softmax. apply Forall_fmap, Forall_forall. intros x _. simpl.
  apply Rdiv_lt_0_compat; [apply exp_pos | by apply sum_exp_pos].
Qed.

Lemma softmax_sum (l : list R) : l <> [] -> sum_R (softmax l) = 1.
Proof.
  intros Hl. unfold softmax.
  pose proof (sum_exp_pos l Hl) as Hpos.
  replace ((fun x => exp x / sum_R (exp <$> l)) <$> l)
    with ((fun x => x / sum_R (exp <$> l)) <$> (exp <$> l))
    by (by rewrite <- list_fmap_compose).
  rewrite sum_R_div. field. lra.
Qed.

Lemma length_softmax (l : list R) : length (softmax l) = length l.
Proof. unfold softmax. apply length_fmap. Qed.

Lemma copy_mass_cons (i : Z) (x : R) (index : list Z) (src : list R) (k : nat) :
  copy_mass (i :: index) (x :: src) k
  = (if bool_decide (i = Z.of_nat k) then x else 0) + copy_mass index src k.
Proof. reflexivity. Qed.

Lemma copy_mass_nil_l (src : list R) (k : nat) : copy_mass [] src k = 0.
Proof. reflexivity. Qed.

Lemma copy_mass_nonneg (index : list Z) (src : list R) (k : nat) :
  Forall (fun x => 0 <= x) src -> 0 <= copy_mass index src k.
Proof.
  intros Hsrc. revert index.
  induction Hsrc as [|x src Hx _ IH]; intros [|i index];
    try (unfold copy_mass; simpl; lra).
  rewrite copy_mass_cons. specialize (IH index).
  case_bool_decide; lra.
Qed.

Lemma copy_mass_scale (c : R) (index : list Z) (src : list R) (k : nat) :
  copy_mass index ((fun x => x * c) <$> src) k = c * copy_mass index src k.
Proof.
  revert src. induction index as [|i index IH]; intros [|x src]; csimpl;
    try (unfold copy_mass; simpl; lra).
  rewrite !copy_mass_cons, IH. case_bool_decide; lra.
Qed.

Lemma nth_alter_add (x : R) (i k : nat) (l : list R) :
  (i < length l)%nat ->
  nth k (alter (fun y => y + x) i l) 0
  = nth k l 0 + (if bool_decide (i = k) then x else 0).
Proof.
  intros Hi. rewrite !nth_lookup. case_bool_decide as Hik.
  - subst k. rewrite list_lookup_alter_eq.
    destruct (lookup_lt_is_Some_2 l i Hi) as [y ->]. done.
  - rewrite list_lookup_alter_ne by done. lra.
Qed.

(** [scatter_add] adds to every slot the sources sent to it. *)
Lemma scatter_add_spec (out : list R) (index : list Z) (src : list R) :
  (length index <= length src)%nat ->
  Forall (fun i => (0 <= i < Z.of_nat (length out))%Z) index ->
  exists out',
    scatter_add out index src = Some out' /\
    length out' = length out /\
    (forall k, nth k out' 0 = nth k out 0 + copy_mass index src k) /\
    sum_R out' = sum_R out + sum_R (take (length index) src).
Proof.
  revert out src. induction index as [|i index IH]; intros out src Hlen Hidx.
  - exists out. simpl. repeat split; try done.
    + intros k. rewrite copy_mass_nil_l. lra.
    + simpl. lra.
  - destruct src as [|x src]; [simpl in Hlen; lia|].
    apply Forall_cons in Hidx as [Hi Hidx]. simpl.
    rewrite andb_true_intro by (split; [apply Z.leb_le | apply Z.ltb_lt]; lia).
    destruct (IH (alter (fun y => y + x) (Z.to_nat i) out) src)
      as (out' & Hrun & Hl & Hnth & Hsum).
    { simpl in Hlen. lia. }
    { by rewrite length_alter. }
    exists out'. rewrite length_alter in Hl.
    split; [exact Hrun|]. split; [exact Hl|]. split.
    + intros k. rewrite Hnth, nth_alter_add, copy_mass_cons by lia.
      destruct (decide (Z.to_nat i = k)) as [Hk|Hk].
      * rewrite !bool_decide_eq_true_2 by lia. lra.
      * rewrite !bool_decide_eq_false_2 by lia. lra.
    + rewrite Hsum, sum_R_alter by lia. simpl. lra.
Qed.

Lemma nth_scaled_padded (p : R) (v extra : list R) (k : nat) :
  Forall (fun z => z = 0) extra ->
  nth k (((fun x => x * p) <$> v) ++ extra) 0 = p * nth k v 0.
Proof.
  intros Hextra. rewrite !nth_lookup.
  destruct (decide (k < length v)%nat) as [Hk|Hk].
  - rewrite lookup_app_l by (by rewrite length_fmap).
    rewrite list_lookup_fmap.
    destruct (lookup_lt_is_Some_2 v k Hk) as [y ->]. simpl. lra.
  - rewrite lookup_app_r by (rewrite length_fmap; lia).
    rewrite (lookup_ge_None_2 v) by lia. simpl.
    destruct (extra !! _) as [z|] eqn:Hz; simpl; [|lra].
    eapply Forall_lookup_1 in Hextra; [|exact Hz]. simpl in Hextra. lra.
Qed.

(** The final distribution of one example. *)
Lemma final_dist_row_spec (p : R) (proj attn : list R) (toks : list Z)
    (with_extra : bool) (extra : list R) :
  0 < p < 1 -> proj <> [] -> Forall (fun a => 0 <= a) attn ->
  (length toks <= length attn)%nat ->
  Forall (fun i => (0 <= i < Z.of_nat (length proj + length extra))%Z) toks ->
  Forall (fun z => z = 0) extra ->
  (with_extra = false -> extra = []) ->
  exists row,
    final_dist_row p proj attn toks with_extra extra = Some row /\
    length row = (length proj + length extra)%nat /\
    Forall (fun x => 0 <= x) row /\
    sum_R row = 1 /\
    forall k, (k < length row)%nat ->
      row !! k = Some (mixed_mass p proj attn toks k
                       / (p + (1 - p) * sum_R (take (length toks) attn))).
Proof.
  intros Hp Hproj Hattn Hlen Hidx Hextra Hwith.
  unfold final_dist_row.
  set (vocab := (fun x => x * p) <$> softmax proj).
  assert (Hpad : (if with_extra then vocab ++ extra else vocab) = vocab ++ extra).
  { destruct with_extra; [done|]. by rewrite Hwith, app_nil_r. }
  rewrite Hpad.
  assert (Hlv : length (vocab ++ extra) = (length proj + length extra)%nat).
  { unfold vocab. by rewrite length_app, length_fmap, length_softmax. }
  destruct (scatter_add_spec (vocab ++ extra) toks
              ((fun x => x * (1 - p)) <$> attn))
    as (out & Hrun & Hlout & Hnth & Hsum).
  { by rewrite length_fmap. }
  { by rewrite Hlv. }
  rewrite Hrun. simpl.
  assert (Hsum' : sum_R out = p + (1 - p) * sum_R (take (length toks) attn)).
  { rewrite Hsum, sum_R_app. unfold vocab.
    rewrite sum_R_scale, softmax_sum, (sum_R_zero extra) by done.
    rewrite <- fmap_take, sum_R_scale. lra. }
  assert (Htake : 0 <= sum_R (take (length toks) attn)).
  { apply sum_R_nonneg. by apply Forall_take. }
  assert (Hnorm : 0 < sum_R out) by (rewrite Hsum'; nra).
  assert (Hmass : forall k, nth k out 0 = mixed_mass p proj attn toks k).
  { intros k. rewrite Hnth. unfold vocab, mixed_mass.
    by rewrite nth_scaled_padded, copy_mass_scale. }
  assert (Hout : Forall (fun x => 0 <= x) out).
  { apply Forall_lookup. intros k x Hk.
    pose proof (Hmass k) as Hm. rewrite nth_lookup, Hk in Hm. simpl in Hm.
    rewrite Hm. unfold mixed_mass.
    pose proof (copy_mass_nonneg toks attn k Hattn).
    assert (0 <= nth k (softmax proj) 0).
    { rewrite nth_lookup. destruct (softmax proj !! k) as [y|] eqn:Hy; simpl; [|lra].
      pose proof (softmax_pos proj Hproj) as Hpos.
      eapply Forall_lookup_1 in Hpos; [|exact Hy]. simpl in Hpos. lra. }
    nra. }
  eexists. split; [reflexivity|].
  split; [by rewrite length_fmap, Hlout|].
  split.
  { apply Forall_fmap. eapply Forall_impl; [exact Hout|]. simpl.
    intros x Hx. apply Rle_mult_inv_pos; lra. }
  split.
  { rewrite sum_R_div. field. lra. }
  intros k Hk. rewrite length_fmap in Hk.
  rewrite list_lookup_fmap.
  destruct (lookup_lt_is_Some_2 out k Hk) as [x Hx].
  rewrite Hx. simpl. f_equal.
  pose proof (Hmass k) as Hm. rewrite nth_lookup, Hx in Hm. simpl in Hm.
  by rewrite Hm, Hsum'.
Qed.

End MixerFacts.

(** ** The loss *)

Module LossFacts.
Import Decoder MixerFacts.
#[local] Open Scope R_scope.

Section WithInput.
Variable eps : R.
Variable example : list (list R).
Variables C d : nat.
Hypothesis example_rows : length example = C.
Hypothesis example_cols : Forall (fun row : list R => length row = d) example.

#[local] Abbreviation logp :=
  ((fun row : list R => (fun p => ln (p + eps)) <$> row) <$> example).

Lemma nll_term_run (t : nat) (c : Z) :
  (t < d)%nat -> (0 <= c < Z.of_nat C)%Z ->
  nll_term 0 logp t c
  = Some (if (c =? 0)%Z then None else Some (- log_likelihood example eps t c)).
Proof.
  intros Ht Hc. unfold nll_term.
  destruct (Z.eqb_spec c 0) as [->|Hne]; [done|].
  rewrite (proj2 (Z.leb_le 0 c)) by lia.
  destruct (lookup_lt_is_Some_2 example (Z.to_nat c) ltac:(lia)) as [row Hrow].
  pose proof (Forall_lookup_1 _ _ _ _ example_cols Hrow) as Hlen. simpl in Hlen.
  destruct (lookup_lt_is_Some_2 row t ltac:(lia)) as [x Hx].
  rewrite list_lookup_fmap, Hrow. simpl.
  rewrite list_lookup_fmap, Hx. simpl.
  unfold log_likelihood.
  by rewrite (nth_lookup_Some _ _ _ _ Hrow), (nth_lookup_Some _ _ _ _ Hx).
Qed.

(** The terms of the target positions [k], [k + 1], ... *)
Lemma nll_terms_from (k : nat) (tg : list Z) :
  (k + length tg <= d)%nat ->
  Forall (fun c => (0 <= c < Z.of_nat C)%Z) tg ->
  exists terms,
    mapM (fun tc : nat * Z => nll_term 0 logp (fst tc) (snd tc))
         (imap (fun i c => ((k + i)%nat, c)) tg) = Some terms /\
    sum_R (omap (fun term : option R => term) terms)
    = sum_R (imap (fun i c =>
                     if (c =? 0)%Z then 0
                     else - log_likelihood example eps (k + i) c) tg) /\
    length (omap (fun term : option R => term) terms)
    = length (filter (fun c => c <> 0%Z) tg).
Proof.
  revert k. induction tg as [|c tg IH]; intros k Hk Hcls.
  - exists []. done.
  - apply Forall_cons in Hcls as [Hc Hcls]. simpl in Hk.
    destruct (IH (S k) ltac:(lia) Hcls) as (terms & Hrun & Hsum & Hlen).
    rewrite !imap_cons.
    rewrite (imap_ext _ (fun i c => ((S k + i)%nat, c)))
      by (intros; simpl; f_equal; lia).
    rewrite (imap_ext ((fun i c0 => if (c0 =? 0)%Z then 0
                          else - log_likelihood example eps (k + i) c0) ∘ S)
               (fun i c0 => if (c0 =? 0)%Z then 0
                          else - log_likelihood example eps (S k + i) c0)).
    2:{ intros i c0 _. simpl. by replace (k + S i)%nat with (S (k + i)) by lia. }
    cbn [mapM]. simpl fst. simpl snd.
    rewrite nll_term_run by (try lia; done).
    rewrite Hrun. csimpl.
    eexists. split; [reflexivity|].
    rewrite Nat.add_0_r.
    destruct (Z.eqb_spec c 0) as [->|Hne].
    + rewrite filter_cons_False by (intros H; by apply H). csimpl.
      rewrite Hsum, Hlen. cbn [Nat.add]. split; [lra|done].
    + rewrite filter_cons_True by done. csimpl.
      rewrite Hsum, Hlen. cbn [Nat.add]. split; [lra|done].
Qed.

Lemma nll_row_run (target : list Z) :
  length target = S d ->
  Forall (fun c => (0 <= c < Z.of_nat C)%Z) (drop 1 target) ->
  exists terms,
    nll_row 0 logp (drop 1 target) = Some terms /\
    sum_R terms = row_nll eps example target /\
    length terms = row_count target.
Proof.
  intros Hlen Hcls. unfold nll_row.
  assert (Hd : length (drop 1 target) = d) by (rewrite length_drop; lia).
  rewrite bool_decide_eq_true_2.
  2:{ apply Forall_fmap.
      eapply Forall_impl; [exact example_cols|]. simpl.
      intros row Hrow. by rewrite length_fmap, Hd. }
  destruct (nll_terms_from 0 (drop 1 target)) as (terms & Hrun & Hsum & Hl);
    [lia | done |].
  rewrite (imap_ext _ pair) in Hrun by done.
  rewrite Hrun. csimpl. eexists. split; [reflexivity|].
  split; [exact Hsum | exact Hl].
Qed.

End WithInput.

Lemma mapM_cons {A B} (f : A -> option B) (x : A) (l : list A) :
  mapM f (x :: l) = y ← f x; k ← mapM f l; Some (y :: k).
Proof. reflexivity. Qed.

Lemma sum_R_concat (ls : list (list R)) :
  sum_R (concat ls) = sum_R (sum_R <$> ls).
Proof.
  induction ls as [|l ls IH]; csimpl; [done|].
  by rewrite sum_R_app, IH.
Qed.

Lemma length_concat_sum {A} (ls : list (list A)) :
  length (concat ls) = sum_list (length <$> ls).
Proof.
  induction ls as [|l ls IH]; csimpl; [done|].
  by rewrite length_app, IH.
Qed.

(** The rows of the loss of a batch. *)
Lemma nll_rows_run (eps : R) (C d : nat) (proba : list (list (list R)))
    (targets : list (list Z)) :
  length proba = length targets ->
  Forall (fun example : list (list R) =>
            length example = C /\
            Forall (fun row : list R => length row = d) example) proba ->
  Forall (fun target : list Z =>
            length target = S d /\
            Forall (fun c => (0 <= c < Z.of_nat C)%Z) (drop 1 target)) targets ->
  exists rows,
    mapM (fun it : list (list R) * list Z => nll_row 0 (fst it) (snd it))
         (zip ((fun example : list (list R) =>
                  (fun row : list R => (fun p => ln (p + eps)) <$> row)
                    <$> example) <$> proba)
              (drop 1 <$> targets)) = Some rows /\
    sum_R <$> rows = zip_with (row_nll eps) proba targets /\
    length <$> rows = row_count <$> targets.
Proof.
  revert targets. induction proba as [|example proba IH];
    intros [|target targets] Hlen Hshape Hcls; simpl in Hlen; try lia.
  - exists []. done.
  - apply Forall_cons in Hshape as [[Hrows Hcols] Hshape].
    apply Forall_cons in Hcls as [[Ht Hc] Hcls].
    destruct (IH targets ltac:(lia) Hshape Hcls) as (rows & Hrun & Hsum & Hl).
    destruct (nll_row_run eps example C d Hrows Hcols target Ht Hc)
      as (terms & Hrow & Hs & Hn).
    exists (terms :: rows). rewrite !fmap_cons.
    change (zip (?x :: ?l) (?y :: ?k)) with ((x, y) :: zip l k).
    rewrite mapM_cons. cbn [fst snd].
    rewrite Hrow, Hrun. split; [done|].
    by rewrite Hsum, Hl, Hs, Hn.
Qed.

(** The loss of a well-shaped batch. *)
Lemma get_loss_spec (N C d : nat) (proba : list (list (list R)))
    (targets : list (list Z)) (eps : R) :
  loss_ok N C d proba targets ->
  _get_loss proba targets eps
  = if decide (sum_list (row_count <$> targets) = 0%nat) then None
    else Some (nll_spec proba targets eps).
Proof.
  intros [Hp Ht Hshape Hcls]. unfold _get_loss, nll_loss.
  rewrite !length_fmap, bool_decide_eq_true_2 by congruence.
  destruct (nll_rows_run eps C d proba targets) as (rows & Hrun & Hsum & Hlen);
    try done; [congruence|].
  rewrite Hrun. csimpl.
  assert (Hl : length (concat rows) = sum_list (row_count <$> targets)).
  { by rewrite length_concat_sum, Hlen. }
  destruct (decide (sum_list (row_count <$> targets) = 0%nat)) as [Hz|Hz].
  - rewrite bool_decide_eq_true_2; [done|].
    apply nil_length_inv. congruence.
  - rewrite bool_decide_eq_false_2.
    2:{ intros Hnil. rewrite Hnil in Hl. simpl in Hl. congruence. }
    unfold nll_spec. by rewrite sum_R_concat, Hsum, Hl.
Qed.

End LossFacts.

(** ** The decoding loop with and without coverage *)

Module CoverageFacts.
Import Decoder MixerFacts LossFacts.
#[local] Open Scope R_scope.

Lemma mapM_rel {A B B'} (f : A -> option B) (g : A -> option B') (h : B -> B')
    (l : list A) (ys : list B) :
  (forall x y, f x = Some y -> g x = Some (h y)) ->
  mapM f l = Some ys -> mapM g l = Some (h <$> ys).
Proof.
  intros Hfg Hf. apply mapM_Some_1 in Hf. apply mapM_Some_2.
  apply Forall2_fmap_r. eapply Forall2_impl; [exact Hf|].
  intros x y Hy. by apply Hfg.
Qed.

Section WithModel.
Variable self : PointerGeneratorNetwork.
Variable m : modules.
Hypothesis attention_same : attention_ignores_coverage m.

Abbreviation on := (with_coverage true self).
Abbreviation off := (with_coverage false self).

Lemma prepare_row_rel (lp : list Z) (st_on st_off : state) (n : nat) (r : step_row) :
  same_except_coverage st_on st_off ->
  prepare_row on m lp st_on n = Some r ->
  prepare_row off m lp st_off n = Some (without_coverage r).
Proof.
  intros (He & Hm & Hh & Hc & _) Hrun.
  unfold prepare_row in *. simpl in *.
  rewrite <- He, <- Hm, <- Hh, <- Hc.
  destruct (lp !! n) as [x|]; [|done]. simpl in *.
  destruct (encoder_outputs st_on !! n) as [enc|]; [|done]. simpl in *.
  destruct (source_mask st_on !! n) as [mask|]; [|done]. simpl in *.
  destruct (decoder_hidden st_on !! n) as [dh|]; [|done]. simpl in *.
  destruct (decoder_context st_on !! n) as [dc|]; [|done]. simpl in *.
  destruct (coverage st_on) as [all|]; [|done]. simpl in *.
  destruct (all !! n) as [cov|]; [|done]. simpl in *.
  destruct (vec_add cov _) as [cov'|]; [|done]. simpl in *.
  rewrite attention_same in Hrun.
  destruct (decoder_cell m _ _) as [dh' dc'].
  injection Hrun as <-. reflexivity.
Qed.

Lemma get_final_dist_same (st_on st_off : state) (proj : list vec) :
  same_except_coverage st_on st_off ->
  _get_final_dist m st_on proj = _get_final_dist m st_off proj.
Proof.
  intros (_ & _ & Hh & Hc & Ht & Hx & _ & Hi & Ha & Hac).
  unfold _get_final_dist, p_gen_row, extra_size1.
  by rewrite Hh, Hc, Ht, Hx, Hi, Ha, Hac.
Qed.

Lemma prepare_output_projections_rel (lp : list Z) (st_on st_off st_on' : state)
    (proj : list vec) :
  same_except_coverage st_on st_off ->
  _prepare_output_projections on m lp st_on = Some (proj, st_on') ->
  exists st_off',
    _prepare_output_projections off m lp st_off = Some (proj, st_off') /\
    same_except_coverage st_on' st_off'.
Proof.
  intros Hsame Hrun. unfold _prepare_output_projections in *. simpl in *.
  destruct (mapM (prepare_row on m lp st_on) _) as [rows|] eqn:Hrows; [|done].
  simpl in Hrun.
  rewrite (mapM_rel (prepare_row on m lp st_on) (prepare_row off m lp st_off)
             without_coverage _ rows);
    [|intros n r; by apply prepare_row_rel | done].
  simpl.
  destruct (mapM row_coverage rows) as [cov|]; [|done]. simpl in Hrun.
  injection Hrun as <- <-.
  destruct Hsame as (He & Hm & Hh & Hc & Ht & Hx & Htt & Hi & Ha & Hac).
  eexists. split.
  - f_equal. f_equal. by rewrite <- list_fmap_compose.
  - repeat split; simpl; try done; by rewrite <- list_fmap_compose.
Qed.

Lemma loop_body_rel (targets : option (list (list Z))) (acc_on acc_off acc_on' : loop_state)
    (timestep : nat) :
  same_run acc_on acc_off ->
  loop_body on m targets acc_on timestep = Some acc_on' ->
  exists acc_off',
    loop_body off m targets acc_off timestep = Some acc_off' /\
    same_run acc_on' acc_off'.
Proof.
  intros (Hst & Hlast & Hproba & Hpred) Hrun.
  unfold loop_body in *. simpl in *.
  rewrite <- Hlast.
  destruct (if training self && sampled m timestep then _ else _)
    as [input_choices|]; [|done]. simpl in *.
  destruct (coverage (ls_state acc_on)) as [cov|]; [|done]. simpl in Hrun.
  destruct (_prepare_output_projections on m _ _) as [[proj st_on']|] eqn:Hprep;
    [|done]. simpl in Hrun.
  destruct (prepare_output_projections_rel _ _ (ls_state acc_off) _ _ Hst Hprep)
    as (st_off' & Hprep' & Hst').
  rewrite Hprep'. simpl.
  rewrite <- (get_final_dist_same _ _ _ Hst').
  destruct (_get_final_dist m st_on' proj) as [final_dist|]; [|done].
  simpl in *.
  destruct (guard _ ≫= _) as [cl|]; [|done]. simpl in Hrun.
  injection Hrun as <-.
  eexists. split; [reflexivity|].
  repeat split; simpl; try apply Hst'; congruence.
Qed.

Lemma run_loop_rel (targets : option (list (list Z))) (timesteps : list nat)
    (acc_on acc_off acc_on' : loop_state) :
  same_run acc_on acc_off ->
  run_loop on m targets timesteps acc_on = Some acc_on' ->
  exists acc_off',
    run_loop off m targets timesteps acc_off = Some acc_off' /\
    same_run acc_on' acc_off'.
Proof.
  revert acc_on acc_off. induction timesteps as [|t timesteps IH];
    intros acc_on acc_off Hsame Hrun; simpl in *.
  - injection Hrun as <-. eauto.
  - destruct (loop_body on m targets acc_on t) as [acc1|] eqn:Hbody; [|done].
    simpl in Hrun.
    destruct (loop_body_rel _ _ _ _ _ Hsame Hbody) as (acc1' & Hbody' & Hsame1).
    rewrite Hbody'. simpl. eauto.
Qed.

End WithModel.

End CoverageFacts.

(** ** The decoding loop runs *)

Module LoopFacts.
Import Decoder MixerFacts LossFacts.
#[local] Open Scope R_scope.

Lemma mapM_seq_run {A} (f : nat -> option A) (B : nat) :
  (forall n, (n < B)%nat -> is_Some (f n)) ->
  exists ys, mapM f (seq 0 B) = Some ys /\ length ys = B /\
             forall n y, ys !! n = Some y -> f n = Some y.
Proof.
  intros Hf.
  destruct (mapM_is_Some_2 f (seq 0 B)) as [ys Hys].
  { apply Forall_forall. intros n Hn. apply elem_of_seq in Hn.
    apply Hf. lia. }
  exists ys. split; [exact Hys|].
  apply mapM_Some_1 in Hys.
  split; [by rewrite <- (Forall2_length _ _ _ Hys), length_seq|].
  intros n y Hn.
  destruct (Forall2_lookup_r _ _ _ _ _ Hys Hn) as (n' & Hn' & Hfn).
  apply lookup_seq in Hn' as [-> _]. exact Hfn.
Qed.

Lemma vec_add_run (a b : list R) :
  length a = length b ->
  exists c, vec_add a b = Some c /\ length c = length a.
Proof.
  intros Hl. unfold vec_add. rewrite bool_decide_eq_true_2 by done.
  eexists. split; [done|]. rewrite length_zip_with. lia.
Qed.

Lemma vec_min_run (a b : list R) :
  length a = length b -> is_Some (vec_min a b).
Proof.
  intros Hl. unfold vec_min. rewrite bool_decide_eq_true_2 by done. eauto.
Qed.

Section WithModel.
Variable self : PointerGeneratorNetwork.
Variable m : modules.
Variables B C : nat.
Hypothesis Hmod : modules_ok m C.

Lemma prepare_row_run (lp : list Z) (st : state) (n : nat) :
  state_ok self B C st -> length lp = B -> (n < B)%nat ->
  exists r mask,
    prepare_row self m lp st n = Some r /\
    source_mask st !! n = Some mask /\
    length (row_projections r) = C /\
    length (row_attn_scores r) = length mask /\
    (_use_coverage self = true ->
     exists c, row_coverage r = Some c /\ length c = length mask).
Proof.
  intros Hok Hlp Hn. unfold prepare_row.
  destruct (lookup_lt_is_Some_2 lp n ltac:(lia)) as [x ->].
  destruct (lookup_lt_is_Some_2 (encoder_outputs st) n) as [enc ->];
    [rewrite (ok_encoder_outputs _ _ _ _ Hok); lia|].
  destruct (lookup_lt_is_Some_2 (source_mask st) n) as [mask Hmask];
    [rewrite (ok_source_mask _ _ _ _ Hok); lia|].
  destruct (lookup_lt_is_Some_2 (decoder_hidden st) n) as [dh ->];
    [rewrite (ok_decoder_hidden _ _ _ _ Hok); lia|].
  destruct (lookup_lt_is_Some_2 (decoder_context st) n) as [dc ->];
    [rewrite (ok_decoder_context _ _ _ _ Hok); lia|].
  rewrite Hmask. cbn [mbind option_bind].
  destruct (_use_coverage self) eqn:Hcov; cbn [negb].
  - destruct (ok_coverage _ _ _ _ Hok Hcov) as (cov & -> & Hshape).
    cbn [mbind option_bind].
    destruct (Forall2_lookup_r _ _ _ _ _ Hshape Hmask) as (c & -> & Hc).
    cbn [mbind option_bind].
    destruct (vec_add_run c (attention m dh enc mask (Some c))) as (c' & -> & Hc').
    { by rewrite (attention_length _ _ Hmod). }
    cbn [mbind option_bind].
    destruct (decoder_cell m _ _) as [dh' dc'].
    eexists _, mask. split; [reflexivity|]. split; [done|]. simpl.
    split; [apply (projection_length _ _ Hmod)|].
    split; [apply (attention_length _ _ Hmod)|].
    intros _. exists c'. split; [done|]. congruence.
  - cbn [mbind option_bind].
    destruct (decoder_cell m _ _) as [dh' dc'].
    eexists _, mask. split; [reflexivity|]. split; [done|]. simpl.
    split; [apply (projection_length _ _ Hmod)|].
    split; [apply (attention_length _ _ Hmod)|]. done.
Qed.

Lemma prepare_output_projections_run (lp : list Z) (st : state) :
  state_ok self B C st -> length lp = B ->
  exists proj st',
    _prepare_output_projections self m lp st = Some (proj, st') /\
    after_step B C st st' proj /\
    state_ok self B C st'.
Proof.
  intros Hok Hlp. unfold _prepare_output_projections. rewrite Hlp.
  destruct (mapM_seq_run (prepare_row self m lp st) B) as (rows & -> & Hlen & Hrows).
  { intros n Hn.
    destruct (prepare_row_run lp st n Hok Hlp Hn) as (r & _ & -> & _). eauto. }
  cbn [mbind option_bind].
  assert (Hrow : forall n r, rows !! n = Some r ->
    exists mask, source_mask st !! n = Some mask /\
      length (row_projections r) = C /\
      length (row_attn_scores r) = length mask /\
      (_use_coverage self = true ->
       exists c, row_coverage r = Some c /\ length c = length mask)).
  { intros n r Hr.
    assert (Hn : (n < B)%nat) by (rewrite <- Hlen; by eapply lookup_lt_Some).
    destruct (prepare_row_run lp st n Hok Hlp Hn) as (r' & mask & Hrun & Hrest).
    rewrite (Hrows n r Hr) in Hrun. injection Hrun as <-. eauto. }
  assert (Hcov : exists cov',
    (if negb (_use_coverage self) then Some (coverage st)
     else Some <$> mapM row_coverage rows) = Some cov' /\
    (_use_coverage self = true ->
     exists cov, cov' = Some cov /\
       Forall2 (fun c mask : vec => length c = length mask) cov (source_mask st))).
  { destruct (_use_coverage self) eqn:Hc; cbn [negb]; [|by eexists].
    destruct (mapM_is_Some_2 row_coverage rows) as [cov Hcov].
    { apply Forall_lookup. intros n r Hr. change (is_Some (row_coverage r)).
      destruct (Hrow n r Hr) as (mask & _ & _ & _ & Hc').
      destruct (Hc' eq_refl) as (c & -> & _). eauto. }
    rewrite Hcov. eexists. split; [reflexivity|]. intros _.
    exists cov. split; [done|].
    apply mapM_Some_1 in Hcov.
    apply Forall2_same_length_lookup. split.
    - rewrite <- (Forall2_length _ _ _ Hcov), Hlen.
      by rewrite (ok_source_mask _ _ _ _ Hok).
    - intros n c mask Hc0 Hmask.
      destruct (Forall2_lookup_r _ _ _ _ _ Hcov Hc0) as (r & Hr & Hrc).
      destruct (Hrow n r Hr) as (mask' & Hmask' & _ & _ & Hc').
      destruct (Hc' eq_refl) as (c' & Hc'' & Hl).
      congruence. }
  destruct Hcov as (cov' & -> & Hcov'). cbn [mbind option_bind].
  eexists _, _. split; [reflexivity|].
  assert (Hattn : Forall2 (fun a mask : vec => length a = length mask)
                    (row_attn_scores <$> rows) (source_mask st)).
  { apply Forall2_same_length_lookup. split.
    - by rewrite length_fmap, Hlen, (ok_source_mask _ _ _ _ Hok).
    - intros n a mask Ha Hmask. rewrite list_lookup_fmap in Ha.
      destruct (rows !! n) as [r|] eqn:Hr; [|done]. injection Ha as <-.
      destruct (Hrow n r Hr) as (mask' & Hmask' & _ & Hl & _). congruence. }
  split.
  - unfold after_step. simpl. rewrite !length_fmap.
    repeat split; try done.
    apply Forall_fmap, Forall_lookup. intros n r Hr. simpl.
    by destruct (Hrow n r Hr) as (mask & _ & Hp & _).
  - destruct Hok as [He Hm Hh Hc [Hx Hxr] Ht Hcv].
    split; simpl; rewrite ?length_fmap; try done.
Qed.

Lemma final_dist_row_run (p : R) (proj attn : list R) (toks : list Z)
    (with_extra : bool) (extra : list R) :
  (length toks <= length attn)%nat ->
  Forall (fun i => (0 <= i < Z.of_nat
            (length proj + length (if with_extra then extra else [])))%Z) toks ->
  exists row,
    final_dist_row p proj attn toks with_extra extra = Some row /\
    length row = (length proj + length (if with_extra then extra else []))%nat.
Proof.
  intros Hlen Hidx. unfold final_dist_row.
  set (vocab := (fun x => x * p) <$> softmax proj).
  set (padded := if with_extra then vocab ++ extra else vocab).
  assert (Hl : length padded
               = (length proj + length (if with_extra then extra else []))%nat).
  { unfold padded, vocab. destruct with_extra;
      rewrite ?length_app, length_fmap, length_softmax; simpl; lia. }
  destruct (scatter_add_spec padded toks ((fun x => x * (1 - p)) <$> attn))
    as (out & -> & Hlout & _).
  { by rewrite length_fmap. }
  { by rewrite Hl. }
  eexists. split; [reflexivity|]. by rewrite length_fmap, Hlout.
Qed.

Lemma get_final_dist_run (st st' : state) (proj : list vec) :
  state_ok self B C st -> after_step B C st st' proj ->
  state_ok self B C st' ->
  exists final_dist,
    _get_final_dist m st' proj = Some final_dist /\
    length final_dist = B /\
    Forall (fun r : vec => length r = (C + extra_size1 st)%nat) final_dist.
Proof.
  intros Hok (Hlp & Hproj & He & Hm & Ht & Hx & Htt & Hdi & Hac & Hattn) Hok'.
  unfold _get_final_dist. rewrite Hlp.
  assert (Hsize : extra_size1 st' = extra_size1 st)
    by (unfold extra_size1; by rewrite Hx).
  set (f := fun n : nat => _).
  assert (Hf : forall n, (n < B)%nat ->
    exists row, f n = Some row /\ length row = (C + extra_size1 st)%nat).
  { intros n Hn. unfold f, p_gen_row.
    destruct (lookup_lt_is_Some_2 (attn_context st') n) as [ac ->]; [lia|].
    destruct (lookup_lt_is_Some_2 (decoder_hidden st') n) as [dh ->];
      [rewrite (ok_decoder_hidden _ _ _ _ Hok'); lia|].
    destruct (lookup_lt_is_Some_2 (decoder_context st') n) as [dc ->];
      [rewrite (ok_decoder_context _ _ _ _ Hok'); lia|].
    destruct (lookup_lt_is_Some_2 (decoder_input st') n) as [di ->]; [lia|].
    destruct (lookup_lt_is_Some_2 proj n) as [pr Hpr]; [lia|].
    destruct (lookup_lt_is_Some_2 (source_mask st) n) as [mask Hmask];
      [rewrite (ok_source_mask _ _ _ _ Hok); lia|].
    destruct (Forall2_lookup_r _ _ _ _ _ Hattn Hmask) as (a & Ha & Hla).
    destruct (Forall2_lookup_r _ _ _ _ _ (ok_tokens _ _ _ _ Hok) Hmask)
      as (toks & Htoks & Hlt & Hrange).
    destruct (ok_extra_zeros _ _ _ _ Hok) as [Hxl Hxr].
    destruct (lookup_lt_is_Some_2 (extra_zeros st) n) as [ex Hex]; [lia|].
    pose proof (Forall_lookup_1 _ _ _ _ Hxr Hex) as Hlex. simpl in Hlex.
    pose proof (Forall_lookup_1 _ _ _ _ Hproj Hpr) as Hlpr. simpl in Hlpr.
    rewrite Hpr, Ha, Ht, Htoks, Hx, Hex, Hsize. cbn [mbind option_bind].
    case_bool_decide as Hz; cbn [mbind option_bind negb].
    - destruct (final_dist_row_run (sigmoid (p_gen_layer m (ac ++ (dh ++ dc) ++ di)))
                  pr a toks false []) as (row & -> & Hrow).
      { lia. }
      { simpl. rewrite Hlpr, Nat.add_0_r. by rewrite Hz, Nat.add_0_r in Hrange. }
      eexists. split; [reflexivity|]. rewrite Hrow, Hlpr, Hz. done.
    - destruct (final_dist_row_run (sigmoid (p_gen_layer m (ac ++ (dh ++ dc) ++ di)))
                  pr a toks true ex) as (row & -> & Hrow).
      { lia. }
      { by rewrite Hlpr, Hlex. }
      eexists. split; [reflexivity|]. by rewrite Hrow, Hlpr, Hlex. }
  destruct (mapM_seq_run f B) as (fd & -> & Hlen & Hrows).
  { intros n Hn. destruct (Hf n Hn) as (row & -> & _). eauto. }
  exists fd. split; [done|]. split; [done|].
  apply Forall_lookup. intros n row Hrow.
  assert (Hn : (n < B)%nat) by (rewrite <- Hlen; by eapply lookup_lt_Some).
  destruct (Hf n Hn) as (row' & Hrun & Hl).
  rewrite (Hrows n row Hrow) in Hrun. by injection Hrun as <-.
Qed.

Lemma input_choices_run (targets : option (list (list Z))) (last : list Z)
    (timestep : nat) :
  length last = B -> targets_ok B targets timestep ->
  exists ic,
    (if training self && sampled m timestep then Some last
     else match targets with
          | None => Some last
          | Some targets => mapM (fun r : list Z => r !! timestep) targets
          end) = Some ic /\
    length ic = B.
Proof.
  intros Hlast Htg.
  destruct (training self && sampled m timestep); [by eexists|].
  destruct targets as [tg|]; [|by eexists].
  destruct Htg as [Hl Hrows].
  destruct (mapM_is_Some_2 (fun r : list Z => r !! timestep) tg) as [ic Hic].
  { eapply Forall_impl; [exact Hrows|]. intros r Hr.
    by apply lookup_lt_is_Some_2. }
  exists ic. split; [done|].
  apply mapM_Some_1, Forall2_length in Hic. lia.
Qed.

Lemma step_coverage_loss_run (attn cov : list (list R)) (masks : list (list R)) :
  Forall2 (fun a mask : list R => length a = length mask) attn masks ->
  Forall2 (fun c mask : list R => length c = length mask) cov masks ->
  exists step,
    mapM (fun ac : list R * list R => sum_R <$> vec_min (fst ac) (snd ac))
         (zip attn cov) = Some step /\
    length step = length masks.
Proof.
  intros Ha Hc.
  destruct (mapM_is_Some_2
              (fun ac : list R * list R => sum_R <$> vec_min (fst ac) (snd ac))
              (zip attn cov)) as [step Hstep].
  { apply Forall_lookup. intros n [a c] Hac.
    apply lookup_zip_with_Some in Hac as (a' & c' & [= <- <-] & Ha' & Hc').
    destruct (Forall2_lookup_l _ _ _ _ _ Ha Ha') as (mask & Hmask & Hla).
    destruct (Forall2_lookup_l _ _ _ _ _ Hc Hc') as (mask' & Hmask' & Hlc).
    change (is_Some (sum_R <$> vec_min a c)).
    destruct (vec_min_run a c) as [x ->]; [congruence|]. simpl. eauto. }
  exists step. split; [done|].
  apply mapM_Some_1, Forall2_length in Hstep.
  rewrite <- Hstep, length_zip.
  apply Forall2_length in Ha, Hc. lia.
Qed.

Lemma loop_body_run (targets : option (list (list Z))) (st0 : state) (k : nat)
    (acc : loop_state) (timestep : nat) :
  loop_inv self B C st0 k acc -> targets_ok B targets timestep ->
  exists acc',
    loop_body self m targets acc timestep = Some acc' /\
    loop_inv self B C st0 (S k) acc'.
Proof.
  intros (Hok & Hmask & Hextra & Htt & Hlast & Hpk & Hproba & Hdk & Hpred & Hcl & Hsome)
    Htg.
  unfold loop_body.
  destruct (input_choices_run targets (last_predictions acc) timestep Hlast Htg)
    as (ic & -> & Hic).
  cbn [mbind option_bind].
  destruct (prepare_output_projections_run ic (ls_state acc) Hok Hic)
    as (proj & st' & Hprep & Hafter & Hok').
  destruct (get_final_dist_run (ls_state acc) st' proj Hok Hafter Hok')
    as (fd & Hfd & Hlfd & Hrows).
  assert (Hsize : extra_size1 (ls_state acc) = extra_size1 st0)
    by (unfold extra_size1; by rewrite Hextra).
  pose proof Hafter as (_ & _ & _ & Hm' & _ & Hx' & Htt' & _ & _ & Hattn).
  assert (Hfinish : forall cl',
    (forall cl, cl' = Some cl -> length cl = B) ->
    (_use_coverage self = true -> is_Some cl') ->
    loop_inv self B C st0 (S k)
      {| ls_state := st';
         last_predictions := argmax m <$> fd;
         step_proba := step_proba acc ++ [fd];
         step_predictions := step_predictions acc ++ [argmax m <$> fd];
         coverage_loss := cl' |}).
  { intros cl' Hcl' Hsome'. unfold loop_inv. simpl.
    split; [exact Hok'|].
    rewrite !length_app, !Forall_app, !length_fmap. simpl.
    repeat split; try done; try congruence; try lia.
    - repeat constructor; [done|]. by rewrite <- Hsize.
    - repeat constructor. by rewrite length_fmap.
    - intros Hc _. by apply Hsome'. }
  destruct (_use_coverage self) eqn:Hcov.
  - destruct (ok_coverage _ _ _ _ Hok Hcov) as (cov & Hcv & Hshape).
    rewrite Hcv. cbn [fmap option_fmap option_map mbind option_bind].
    rewrite Hprep. cbn [mbind option_bind]. rewrite Hfd. cbn [mbind option_bind].
    rewrite option_guard_True.
    2:{ apply Forall2_length in Hattn, Hshape. congruence. }
    destruct (step_coverage_loss_run (attn_scores st') cov
                (source_mask (ls_state acc)) Hattn Hshape) as (step & -> & Hls).
    rewrite (ok_source_mask _ _ _ _ Hok) in Hls.
    cbn [mbind option_bind].
    destruct (coverage_loss acc) as [cl|] eqn:Hacc.
    + destruct (vec_add_run cl step) as (cl' & -> & Hl');
        [rewrite (Hcl cl eq_refl); lia|].
      eexists. split; [reflexivity|]. apply Hfinish; [|eauto].
      intros ? [= <-]. rewrite Hl'. by apply Hcl.
    + eexists. split; [reflexivity|]. apply Hfinish; [|eauto].
      by intros ? [= <-].
  - cbn [mbind option_bind].
    rewrite Hprep. cbn [mbind option_bind]. rewrite Hfd. cbn [mbind option_bind].
    eexists. split; [reflexivity|]. apply Hfinish; [exact Hcl | done].
Qed.

Lemma run_loop_run (targets : option (list (list Z))) (st0 : state)
    (n s k : nat) (acc : loop_state) :
  loop_inv self B C st0 k acc ->
  (forall t, (s <= t < s + n)%nat -> targets_ok B targets t) ->
  exists acc',
    run_loop self m targets (seq s n) acc = Some acc' /\
    loop_inv self B C st0 (k + n) acc'.
Proof.
  revert s k acc. induction n as [|n IH]; intros s k acc Hinv Htg.
  - exists acc. by rewrite Nat.add_0_r.
  - simpl.
    destruct (loop_body_run targets st0 k acc s Hinv (Htg s ltac:(lia)))
      as (acc1 & -> & Hinv1).
    cbn [mbind option_bind].
    destruct (IH (S s) (S k) acc1 Hinv1) as (acc' & Hrun & Hinv').
    { intros t Ht. apply Htg. lia. }
    exists acc'. split; [exact Hrun|].
    by replace (k + S n)%nat with (S k + n)%nat by lia.
Qed.

Lemma initial_loop_inv (st : state) :
  state_ok self B C st -> loop_inv self B C st 0 (initial_loop_state self st).
Proof.
  intros Hok. unfold loop_inv, initial_loop_state. simpl.
  split; [exact Hok|].
  rewrite length_replicate, (ok_source_mask _ _ _ _ Hok).
  repeat split; try done. lia.
Qed.

End WithModel.

Lemma cat_columns_run (columns : list (list Z)) (B k : nat) :
  length columns = k -> (0 < k)%nat ->
  Forall (fun c : list Z => length c = B) columns ->
  exists preds,
    cat_columns columns = Some preds /\
    length preds = B /\
    Forall (fun row : list Z => length row = k) preds.
Proof.
  intros Hk Hpos Hcols. unfold cat_columns.
  destruct columns as [|c0 rest]; [simpl in Hk; lia|].
  change (head (c0 :: rest)) with (Some c0). cbn [mbind option_bind].
  pose proof (Forall_inv Hcols) as Hc0. simpl in Hc0.
  rewrite option_guard_True by (by rewrite Hc0).
  rewrite Hc0.
  set (f := fun n : nat => mapM (fun c : list Z => c !! n) (c0 :: rest)).
  assert (Hf : forall n, (n < B)%nat ->
    exists row, f n = Some row /\ length row = k).
  { intros n Hn.
    destruct (mapM_is_Some_2 (fun c : list Z => c !! n) (c0 :: rest)) as [row Hrow].
    { eapply Forall_impl; [exact Hcols|]. intros c Hc. simpl in *.
      apply lookup_lt_is_Some_2. lia. }
    exists row. split; [exact Hrow|].
    apply mapM_Some_1, Forall2_length in Hrow. congruence. }
  destruct (mapM_seq_run f B) as (preds & -> & Hlen & Hrows).
  { intros n Hn. destruct (Hf n Hn) as (row & -> & _). eauto. }
  exists preds. split; [done|]. split; [done|].
  apply Forall_lookup. intros n row Hrow.
  assert (Hn : (n < B)%nat) by (rewrite <- Hlen; by eapply lookup_lt_Some).
  destruct (Hf n Hn) as (row' & Hrun & Hl).
  rewrite (Hrows n row Hrow) in Hrun. by injection Hrun as <-.
Qed.

Lemma stack_proba_run (step_proba : list (list (list R))) (B W k : nat) :
  length step_proba = k -> (0 < k)%nat -> (0 < B)%nat ->
  Forall (fun p : list (list R) =>
            length p = B /\ Forall (fun r : list R => length r = W) p)
         step_proba ->
  exists proba,
    stack_proba B step_proba = Some proba /\
    length proba = B /\
    Forall (fun example : list (list R) =>
              length example = W /\
              Forall (fun row : list R => length row = k) example) proba.
Proof.
  intros Hk Hpos HB Hshape. unfold stack_proba.
  destruct step_proba as [|p0 rest]; [simpl in Hk; lia|].
  change (head (p0 :: rest)) with (Some p0). cbn [mbind option_bind].
  pose proof (Forall_inv Hshape) as [Hp0 Hr0].
  destruct p0 as [|r0 p0]; [simpl in Hp0; lia|].
  pose proof (Forall_inv Hr0) as Hw. simpl in Hw. rewrite Hw.
  rewrite option_guard_True by done.
  set (g := fun (n c : nat) =>
    mapM (fun p : list (list R) => r ← p !! n; r !! c) ((r0 :: p0) :: rest)).
  assert (Hg : forall n c, (n < B)%nat -> (c < W)%nat ->
    exists row, g n c = Some row /\ length row = k).
  { intros n c Hn Hc.
    destruct (mapM_is_Some_2 (fun p : list (list R) => r ← p !! n; r !! c)
                ((r0 :: p0) :: rest)) as [row Hrow].
    { eapply Forall_impl; [exact Hshape|]. intros p [Hp Hr]. simpl.
      destruct (lookup_lt_is_Some_2 p n ltac:(lia)) as [r Hrn]. rewrite Hrn.
      simpl. apply lookup_lt_is_Some_2.
      by rewrite (Forall_lookup_1 _ _ _ _ Hr Hrn). }
    exists row. split; [exact Hrow|].
    apply mapM_Some_1, Forall2_length in Hrow. congruence. }
  set (f := fun n : nat => mapM (g n) (seq 0 W)).
  assert (Hf : forall n, (n < B)%nat ->
    exists example, f n = Some example /\ length example = W /\
      Forall (fun row : list R => length row = k) example).
  { intros n Hn.
    destruct (mapM_seq_run (g n) W) as (example & Hex & Hlen & Hrows).
    { intros c Hc. destruct (Hg n c Hn Hc) as (row & -> & _). eauto. }
    exists example. split; [exact Hex|]. split; [done|].
    apply Forall_lookup. intros c row Hrow.
    assert (Hc : (c < W)%nat) by (rewrite <- Hlen; by eapply lookup_lt_Some).
    destruct (Hg n c Hn Hc) as (row' & Hrun & Hl).
    rewrite (Hrows c row Hrow) in Hrun. by injection Hrun as <-. }
  destruct (mapM_seq_run f B) as (proba & Hproba & Hlen & Hrows).
  { intros n Hn. destruct (Hf n Hn) as (example & -> & _). eauto. }
  exists proba. split; [exact Hproba|]. split; [done|].
  apply Forall_lookup. intros n example Hexample.
  assert (Hn : (n < B)%nat) by (rewrite <- Hlen; by eapply lookup_lt_Some).
  destruct (Hf n Hn) as (example' & Hrun & Hl).
  rewrite (Hrows n example Hexample) in Hrun. by injection Hrun as <-.
Qed.

Section ForwardLoop.
Variable self : PointerGeneratorNetwork.
Variable m : modules.
Variables B C : nat.
Hypothesis Hmod : modules_ok m C.

(** Without targets the loop runs [_max_decoding_steps] rounds. *)
Lemma forward_loop_inference_run (st : state) :
  state_ok self B C st -> (0 < _max_decoding_steps self)%nat ->
  exists out,
    _forward_loop self m st None = Some out /\
    length (predictions out) = B /\
    Forall (fun row : list Z => length row = _max_decoding_steps self)
           (predictions out) /\
    loss out = None.
Proof.
  intros Hok Hpos. unfold _forward_loop, num_decoding_steps.
  destruct (run_loop_run self m B C Hmod None st (_max_decoding_steps self) 0 0
              (initial_loop_state self st) (initial_loop_inv self B C st Hok))
    as (acc & -> & Hinv); [done|].
  cbn [mbind option_bind].
  destruct Hinv as (_ & _ & _ & _ & _ & _ & _ & Hk & Hcols & _).
  destruct (cat_columns_run (step_predictions acc) B (_max_decoding_steps self))
    as (preds & -> & Hlen & Hrows); try done.
  cbn [mbind option_bind]. eexists. split; [reflexivity|]. done.
Qed.

(** With targets [B x (d + 1)] the loop runs [d] rounds. *)
Lemma forward_loop_training_run (st : state) (targets tt : list (list Z)) (d : nat) :
  state_ok self B C st -> (0 < B)%nat -> (0 < d)%nat ->
  length targets = B ->
  Forall (fun r : list Z => length r = S d) targets ->
  target_tokens st = Some tt ->
  length tt = B ->
  Forall (fun target : list Z =>
            length target = S d /\
            Forall (fun c => (0 <= c < Z.of_nat (C + extra_size1 st))%Z)
                   (drop 1 target)) tt ->
  sum_list (row_count <$> tt) <> 0%nat ->
  (_use_coverage self = true -> is_Some (_coverage_loss_weight self)) ->
  exists out,
    _forward_loop self m st (Some targets) = Some out /\
    length (predictions out) = B /\
    Forall (fun row : list Z => length row = d) (predictions out) /\
    is_Some (loss out).
Proof.
  intros Hok HB Hd Hlt Hrows Htt Hltt Hcls Hcount Hweight.
  unfold _forward_loop.
  assert (Hsteps : num_decoding_steps self (Some targets) = d).
  { unfold num_decoding_steps, size1.
    destruct targets as [|r targets]; [simpl in Hlt; lia|].
    rewrite (Forall_inv Hrows). lia. }
  rewrite Hsteps.
  destruct (run_loop_run self m B C Hmod (Some targets) st d 0 0
              (initial_loop_state self st) (initial_loop_inv self B C st Hok))
    as (acc & -> & Hinv).
  { intros t Ht. split; [done|].
    eapply Forall_impl; [exact Hrows|]. intros r Hr. simpl in *. lia. }
  cbn [mbind option_bind].
  destruct Hinv as (_ & Hmask & _ & Htt' & _ & Hpk & Hproba & Hk & Hcols & _ & Hcl).
  destruct (cat_columns_run (step_predictions acc) B d)
    as (preds & -> & Hlen & Hprows); try done.
  cbn [mbind option_bind].
  rewrite (ok_source_mask _ _ _ _ Hok).
  destruct (stack_proba_run (step_proba acc) B (C + extra_size1 st) d)
    as (proba & -> & Hlp & Hshape); try done.
  cbn [mbind option_bind]. rewrite Htt', Htt. cbn [mbind option_bind].
  rewrite (get_loss_spec B (C + extra_size1 st) d proba tt _eps) by (by split).
  rewrite decide_False by done. cbn [mbind option_bind].
  destruct (_use_coverage self) eqn:Hcov.
  - destruct (Hcl eq_refl ltac:(lia)) as [cl ->].
    destruct (Hweight eq_refl) as [w ->]. cbn [mbind option_bind].
    eexists. split; [reflexivity|]. simpl. eauto.
  - cbn [mbind option_bind]. eexists. split; [reflexivity|]. simpl. eauto.
Qed.

End ForwardLoop.

End LoopFacts.

(** * The claims *)

(** ** The extended-vocabulary builder *)

Section PrepareClaims.
Import PrepareRows PrepareRun PrepareEntries.
Variable self : PointerGeneratorNetwork.

Abbreviation V := (_target_vocab_size self).
Abbreviation unk := (_target_unk_index self).

(** C1 (amended).  On a well-formed batch [_prepare] returns, and every
    source entry that holds the unknown-word index is rewritten to
    [V - 1 + r], where [r] is the number of distinct values smaller than the
    entry's token identity in the example's masked identity row (the identity
    at the unknown positions, [0] at all others; source followed by target).
    In training, a target entry that holds the unknown-word index and has the
    identity of such a source entry is returned with the same index. *)
Theorem C1_source_oov_index (h0 : heap) (s si : loc) target tv B S T src sids :
  h0 !! s = Some src -> h0 !! si = Some sids -> stored h0 target tv ->
  well_formed B S T src sids tv ->
  in_range self (all_tokens src tv) (all_ids sids tv) ->
  exists out h ms,
    Prepare._prepare self s si target h0 = Some (out, h) /\
    read_view h (Prepare.modified_source_tokens out) = Some ms /\
    (forall i j d trow irow,
        at2 src i j = Some unk -> at2 sids i j = Some d ->
        all_tokens src tv !! i = Some trow -> all_ids sids tv !! i = Some irow ->
        at2 ms i j
        = Some (V - 1 + Z.of_nat (rank_sorted d (masked_ids self trow irow)))) /\
    (forall tgt tids mt i j j' d,
        tv = Some (tgt, tids) -> read_target h out = Some mt ->
        at2 src i j = Some unk -> at2 sids i j = Some d ->
        at2 tgt i j' = Some unk -> at2 tids i j' = Some d ->
        at2 mt i j' = at2 ms i j).
Proof.
  intros Hs Hsi Hst Hwf Hr.
  destruct (prepare_run self h0 s si target tv B S T src sids Hs Hsi Hst Hwf)
    as (out & news & count & Hrun & _ & _ & Hms & Hmt & _ & Hfin).
  destruct (all_shapes src sids tv B S T Hwf) as [Hts Hds].
  exists out, (h0 ++ news), (slice_cols 0 S (final_tokens self S src sids tv)).
  split; [exact Hrun|]. split; [exact Hms|].
  assert (Hsrc_entry : forall i j d trow irow,
    at2 src i j = Some unk -> at2 sids i j = Some d ->
    all_tokens src tv !! i = Some trow -> all_ids sids tv !! i = Some irow ->
    (j < S)%nat /\
    exists erow, extended self src sids tv !! i = Some erow /\
      erow !! j = Some (V - 1 + Z.of_nat (rank_sorted d (masked_ids self trow irow)))).
  { intros i j d trow irow Hu Hd Htrow Hirow.
    assert (Hj : (j < S)%nat).
    { apply at2_row in Hu as (srow & Hsrow & Hu).
      apply lookup_lt_Some in Hu.
      by rewrite (shape_lookup _ _ _ _ _ (wf_src _ _ _ _ _ _ Hwf) Hsrow) in Hu. }
    split; [exact Hj|].
    pose proof (all_tokens_source src tv i j trow unk Hu Htrow) as Ht.
    pose proof (all_ids_source sids tv i j irow d Hd Hirow) as Hi.
    pose proof (extended_lookup self src sids tv i j trow irow unk d Hr Htrow Hirow Ht Hi)
      as He.
    rewrite Z.eqb_refl in He.
    apply at2_row in He as (erow & Herow & He). eauto. }
  split.
  - intros i j d trow irow Hu Hd Htrow Hirow.
    destruct (Hsrc_entry i j d trow irow Hu Hd Htrow Hirow)
      as (Hj & erow & Herow & He).
    rewrite at2_slice_cols by lia. change (0 + j)%nat with j.
    eapply final_kept; eauto; [apply Hr|].
    eapply (extended_int64 self src sids tv i j); [done | congruence |].
    by rewrite (at2_lookup _ _ _ _ Herow).
  - intros tgt tids mt i j j' d -> Hread Hu Hd Hu' Hd'.
    rewrite Hmt in Hread. injection Hread as <-.
    apply at2_row in Hu as Hu2. destruct Hu2 as (srow & Hsrow & _).
    assert (Hi : (i < B)%nat).
    { apply lookup_lt_Some in Hsrow.
      by rewrite (shape_length _ _ _ (wf_src _ _ _ _ _ _ Hwf)) in Hsrow. }
    destruct (all_lookup_shape src sids (Some (tgt, tids)) B S T i Hwf Hi)
      as (trow & irow & Htrow & Hirow & Hlt & Hli).
    destruct (Hsrc_entry i j d trow irow Hu Hd Htrow Hirow)
      as (Hj & erow & Herow & He).
    assert (Hj' : (j' < T)%nat).
    { apply at2_row in Hu' as (grow & Hgrow & Hu').
      apply lookup_lt_Some in Hu'. destruct Hwf as [_ _ _ _ [Htgt _]].
      by rewrite (shape_lookup _ _ _ _ _ Htgt Hgrow) in Hu'. }
    pose proof (all_tokens_target src tgt tids B S i j' trow unk
                  (wf_src _ _ _ _ _ _ Hwf) Hu' Htrow) as Ht'.
    pose proof (all_ids_target sids tgt tids B S i j' irow d
                  (wf_sids _ _ _ _ _ _ Hwf) Hd' Hirow) as Hi'.
    pose proof (extended_lookup self src sids _ i (S + j') trow irow unk d
                  Hr Htrow Hirow Ht' Hi') as He'.
    rewrite Z.eqb_refl in He'. rewrite (at2_lookup _ _ _ _ Herow) in He'.
    assert (Hx : int64 (V - 1 + Z.of_nat (rank_sorted d (masked_ids self trow irow)))).
    { eapply (extended_int64 self src sids (Some (tgt, tids)) i j); [done | congruence |].
      by rewrite (at2_lookup _ _ _ _ Herow). }
    rewrite !at2_slice_cols by lia. change (0 + j)%nat with j.
    transitivity (Some (V - 1 + Z.of_nat (rank_sorted d (masked_ids self trow irow))));
      [|symmetry].
    + exact (final_kept self S src sids _ i j (S + j') erow _
               (range_unk _ _ _ Hr) Hx Herow Hj He He').
    + exact (final_kept self S src sids _ i j j erow _
               (range_unk _ _ _ Hr) Hx Herow Hj He He).
Qed.

(** C2 (amended).  In training, [_prepare] leaves the source span of every
    example as rewritten, and returns each target entry as follows: when its
    rewritten index exceeds the larger of [V - 1] and the maximum index of
    the example's rewritten source span, the entry becomes the unknown-word
    index; every other target entry keeps its rewritten index. *)
Theorem C2_target_collapse (h0 : heap) (s si t ti : loc) B S T src sids tgt tids :
  h0 !! s = Some src -> h0 !! si = Some sids ->
  h0 !! t = Some tgt -> h0 !! ti = Some tids ->
  well_formed B S T src sids (Some (tgt, tids)) ->
  in_range self (all_tokens src (Some (tgt, tids))) (all_ids sids (Some (tgt, tids))) ->
  exists out h ms mt,
    Prepare._prepare self s si (Some (t, ti)) h0 = Some (out, h) /\
    read_view h (Prepare.modified_source_tokens out) = Some ms /\
    read_target h out = Some mt /\
    forall i erow,
      extended self src sids (Some (tgt, tids)) !! i = Some erow ->
      ms !! i = Some (take S erow) /\
      exists m,
        max_row (take S erow) = Some m /\
        forall j x,
          (j < T)%nat -> erow !! (S + j)%nat = Some x ->
          at2 mt i j = Some (if Z.max (V - 1) m <? x then unk else x).
Proof.
  intros Hs Hsi Ht Hti Hwf Hr.
  destruct (prepare_run self h0 s si (Some (t, ti)) (Some (tgt, tids))
              B S T src sids Hs Hsi (conj Ht Hti) Hwf)
    as (out & news & count & Hrun & _ & _ & Hms & Hmt & _ & Hfin).
  destruct (all_shapes src sids _ B S T Hwf) as [Hts Hds].
  eexists out, (h0 ++ news), _, _.
  split; [exact Hrun|]. split; [exact Hms|]. split; [exact Hmt|].
  intros i erow Herow.
  assert (Hext : shape (extended self src sids (Some (tgt, tids)))
                 = replicate B (S + T)%nat).
  { unfold extended. rewrite shape_extend; congruence. }
  assert (Hint : Forall int64 erow).
  { apply Forall_lookup. intros j x Hx.
    eapply (extended_int64 self src sids _ i j); [done | congruence |].
    by rewrite (at2_lookup _ _ _ _ Herow). }
  split.
  - unfold slice_cols, final_tokens. rewrite !list_lookup_fmap, Herow. simpl.
    rewrite drop_0, Nat.sub_0_r.
    f_equal. apply take_collapsed; [apply Hr | done].
  - destruct (max_row (take S erow)) as [m|] eqn:Hm.
    2:{ pose proof (shape_lookup _ _ _ _ _ Hext Herow) as Hlen.
        destruct Hwf as [_ HS _ _ _].
        destruct erow as [|x erow]; [simpl in Hlen; lia|].
        destruct S; [lia | done]. }
    exists m. split; [done|].
    intros j x Hj Hx.
    rewrite at2_slice_cols by lia.
    apply (final_lookup_training self S src sids tgt tids i (S + j) erow x m);
      try done; [apply Hr|].
    eapply Forall_lookup_1 in Hint; eauto.
Qed.

(** C9.  Running [_prepare] a second time on the same batch, in the store
    left by the first run, returns the same extended source indices, the
    same extended target indices and an extra-slot buffer of the same shape;
    the second run leaves the input tensors and the results of the first run
    as they were. *)
Theorem C9_prepare_rerun (h0 : heap) (s si : loc) target tv B S T src sids :
  h0 !! s = Some src -> h0 !! si = Some sids -> stored h0 target tv ->
  well_formed B S T src sids tv ->
  exists out1 h1 out2 h2,
    Prepare._prepare self s si target h0 = Some (out1, h1) /\
    Prepare._prepare self s si target h1 = Some (out2, h2) /\
    is_Some (read_view h1 (Prepare.modified_source_tokens out1)) /\
    read_view h2 (Prepare.modified_source_tokens out2)
    = read_view h1 (Prepare.modified_source_tokens out1) /\
    read_target h2 out2 = read_target h1 out1 /\
    Prepare.extra_zeros out2 = Prepare.extra_zeros out1 /\
    read_view h2 (Prepare.modified_source_tokens out1)
    = read_view h1 (Prepare.modified_source_tokens out1) /\
    read_target h2 out1 = read_target h1 out1 /\
    h2 !! s = Some src /\ h2 !! si = Some sids /\ stored h2 target tv.
Proof.
  intros Hs Hsi Hst Hwf.
  destruct (prepare_run self h0 s si target tv B S T src sids Hs Hsi Hst Hwf)
    as (out1 & news1 & count1 & Hrun1 & Hc1 & Hz1 & Hms1 & Hmt1 & Hnone & _).
  assert (Hs1 : (h0 ++ news1) !! s = Some src) by (by apply lookup_app_l_Some).
  assert (Hsi1 : (h0 ++ news1) !! si = Some sids) by (by apply lookup_app_l_Some).
  assert (Happ : forall news, stored (h0 ++ news) target tv).
  { intros news. destruct target as [[t ti]|], tv as [[tgt tids]|]; simpl in *;
      try done. destruct Hst. split; by apply lookup_app_l_Some. }
  destruct (prepare_run self (h0 ++ news1) s si target tv B S T src sids
              Hs1 Hsi1 (Happ news1) Hwf)
    as (out2 & news2 & count2 & Hrun2 & Hc2 & Hz2 & Hms2 & Hmt2 & _ & _).
  exists out1, (h0 ++ news1), out2, ((h0 ++ news1) ++ news2).
  split; [exact Hrun1|]. split; [exact Hrun2|].
  split; [by rewrite Hms1|]. split; [by rewrite Hms1, Hms2|].
  split; [by rewrite Hmt1, Hmt2|].
  split; [rewrite Hz1, Hz2; congruence|].
  split; [rewrite Hms1; by apply read_view_app|].
  split.
  { destruct tv as [p|].
    - rewrite Hmt1. unfold read_target in *.
      destruct (Prepare.modified_target_tokens out1) as [v|]; [|done].
      by apply read_view_app.
    - unfold read_target. by rewrite Hnone. }
  split; [by apply lookup_app_l_Some|]. split; [by apply lookup_app_l_Some|].
  rewrite <- app_assoc. apply Happ.
Qed.

End PrepareClaims.

(** The batch of the scenario is well formed and in range. *)
Lemma scenario_well_formed :
  well_formed 1 3 3 [[4; 1; 5]] [[0; 1; 2]] (Some ([[1; 5; 1]], [[1; 2; 3]])).
Proof. split; simpl; try lia; try reflexivity. split; reflexivity. Defined.

Lemma scenario_in_range :
  in_range model10 [[4; 1; 5; 1; 5; 1]] [[0; 1; 2; 1; 2; 3]].
Proof.
  split; unfold small, int64; simpl; try lia;
    repeat (apply Forall_cons; split); try apply Forall_nil; simpl; lia.
Defined.

(** Witness of C1: the scenario of the spec. *)
Lemma C1_source_oov_index_witness :
  exists out h ms,
    Prepare._prepare model10 0 1 (Some (2, 3)%nat) scenario_heap = Some (out, h) /\
    read_view h (Prepare.modified_source_tokens out) = Some ms /\
    at2 ms 0 1
    = Some (10 - 1 + Z.of_nat (rank_sorted 1
              (masked_ids model10 [4; 1; 5; 1; 5; 1] [0; 1; 2; 1; 2; 3]))).
Proof.
  destruct (C1_source_oov_index model10 scenario_heap 0 1 (Some (2, 3)%nat)
              (Some ([[1; 5; 1]], [[1; 2; 3]])) 1 3 3 [[4; 1; 5]] [[0; 1; 2]])
    as (out & h & ms & Hrun & Hms & Hsrc & _).
  - reflexivity.
  - reflexivity.
  - split; reflexivity.
  - exact scenario_well_formed.
  - exact scenario_in_range.
  - exists out, h, ms. split; [exact Hrun|]. split; [exact Hms|].
    apply (Hsrc 0%nat 1%nat 1); reflexivity.
Defined.

(** C1 as stated fails on the scenario of the spec: "zorblax" is the first
    unknown word of the example, its rank by first occurrence is 0, and it is
    rewritten to [V = 10] in the source and in the target, not to
    [V - 1 + 0 = 9]. *)
Lemma C1_scenario_counterexample :
  exists out h ms mt,
    Prepare._prepare model10 0 1 (Some (2, 3)%nat) scenario_heap = Some (out, h) /\
    read_view h (Prepare.modified_source_tokens out) = Some ms /\
    read_target h out = Some mt /\
    at2 [[4; 1; 5]] 0 1 = Some (_target_unk_index model10) /\
    local_unk_rank model10 [4; 1; 5; 1; 5; 1] [0; 1; 2; 1; 2; 3] 1 = 0%nat /\
    at2 ms 0 1 = Some 10 /\
    at2 mt 0 0 = Some 10 /\
    10 <> _target_vocab_size model10 - 1
          + Z.of_nat (local_unk_rank model10 [4; 1; 5; 1; 5; 1] [0; 1; 2; 1; 2; 3] 1).
Proof.
  eexists _, _, _, _.
  split; [vm_compute; reflexivity|].
  split; [vm_compute; reflexivity|].
  split; [vm_compute; reflexivity|].
  repeat split; try (vm_compute; reflexivity).
  vm_compute. discriminate.
Qed.

(** Witness of C2: the scenario of the spec; "fast" is collapsed. *)
Lemma C2_target_collapse_witness :
  exists out h ms mt,
    Prepare._prepare model10 0 1 (Some (2, 3)%nat) scenario_heap = Some (out, h) /\
    read_view h (Prepare.modified_source_tokens out) = Some ms /\
    read_target h out = Some mt /\
    ms !! 0%nat = Some [4; 10; 5] /\
    at2 mt 0 2 = Some 1.
Proof.
  destruct (C2_target_collapse model10 scenario_heap 0 1 2 3 1 3 3
              [[4; 1; 5]] [[0; 1; 2]] [[1; 5; 1]] [[1; 2; 3]])
    as (out & h & ms & mt & Hrun & Hms & Hmt & Hrows).
  - reflexivity.
  - reflexivity.
  - reflexivity.
  - reflexivity.
  - exact scenario_well_formed.
  - exact scenario_in_range.
  - exists out, h, ms, mt. split; [exact Hrun|]. split; [exact Hms|].
    split; [exact Hmt|].
    destruct (Hrows 0%nat [4; 10; 5; 10; 5; 11] eq_refl) as (Hrow & m & Hm & Htgt).
    split; [exact Hrow|].
    injection Hm as <-.
    apply (Htgt 2%nat 11); [lia | reflexivity].
Defined.

(** C2 as stated fails on an example without unknown words: the target
    word 7 exceeds the maximum index 3 of the source span and is kept, not
    collapsed to the unknown-word index, because 7 does not exceed
    [V - 1 = 9]. *)
Lemma C2_known_words_counterexample :
  exists out h ms mt,
    Prepare._prepare model10 0 1 (Some (2, 3)%nat) known_words_heap = Some (out, h) /\
    read_view h (Prepare.modified_source_tokens out) = Some ms /\
    read_target h out = Some mt /\
    extended model10 [[3]] [[0]] (Some ([[7]], [[1]])) = [[3; 7]] /\
    ms = [[3]] /\
    max_row [3] = Some 3 /\
    3 < 7 /\
    at2 mt 0 0 = Some 7 /\
    7 <> _target_unk_index model10.
Proof.
  eexists _, _, _, _.
  split; [vm_compute; reflexivity|].
  split; [vm_compute; reflexivity|].
  split; [vm_compute; reflexivity|].
  repeat split; try (vm_compute; reflexivity); try lia.
  vm_compute. discriminate.
Qed.

(** Witness of C9: the scenario of the spec, run twice. *)
Lemma C9_prepare_rerun_witness :
  exists out1 h1 out2 h2,
    Prepare._prepare model10 0 1 (Some (2, 3)%nat) scenario_heap = Some (out1, h1) /\
    Prepare._prepare model10 0 1 (Some (2, 3)%nat) h1 = Some (out2, h2) /\
    read_view h2 (Prepare.modified_source_tokens out2)
    = read_view h1 (Prepare.modified_source_tokens out1) /\
    read_target h2 out2 = read_target h1 out1 /\
    Prepare.extra_zeros out2 = Prepare.extra_zeros out1.
Proof.
  destruct (C9_prepare_rerun model10 scenario_heap 0 1 (Some (2, 3)%nat)
              (Some ([[1; 5; 1]], [[1; 2; 3]])) 1 3 3 [[4; 1; 5]] [[0; 1; 2]])
    as (out1 & h1 & out2 & h2 & H1 & H2 & _ & Hs & Ht & Hz & _).
  - reflexivity.
  - reflexivity.
  - split; reflexivity.
  - exact scenario_well_formed.
  - exists out1, h1, out2, h2. repeat split; assumption.
Defined.

(** ** The output decoder *)

Section DecodeClaims.
Import Decode DecodeFacts.
Variable self : PointerGeneratorNetwork.
Variable get_token_from_index : Z -> option string.

Abbreviation V := (_target_vocab_size self).

(** C5.  [decode] returns one token list per example of the batch, in
    order (as many as the shortest of the predictions, the metadata and the
    source index rows holds), and the list of example [k] is obtained from
    the predictions, the literal source tokens and the source index row of
    that same example: the top-ranked hypothesis (the sequence itself when
    there is only one), cut before its first end-of-sequence index or taken
    whole when it has none, each index below [V] mapped to its vocabulary
    token and each index [x >= V] to the token in slot [x - V] of the list of
    the distinct literal source tokens at the originally-unknown source
    positions, in order of first occurrence.  [decode] raises only when one
    of these examples has no hypothesis, misses a source token at an unknown
    position, or keeps an index that stands for no token. *)
Theorem C5_decode (predicted_indices : list predictions)
    (metadata : list (list string)) (source_to_target : list (list Z)) :
  match decode self get_token_from_index predicted_indices metadata
          source_to_target with
  | Some all_predicted_tokens =>
      length all_predicted_tokens
      = Nat.min (Nat.min (length predicted_indices) (length metadata))
          (length source_to_target) /\
      forall k p source_tokens row,
        predicted_indices !! k = Some p ->
        metadata !! k = Some source_tokens ->
        source_to_target !! k = Some row ->
        exists tokens,
          all_predicted_tokens !! k = Some tokens /\
          decoded_as self get_token_from_index p source_tokens row tokens
  | None =>
      exists k p source_tokens row,
        predicted_indices !! k = Some p /\
        metadata !! k = Some source_tokens /\
        source_to_target !! k = Some row /\
        undecodable self get_token_from_index p source_tokens row
  end.
Proof.
  unfold decode.
  destruct (mapM _ _) as [all_predicted_tokens|] eqn:Hall.
  - apply mapM_Some_1 in Hall. split.
    + rewrite <- (Forall2_length _ _ _ Hall). by rewrite !length_zip.
    + intros k p source_tokens row Hp Hm Hrow.
      assert (Hk : zip (zip predicted_indices metadata) source_to_target !! k
                   = Some (p, source_tokens, row)).
      { apply lookup_zip_Some. split; [|done]. by apply lookup_zip_Some. }
      destruct (Forall2_lookup_l _ _ _ _ _ Hall Hk) as (tokens & Htokens & Hrun).
      exists tokens. split; [done|].
      pose proof (decode_example_spec self get_token_from_index p source_tokens row)
        as Hspec.
      simpl in Hrun. by rewrite Hrun in Hspec.
  - apply mapM_None_1, Exists_exists in Hall as ([[p source_tokens] row] & Hin & Hrun).
    apply list_elem_of_lookup in Hin as [k Hk].
    apply lookup_zip_Some in Hk as [Hk Hrow].
    apply lookup_zip_Some in Hk as [Hp Hm].
    exists k, p, source_tokens, row. repeat split; try done.
    pose proof (decode_example_spec self get_token_from_index p source_tokens row)
      as Hspec.
    simpl in Hrun. by rewrite Hrun in Hspec.
Qed.

(** C10.  The list [unk_tokens] built inside [decode] holds the literal
    source tokens found at the originally-unknown positions, each distinct
    token once, in the slot given by the number of distinct tokens before
    its first occurrence; the list is not built when a source token is
    missing at an unknown position. *)
Theorem C10_unk_tokens_by_literal_token (source_tokens : list string)
    (source_to_target : list Z) :
  match collect_unk_tokens self 0 source_to_target source_tokens [] with
  | Some unk_tokens =>
      exists l,
        tokens_at_unknown self source_to_target source_tokens = Some l /\
        first_occurrence_order l unk_tokens /\
        length unk_tokens = length (remove_dups l)
  | None => tokens_at_unknown self source_to_target source_tokens = None
  end.
Proof.
  rewrite collect_unk_tokens_spec.
  destruct (tokens_at_unknown self source_to_target source_tokens) as [l|];
    simpl; [|done].
  exists l. split; [done|]. split.
  - apply foldl_append_new_order.
  - apply foldl_append_new_length.
Qed.

End DecodeClaims.

(** Two unknown positions with the same literal token share slot 0; the
    later token "quux" gets slot 1, although it is the third unknown
    position. *)
Example decode_shared_slot :
  Decode.decode_example model10 vocab10 (Decode.Beams [[4; 10; 11; 3; 5]; [4]])
    ["zorblax"; "ran"; "zorblax"; "quux"]%string [1; 5; 1; 1]
  = Some ["the"; "zorblax"; "quux"]%string.
Proof. reflexivity. Qed.

(** ** The evaluation script *)

Section EvaluateClaims.
Import PyStr Evaluate.
Variable re_findall : str -> str -> list str.

(** In single-reference mode the strings appended to [hyps] and [refs] have
    more than one character after stripping: shorter ones were replaced by
    the placeholder. *)
Lemma single_ref_substitutes (is_subwords : bool) (decoded_words : list str)
    (target : target) (hyp : str) (ref : list str) :
  hyp_and_ref re_findall false is_subwords decoded_words target = Some (hyp, ref) ->
  (1 < length (strip hyp))%nat /\
  exists r, ref = [r] /\ (1 < length (strip r))%nat.
Proof.
  unfold hyp_and_ref. simpl.
  destruct (if negb is_subwords then _ else _) as [h|]; simpl; [|done].
  destruct target as [t| |]; simpl; try done.
  intros [= <- <-]. split.
  - destruct (Nat.leb_spec (length (strip h)) 1); [vm_compute; lia | done].
  - eexists. split; [done|].
    destruct (Nat.leb_spec (length (strip t)) 1); [vm_compute; lia | done].
Qed.

(** C8 at the failing input: with several references per example, an empty
    prediction and an empty target are appended to [hyps] and [refs] as
    empty strings, not as the placeholder. *)
Theorem C8_multiple_ref_keeps_empty_strings (is_subwords : bool) :
  evaluate_batch re_findall true is_subwords None [([], TStr [])] [] []
  = Some ([ [] ], [ [ [] ] ])
  /\ [] <> lit "empty".
Proof. split; [reflexivity | discriminate]. Qed.

End EvaluateClaims.

(** ** The final-distribution mixer *)

Section MixerClaims.
Import Decoder MixerFacts.
#[local] Open Scope R_scope.
Variable m : modules.

(** C3.  On the tensors of a decoding step [_get_final_dist] returns, for
    every example, a row of non-negative entries that sums to 1; its entry
    for slot [k] is the softmax mass of [k] scaled by the sigmoid gate (no
    mass for an extra slot) plus the attention weights of all the source
    positions whose token index is [k], added up and scaled by one minus the
    gate, divided by the sum of the row. *)
Theorem C3_final_dist_is_distribution (st : state) (output_projections : list vec) :
  mixer_ok st output_projections ->
  exists final_dist,
    _get_final_dist m st output_projections = Some final_dist /\
    length final_dist = length output_projections /\
    forall n row, final_dist !! n = Some row ->
      Forall (fun x => 0 <= x) row /\
      sum_R row = 1 /\
      exists p_gen proj attn toks,
        p_gen_row m st n = Some p_gen /\ 0 < p_gen < 1 /\
        output_projections !! n = Some proj /\
        attn_scores st !! n = Some attn /\
        tokens st !! n = Some toks /\
        length row = (length proj + extra_size1 st)%nat /\
        forall k, (k < length row)%nat ->
          row !! k = Some (mixed_mass p_gen proj attn toks k
                           / (p_gen + (1 - p_gen)
                                      * sum_R (take (length toks) attn))).
Proof.
  intros Hok. unfold _get_final_dist.
  set (f := fun n : nat => _).
  assert (Hrow : forall n, (n < length output_projections)%nat ->
    exists row, f n = Some row /\
      Forall (fun x => 0 <= x) row /\ sum_R row = 1 /\
      exists p_gen proj attn toks,
        p_gen_row m st n = Some p_gen /\ 0 < p_gen < 1 /\
        output_projections !! n = Some proj /\
        attn_scores st !! n = Some attn /\
        tokens st !! n = Some toks /\
        length row = (length proj + extra_size1 st)%nat /\
        forall k, (k < length row)%nat ->
          row !! k = Some (mixed_mass p_gen proj attn toks k
                           / (p_gen + (1 - p_gen)
                                      * sum_R (take (length toks) attn)))).
  { intros n Hn.
    destruct (Hok n Hn) as ([ac Hac] & [dh Hdh] & [dc Hdc] & [di Hdi] &
      proj & attn & toks & extra & Hproj & Hattn & Htoks & Hextra &
      Hne & Hpos & Hlen & Hidx & Hsize & Hzero).
    assert (Hp : p_gen_row m st n
                 = Some (sigmoid (p_gen_layer m (ac ++ (dh ++ dc) ++ di)))).
    { unfold p_gen_row. by rewrite Hac, Hdh, Hdc, Hdi. }
    set (extra' := if bool_decide (extra_size1 st = 0%nat) then [] else extra).
    assert (Hextra' : extra' = extra).
    { unfold extra'. case_bool_decide as Hz; [|done].
      symmetry. apply nil_length_inv. congruence. }
    destruct (final_dist_row_spec
                (sigmoid (p_gen_layer m (ac ++ (dh ++ dc) ++ di)))
                proj attn toks (negb (bool_decide (extra_size1 st = 0%nat))) extra)
      as (row & Hrun & Hlrow & Hnn & Hsum & Hk); try done.
    { apply sigmoid_range. }
    { intros Hb. apply negb_false_iff, bool_decide_eq_true_1 in Hb.
      apply nil_length_inv. congruence. }
    exists row. split.
    { unfold f. rewrite Hp, Hproj, Hattn, Htoks. simpl.
      case_bool_decide as Hz; simpl.
      - assert (extra = []) as -> by (apply nil_length_inv; congruence).
        exact Hrun.
      - rewrite Hextra. simpl. exact Hrun. }
    split; [done|]. split; [done|].
    eexists _, proj, attn, toks. split; [exact Hp|].
    split; [apply sigmoid_range|]. repeat split; try done.
    by rewrite Hlrow, Hsize. }
  destruct (mapM_is_Some_2 f (seq 0 (length output_projections)))
    as [final_dist Hfinal].
  { apply Forall_forall. intros n Hn. apply elem_of_seq in Hn.
    change (is_Some (f n)).
    destruct (Hrow n ltac:(lia)) as (row & -> & _). eauto. }
  exists final_dist. split; [exact Hfinal|].
  apply mapM_Some_1 in Hfinal.
  split; [by rewrite <- (Forall2_length _ _ _ Hfinal), length_seq|].
  intros n row Hn.
  destruct (Forall2_lookup_r _ _ _ _ _ Hfinal Hn) as (n' & Hn' & Hf).
  apply lookup_seq in Hn' as [-> Hlt]. simpl in Hf.
  destruct (Hrow n Hlt) as (row' & Hf' & Hrest).
  rewrite Hf in Hf'. injection Hf' as <-. exact Hrest.
Qed.

End MixerClaims.

(** Witness of C3: one example, two source positions, no extra slot. *)
Lemma toy_mixer_ok :
  Decoder.mixer_ok (toy_state None None) [[0; 0; 0; 0]%R].
Proof.
  intros n Hn. simpl in Hn. assert (n = 0%nat) as -> by lia.
  repeat split; try (eexists; reflexivity).
  exists [0; 0; 0; 0]%R, [1; 0]%R, [2; 3], [].
  repeat split; try reflexivity; try discriminate; try lia;
    repeat (apply Forall_cons; split); try apply Forall_nil; simpl; try lia; lra.
Defined.

Lemma C3_final_dist_is_distribution_witness :
  exists final_dist,
    Decoder._get_final_dist (toy_modules toy_attention) (toy_state None None)
      [[0; 0; 0; 0]%R] = Some final_dist /\
    length final_dist = 1%nat.
Proof.
  destruct (C3_final_dist_is_distribution (toy_modules toy_attention)
              (toy_state None None) [[0; 0; 0; 0]%R] toy_mixer_ok)
    as (final_dist & Hrun & Hlen & _).
  exists final_dist. split; [exact Hrun | exact Hlen].
Defined.

(** ** The loss *)

Section LossClaims.
Import Decoder MixerFacts LossFacts.
#[local] Open Scope R_scope.

(** C7.  For stacked distributions [N x C x d] and targets [N x (d + 1)],
    [_get_loss] is the sum, over the examples and the steps [t] whose target
    at position [t + 1] is not the padding index 0, of minus the logarithm
    of (the probability of that target at step [t] plus epsilon), divided by
    the number of such targets; there is no loss value when no target
    counts. *)
Theorem C7_get_loss (N C d : nat) (proba : list (list vec))
    (targets : list (list Z)) (eps : R) :
  loss_ok N C d proba targets ->
  _get_loss proba targets eps
  = if decide (sum_list (row_count <$> targets) = 0%nat) then None
    else Some (nll_spec proba targets eps).
Proof. apply get_loss_spec. Qed.

End LossClaims.

(** Witness of C7: one example, two classes, one step, target class 1. *)
Lemma C7_get_loss_witness :
  Decoder._get_loss [[[/ 2]; [/ 2]]]%R [[2; 1]] Decoder._eps
  = Some (Decoder.nll_spec [[[/ 2]; [/ 2]]]%R [[2; 1]] Decoder._eps).
Proof.
  apply (C7_get_loss 1 2 1 [[[/ 2]; [/ 2]]]%R [[2; 1]] Decoder._eps).
  split.
  - reflexivity.
  - reflexivity.
  - apply Forall_cons. split; [split; [reflexivity|] | apply Forall_nil_2].
    repeat (apply Forall_cons; split; [reflexivity|]). apply Forall_nil_2.
  - apply Forall_cons. split; [split; [reflexivity|] | apply Forall_nil_2].
    simpl. repeat (apply Forall_cons; split; [lia|]). apply Forall_nil_2.
Defined.

(** ** The decoding loop *)

Section CoverageClaims.
Import Decoder MixerFacts LossFacts CoverageFacts.
#[local] Open Scope R_scope.
Variable self : PointerGeneratorNetwork.
Variable m : modules.

Abbreviation on := (with_coverage true self).
Abbreviation off := (with_coverage false self).

(** C4 (amended).  When the forward loss computation with coverage returns,
    its loss is the negative log-likelihood of the distributions of that run
    plus the coverage-loss weight times the coverage term.  When moreover
    the attention scores of the model do not depend on the coverage
    argument, the computation without coverage returns the same predictions
    and exactly that negative log-likelihood as its loss. *)
Theorem C4_coverage_term_additive (st_on st_off : state)
    (targets : list (list Z)) (out_on : output) :
  same_except_coverage st_on st_off ->
  _forward_loop on m st_on (Some targets) = Some out_on ->
  exists primary_on weight term,
    primary_loss on m st_on targets = Some primary_on /\
    coverage_term on m st_on targets = Some term /\
    _coverage_loss_weight self = Some weight /\
    loss out_on = Some (primary_on + weight * term) /\
    (attention_ignores_coverage m ->
     exists out_off,
       _forward_loop off m st_off (Some targets) = Some out_off /\
       predictions out_off = predictions out_on /\
       loss out_off = Some primary_on).
Proof.
  intros Hsame Hrun. unfold _forward_loop, primary_loss, coverage_term in *.
  change (num_decoding_steps on (Some targets))
    with (num_decoding_steps off (Some targets)) in *.
  set (steps := num_decoding_steps off (Some targets)) in *.
  destruct (run_loop on m (Some targets) (seq 0 steps) (initial_loop_state on st_on))
    as [acc|] eqn:Hloop; [|done]. simpl in Hrun.
  destruct (cat_columns (step_predictions acc)) as [preds|] eqn:Hcat; [|done].
  simpl in Hrun.
  destruct (stack_proba _ (step_proba acc)) as [proba|] eqn:Hstack; [|done].
  simpl in Hrun.
  destruct (target_tokens (ls_state acc)) as [tt|] eqn:Htt; [|done].
  simpl in Hrun.
  destruct (_get_loss proba tt _eps) as [primary|] eqn:Hloss; [|done].
  simpl in Hrun.
  destruct (coverage_loss acc) as [cl|] eqn:Hcl; [|done]. simpl in Hrun.
  destruct (_coverage_loss_weight self) as [w|] eqn:Hw; [|done]. simpl in Hrun.
  injection Hrun as <-.
  exists primary, w, (mean ((fun x => x / INR steps) <$> cl)).
  cbn [mbind option_bind]. rewrite Hstack. cbn [mbind option_bind].
  rewrite Htt. cbn [mbind option_bind]. rewrite Hcl. cbn [mbind option_bind].
  repeat split; try done.
  intros Hignore.
  destruct (run_loop_rel self m Hignore (Some targets) (seq 0 steps)
              (initial_loop_state on st_on) (initial_loop_state off st_off) acc)
    as (acc' & Hloop' & Hst & _ & Hproba & Hpred); [|done|].
  { unfold initial_loop_state, same_run. simpl.
    destruct Hsame as (He & Hm & Hrest). rewrite Hm. repeat split; try done.
    all: apply Hrest. }
  rewrite Hloop'. cbn [mbind option_bind].
  rewrite <- Hpred, Hcat. cbn [mbind option_bind].
  destruct Hsame as (_ & Hm & _). rewrite <- Hm, <- Hproba, Hstack.
  cbn [mbind option_bind].
  destruct Hst as (_ & _ & _ & _ & _ & _ & Htt' & _).
  rewrite <- Htt', Htt. cbn [mbind option_bind]. rewrite Hloss.
  cbn [mbind option_bind _use_coverage with_coverage].
  eexists. repeat split.
Qed.

End CoverageClaims.

(** Witness of C4: one example, two decoding steps, an attention that does
    not look at the coverage. *)
Lemma C4_coverage_term_additive_witness :
  exists out_on out_off primary_on,
    Decoder._forward_loop (Decoder.with_coverage true (model4 false))
      (toy_modules const_attention)
      (Decoder._init_decoder_state (Decoder.with_coverage true (model4 false))
         (toy_modules const_attention) (toy_state None (Some [[2; 2; 2]])))
      (Some [[2; 2; 2]]) = Some out_on /\
    Decoder._forward_loop (Decoder.with_coverage false (model4 false))
      (toy_modules const_attention)
      (Decoder._init_decoder_state (Decoder.with_coverage false (model4 false))
         (toy_modules const_attention) (toy_state None (Some [[2; 2; 2]])))
      (Some [[2; 2; 2]]) = Some out_off /\
    Decoder.predictions out_off = Decoder.predictions out_on /\
    Decoder.loss out_off = Some primary_on.
Proof.
  assert (exists out_on,
    Decoder._forward_loop (Decoder.with_coverage true (model4 false))
      (toy_modules const_attention)
      (Decoder._init_decoder_state (Decoder.with_coverage true (model4 false))
         (toy_modules const_attention) (toy_state None (Some [[2; 2; 2]])))
      (Some [[2; 2; 2]]) = Some out_on) as [out_on Hon].
  { eexists. vm_compute. reflexivity. }
  destruct (C4_coverage_term_additive (model4 false) (toy_modules const_attention)
              (Decoder._init_decoder_state
                 (Decoder.with_coverage true (model4 false))
                 (toy_modules const_attention)
                 (toy_state None (Some [[2; 2; 2]])))
              (Decoder._init_decoder_state
                   (Decoder.with_coverage false (model4 false))
                   (toy_modules const_attention)
                   (toy_state None (Some [[2; 2; 2]])))
              [[2; 2; 2]] out_on)
    as (primary_on & weight & term & _ & _ & _ & _ & Hoff).
  - repeat split; reflexivity.
  - exact Hon.
  - destruct Hoff as (out_off & Hrun & Hpred & Hloss).
    + intros h e mask c. reflexivity.
    + exists out_on, out_off, primary_on. repeat split; assumption.
Defined.

(** The epsilon of the loss is positive. *)
Lemma eps_pos : (0 < Decoder._eps)%R.
Proof.
  unfold Decoder._eps. apply Rinv_0_lt_compat, pow_lt. lra.
Qed.

(** Evaluate a concrete run, leaving the real-number operations alone. *)
Ltac eval_run :=
  cbv -[exp ln Rplus Rmult Rinv Ropp Rminus Rdiv INR IZR Rmin Req_dec_T
        Decoder._eps].

(** C4 as stated fails for an attention that looks at the coverage: with
    coverage the second step attends to the second source position, so the
    negative log-likelihood itself changes; the loss without coverage is not
    the loss with coverage minus the weighted coverage term. *)
Lemma C4_coverage_changes_primary_loss_counterexample :
  exists out_off out_on loss_off loss_on weight term,
    Decoder._forward_loop (model4 false) (toy_modules toy_attention)
      (Decoder._init_decoder_state (model4 false) (toy_modules toy_attention)
         (toy_state None (Some [[2; 2; 2]])))
      (Some [[2; 2; 2]]) = Some out_off /\
    Decoder._forward_loop (model4 true) (toy_modules toy_attention)
      (Decoder._init_decoder_state (model4 true) (toy_modules toy_attention)
         (toy_state None (Some [[2; 2; 2]])))
      (Some [[2; 2; 2]]) = Some out_on /\
    Decoder.loss out_off = Some loss_off /\
    Decoder.loss out_on = Some loss_on /\
    _coverage_loss_weight (model4 true) = Some weight /\
    Decoder.coverage_term (model4 true) (toy_modules toy_attention)
      (Decoder._init_decoder_state (model4 true) (toy_modules toy_attention)
         (toy_state None (Some [[2; 2; 2]])))
      [[2; 2; 2]] = Some term /\
    loss_off <> (loss_on - weight * term)%R.
Proof.
  eexists _, _, _, _, _, _.
  split; [eval_run; reflexivity|].
  split.
  { eval_run.
    destruct (Req_dec_T 0 0) as [_|H]; [|lra].
    destruct (Req_dec_T (0 + 1) 0) as [H|_]; [lra|].
    reflexivity. }
  split; [reflexivity|]. split; [reflexivity|]. split; [reflexivity|].
  split.
  { eval_run.
    destruct (Req_dec_T 0 0) as [_|H]; [|lra].
    destruct (Req_dec_T (0 + 1) 0) as [H|_]; [lra|].
    reflexivity. }
  rewrite Ropp_0, exp_0.
  repeat match goal with
         | |- context [ln (?x + Decoder._eps)] =>
             first [ progress replace x with (5 / 8)%R by field
                   | progress replace x with (1 / 8)%R by field ]
         end.
  pose proof eps_pos as Heps.
  assert (Hlt : (ln (1 / 8 + Decoder._eps) < ln (5 / 8 + Decoder._eps))%R)
    by (apply ln_increasing; lra).
  simpl INR. intros Heq. lra.
Qed.

Section LoopClaims.
Import Decoder LoopFacts.
Variable self : PointerGeneratorNetwork.
Variable m : modules.
Variables B C : nat.

(** C6 (amended).  The decoding loop has no exit other than its step count,
    and that count is [max_decoding_steps] only when no targets are given.
    On a well-shaped state the loop without targets returns, for every
    example, a predicted sequence of exactly [max_decoding_steps] indices,
    whatever indices are predicted (the end-of-sequence index included).
    With targets of [d + 1] columns it returns predicted sequences of
    exactly [d] indices and a loss, whatever [max_decoding_steps] is. *)
Theorem C6_decoding_steps (st : state) :
  modules_ok m C ->
  state_ok self B C st ->
  ((0 < _max_decoding_steps self)%nat ->
   exists out,
     _forward_loop self m st None = Some out /\
     length (predictions out) = B /\
     Forall (fun row : list Z => length row = _max_decoding_steps self)
            (predictions out) /\
     loss out = None) /\
  (forall (targets tt : list (list Z)) (d : nat),
     (0 < B)%nat -> (0 < d)%nat ->
     length targets = B ->
     Forall (fun r : list Z => length r = S d) targets ->
     target_tokens st = Some tt ->
     length tt = B ->
     Forall (fun target : list Z =>
               length target = S d /\
               Forall (fun c => (0 <= c < Z.of_nat (C + extra_size1 st))%Z)
                      (drop 1 target)) tt ->
     sum_list (row_count <$> tt) <> 0%nat ->
     (_use_coverage self = true -> is_Some (_coverage_loss_weight self)) ->
     exists out,
       _forward_loop self m st (Some targets) = Some out /\
       length (predictions out) = B /\
       Forall (fun row : list Z => length row = d) (predictions out) /\
       is_Some (loss out)).
Proof.
  intros Hmod Hok. split.
  - intros Hpos. by apply (forward_loop_inference_run self m B C Hmod).
  - intros targets tt d HB Hd Hlt Hrows Htt Hltt Hcls Hcount Hweight.
    by apply (forward_loop_training_run self m B C Hmod st targets tt d).
Qed.

End LoopClaims.

(** The modules of the examples return well-shaped tensors. *)
Lemma toy_modules_ok : Decoder.modules_ok (toy_modules mask_attention) 4.
Proof. split; reflexivity. Defined.

(** The state of the examples is well shaped. *)
Lemma toy_state_ok (tt : option (list (list Z))) :
  Decoder.state_ok (model4 false) 1 4 (toy_state None tt).
Proof.
  split; try reflexivity.
  - split; [reflexivity|]. repeat constructor.
  - repeat constructor; simpl; lia.
  - discriminate.
Defined.

(** Witness of C6: with [max_decoding_steps = 5] the loop without targets
    predicts 5 indices; with targets of 3 columns it predicts 2. *)
Lemma C6_decoding_steps_witness :
  (exists out,
     Decoder._forward_loop (model4 false) (toy_modules mask_attention)
       (toy_state None (Some [[2; 2; 2]])) None = Some out /\
     Forall (fun row : list Z => length row = 5%nat) (Decoder.predictions out)) /\
  (exists out,
     Decoder._forward_loop (model4 false) (toy_modules mask_attention)
       (toy_state None (Some [[2; 2; 2]])) (Some [[2; 2; 2]]) = Some out /\
     Forall (fun row : list Z => length row = 2%nat) (Decoder.predictions out)).
Proof.
  destruct (C6_decoding_steps (model4 false) (toy_modules mask_attention) 1 4
              (toy_state None (Some [[2; 2; 2]]))
              toy_modules_ok (toy_state_ok _)) as [Hinf Htrain].
  split.
  - destruct Hinf as (out & Hrun & _ & Hrows & _); [simpl; lia|].
    exists out. split; assumption.
  - destruct (Htrain [[2; 2; 2]] [[2; 2; 2]] 2%nat) as (out & Hrun & _ & Hrows & _).
    + lia.
    + lia.
    + reflexivity.
    + repeat constructor.
    + reflexivity.
    + reflexivity.
    + repeat constructor; simpl; lia.
    + vm_compute. discriminate.
    + discriminate.
    + exists out. split; assumption.
Defined.

(** C6 as stated fails when targets are given: with [max_decoding_steps = 5]
    and targets of 8 columns the loop runs 7 rounds and predicts 7
    indices, none of them the end-of-sequence index. *)
Lemma C6_targets_exceed_cap_counterexample :
  exists out row,
    Decoder._forward_loop (model4 false) (toy_modules mask_attention)
      (toy_state None (Some [[2; 2; 2; 2; 2; 2; 2; 2]]))
      (Some [[2; 2; 2; 2; 2; 2; 2; 2]]) = Some out /\
    Decoder.predictions out = [row] /\
    _max_decoding_steps (model4 false) = 5%nat /\
    length row = 7%nat /\
    _end_index (model4 false) ∉ row.
Proof.
  eexists _, _.
  split; [vm_compute; reflexivity|].
  split; [reflexivity|]. split; [reflexivity|]. split; [reflexivity|].
  intros Hin. repeat (apply elem_of_cons in Hin as [Hin|Hin]; [discriminate|]).
  by apply elem_of_nil in Hin.
Qed.

(** * Further properties of the code *)

(** ** [get_batches] *)

Module BatchFacts.
Import PyStr Evaluate EvaluateLoop.

Section WithReader.
Variable lower : str -> str.

Abbreviation normalise :=
  (fun p : str * target => (lower (strip (fst p)), snd p)).

Lemma get_batches_from_concat (items : list (str * target)) (batch_size : Z)
    (batch : list (str * target)) :
  concat (get_batches_from lower items batch_size batch)
  = batch ++ (normalise <$> items).
Proof.
  revert batch. induction items as [|[source target] items IH]; intros batch.
  - simpl. destruct batch; simpl; by rewrite ?app_nil_r.
  - simpl. case_match.
    + simpl. rewrite IH. simpl. by rewrite <- app_assoc.
    + rewrite IH. by rewrite <- app_assoc.
Qed.

Lemma get_batches_from_sizes (items : list (str * target)) (batch_size : Z)
    (batch : list (str * target)) :
  (0 < batch_size)%Z -> (Z.of_nat (length batch) < batch_size)%Z ->
  exists full final,
    get_batches_from lower items batch_size batch = full ++ final /\
    Forall (fun b => Z.of_nat (length b) = batch_size) full /\
    (final = [] \/
     exists b, final = [b] /\ b <> [] /\ (Z.of_nat (length b) < batch_size)%Z).
Proof.
  intros Hpos. revert batch.
  induction items as [|[source target] items IH]; intros batch Hlt.
  - exists []. simpl. destruct batch as [|x batch].
    + exists []. repeat split; auto.
    + exists [x :: batch]. repeat split; auto. right. by exists (x :: batch).
  - simpl. case_match eqn:Hfull.
    + apply Z.eqb_eq in Hfull.
      destruct (IH []) as (full & final & -> & Hall & Hfinal); [simpl; lia|].
      exists ((batch ++ [(lower (strip source), target)]) :: full), final.
      repeat split; auto.
    + apply Z.eqb_neq in Hfull. apply IH.
      rewrite length_app in *. simpl in *. lia.
Qed.

Lemma get_batches_from_unbounded (items : list (str * target))
    (batch_size : Z) (batch : list (str * target)) :
  (batch_size <= Z.of_nat (length batch))%Z ->
  get_batches_from lower items batch_size batch
  = match batch ++ (normalise <$> items) with
    | [] => []
    | all => [all]
    end.
Proof.
  revert batch. induction items as [|[source target] items IH]; intros batch Hle.
  - simpl. rewrite app_nil_r. by destruct batch.
  - simpl. case_match eqn:Hfull.
    + apply Z.eqb_eq in Hfull. rewrite length_app in Hfull. simpl in Hfull. lia.
    + rewrite IH by (rewrite length_app; simpl; lia).
      by rewrite <- app_assoc.
Qed.

Lemma get_batches_from_nonempty (items : list (str * target)) (batch_size : Z)
    (batch : list (str * target)) :
  Forall (fun b => b <> []) (get_batches_from lower items batch_size batch).
Proof.
  revert batch. induction items as [|[source target] items IH]; intros batch.
  - simpl. destruct batch; repeat constructor. done.
  - simpl. case_match; [|apply IH].
    constructor; [|apply IH]. by destruct batch.
Qed.

End WithReader.

End BatchFacts.

(** ** Python strings *)

Module PyStrFacts.
Import PyStr.

Lemma elem_of_replace_from (old new : str) (skip : nat) (s : str) (x : N) :
  x ∈ replace_from old new skip s -> x ∈ s \/ x ∈ new.
Proof.
  revert skip. induction s as [|c s IH]; intros skip; simpl.
  - destruct old; [auto|]. intros H0. by apply elem_of_nil in H0.
  - destruct skip as [|k].
    + destruct old as [|o old'].
      * rewrite elem_of_app, !elem_of_cons. intros [H|[H|H]]; auto.
        apply IH in H as [H|H]; auto.
      * destruct (startswith (o :: old') (c :: s)).
        -- rewrite elem_of_app. intros [H|H]; auto.
           apply IH in H as [H|H]; auto. left. by right.
        -- rewrite !elem_of_cons. intros [H|H]; auto.
           apply IH in H as [H|H]; auto.
    + intros H. apply IH in H as [H|H]; auto. left. by right.
Qed.

Lemma replace_char_absent (c : N) (new s : str) :
  c ∉ new -> c ∉ replace [c] new s.
Proof.
  intros Hnew. unfold replace. induction s as [|x s IH]; simpl.
  - apply not_elem_of_nil.
  - destruct (bool_decide (c = x)) eqn:Hcx; simpl.
    + rewrite elem_of_app. tauto.
    + apply bool_decide_eq_false in Hcx. rewrite elem_of_cons. tauto.
Qed.

Lemma elem_of_lstrip (s : str) (x : N) : x ∈ lstrip s -> x ∈ s.
Proof.
  induction s as [|c s IH]; simpl; [done|].
  destruct (isspace c); [|done]. intros H. right. auto.
Qed.

Lemma elem_of_strip (s : str) (x : N) : x ∈ strip s -> x ∈ s.
Proof.
  unfold strip. rewrite elem_of_reverse. intros H.
  apply elem_of_lstrip in H. rewrite elem_of_reverse in H.
  by apply elem_of_lstrip.
Qed.

Lemma elem_of_join (sep : str) (l : list str) (x : N) :
  x ∈ join sep l -> x ∈ sep \/ exists a, a ∈ l /\ x ∈ a.
Proof.
  induction l as [|a l IH]; simpl.
  - intros H. by apply elem_of_nil in H.
  - destruct l as [|b l].
    + intros H. right. exists a. split; [left|done].
    + rewrite !elem_of_app. intros [H|[H|H]]; auto.
      * right. exists a. split; [left|done].
      * apply IH in H as [H|(a' & Ha' & H)]; auto.
        right. exists a'. split; [by right|done].
Qed.

Lemma startswith_length (p s : str) :
  startswith p s = true -> (length p <= length s)%nat.
Proof.
  revert s. induction p as [|a p IH]; intros [|b s]; simpl; try done; try lia.
  intros H. apply andb_true_iff in H as [_ H]. apply IH in H. lia.
Qed.

Lemma length_replace_from (old new : str) (skip : nat) (s : str) :
  (length new <= length old)%nat -> old <> [] -> (skip <= length s)%nat ->
  (length (replace_from old new skip s) + skip <= length s)%nat.
Proof.
  intros Hnew Hold. revert skip.
  induction s as [|c s IH]; intros skip Hskip; simpl in *.
  - destruct old; [done|]. simpl. lia.
  - destruct skip as [|k].
    + destruct old as [|o old']; [done|].
      case_match eqn:Hstart.
      * apply andb_true_iff in Hstart as [_ Hstart].
        apply startswith_length in Hstart.
        rewrite length_app. simpl in *.
        specialize (IH (length old' - 0)%nat ltac:(lia)). lia.
      * simpl. specialize (IH 0%nat ltac:(lia)). lia.
    + specialize (IH k ltac:(lia)). lia.
Qed.

Lemma length_replace (old new s : str) :
  (length new <= length old)%nat -> old <> [] ->
  (length (replace old new s) <= length s)%nat.
Proof.
  intros Hnew Hold. unfold replace.
  pose proof (length_replace_from old new 0 s Hnew Hold ltac:(lia)). lia.
Qed.

End PyStrFacts.

(** ** The hypothesis and reference strings *)

Module EvaluateFacts.
Import PyStr Evaluate EvaluateLoop PyStrFacts BatchFacts.

Section WithRegex.
Variable re_findall : str -> str -> list str.

Lemma foldl_replace_length (f : N -> str * str) (chars : list N) (text : str) :
  (forall ch, (length (snd (f ch)) <= length (fst (f ch)))%nat /\ fst (f ch) <> []) ->
  (length (foldl (fun text ch => replace (fst (f ch)) (snd (f ch)) text) text chars)
   <= length text)%nat.
Proof.
  intros Hf. revert text. induction chars as [|ch chars IH]; intros text; simpl.
  - lia.
  - etrans; [apply IH|]. apply length_replace; apply Hf.
Qed.

Lemma unspace_run (f : str) :
  (2 <= length f)%nat ->
  exists g, unspace f = Some g /\ (length g <= length f)%nat.
Proof.
  intros Hf. unfold unspace.
  destruct f as [|a f]; [simpl in Hf; lia|]. simpl head. cbn [mbind option_bind].
  destruct (last (a :: f)) as [z|] eqn:Hlast.
  2:{ apply last_None in Hlast. done. }
  cbn [mbind option_bind]. eexists. split; [reflexivity|].
  simpl. rewrite length_app, length_take, length_drop. simpl in *. lia.
Qed.

Lemma unspace_matches (matches : list str) (text : str) :
  Forall (fun f : str => (2 <= length f)%nat) matches ->
  exists out,
    foldl (fun text f => text ← text; g ← unspace f; Some (replace f g text))
          (Some text) matches = Some out /\
    (length out <= length text)%nat.
Proof.
  intros Hm. revert text. induction Hm as [|f matches Hf Hm IH]; intros text.
  - exists text. split; [done|lia].
  - simpl. destruct (unspace_run f Hf) as (g & -> & Hg). simpl.
    destruct (IH (replace f g text)) as (out & -> & Hout).
    exists out. split; [done|].
    etrans; [exact Hout|]. apply length_replace; [done|].
    intros ->. simpl in Hf. lia.
Qed.

(** [detokenize] does not raise and does not lengthen the text. *)
Lemma detokenize_run (text : str) :
  (forall r t, Forall (fun f : str => (2 <= length f)%nat) (re_findall r t)) ->
  exists out,
    detokenize re_findall text = Some out /\ (length out <= length text)%nat.
Proof.
  intros Hre. unfold detokenize.
  set (t1 := foldl _ text _).
  set (t2 := foldl _ t1 _).
  assert (H1 : (length t1 <= length text)%nat).
  { apply (foldl_replace_length (fun ch => (lit " " ++ [ch], [ch]))).
    intros ch. split; [simpl; lia|done]. }
  assert (H2 : (length t2 <= length t1)%nat).
  { apply (foldl_replace_length (fun ch => ([ch] ++ lit " ", [ch]))).
    intros ch. split; [simpl; lia|done]. }
  cbn [foldl]. cbn [mbind option_bind].
  match goal with
  | |- context [re_findall ?r t2] =>
      destruct (unspace_matches (re_findall r t2) t2 (Hre r t2)) as (t3 & -> & H3)
  end.
  cbn [mbind option_bind].
  match goal with
  | |- context [re_findall ?r t3] =>
      destruct (unspace_matches (re_findall r t3) t3 (Hre r t3)) as (t4 & -> & H4)
  end.
  exists t4. split; [done|lia].
Qed.

Lemma escape_clean (w : str) (c : N) :
  c ∈ lit "<>" ->
  c ∉ strip (replace (lit ">") (lit "&gt;") (replace (lit "<") (lit "&lt;") w)).
Proof.
  intros Hc Hin. apply elem_of_strip in Hin.
  apply elem_of_cons in Hc as [->|Hc].
  - apply elem_of_replace_from in Hin as [Hin|Hin].
    + revert Hin. apply replace_char_absent. vm_compute.
      intros H. repeat (apply elem_of_cons in H as [H|H]; [done|]).
      by apply elem_of_nil in H.
    + vm_compute in Hin.
      repeat (apply elem_of_cons in Hin as [Hin|Hin]; [done|]).
      by apply elem_of_nil in Hin.
  - apply elem_of_cons in Hc as [->|Hc]; [|by apply elem_of_nil in Hc].
    revert Hin. apply replace_char_absent. vm_compute.
    intros H. repeat (apply elem_of_cons in H as [H|H]; [done|]).
    by apply elem_of_nil in H.
Qed.

Lemma join_escaped_clean (l : list str) (c : N) :
  c ∈ lit "<>" ->
  c ∉ join (lit " ")
        ((fun w : str =>
            strip (replace (lit ">") (lit "&gt;") (replace (lit "<") (lit "&lt;") w)))
           <$> l).
Proof.
  intros Hc Hin. apply elem_of_join in Hin as [Hin|(a & Ha & Hin)].
  - vm_compute in Hin, Hc.
    apply elem_of_cons in Hin as [->|Hin]; [|by apply elem_of_nil in Hin].
    repeat (apply elem_of_cons in Hc as [Hc|Hc]; [done|]).
    by apply elem_of_nil in Hc.
  - apply list_elem_of_fmap in Ha as (w & -> & _).
    by apply (escape_clean w c).
Qed.

Lemma evaluate_batch_grows (is_multiple_ref is_subwords : bool)
    (max_count : option nat) (outputs : list (list str * target))
    (hyps : list str) (refs : list (list str)) hyps' refs' :
  evaluate_batch re_findall is_multiple_ref is_subwords max_count outputs hyps refs
  = Some (hyps', refs') ->
  exists new_hyps new_refs,
    hyps' = hyps ++ new_hyps /\ refs' = refs ++ new_refs /\
    length new_refs = length new_hyps /\
    length new_hyps
    = match max_count with
      | Some (S n) => (length outputs `min` (1 `max` (S n - length hyps)))%nat
      | _ => length outputs
      end.
Proof.
  revert hyps refs hyps' refs'.
  induction outputs as [|[decoded_words target] outputs IH];
    intros hyps refs hyps' refs'; cbn [evaluate_batch].
  - intros [= <- <-]. exists [], []. rewrite !app_nil_r.
    repeat split. by destruct max_count as [[|n]|].
  - destruct (hyp_and_ref _ _ _ _ _) as [[hyp ref]|]; [|done].
    cbn [mbind option_bind].
    assert (Hrec : forall hs rs,
      evaluate_batch re_findall is_multiple_ref is_subwords max_count outputs
        (hyps ++ [hyp]) (refs ++ [ref]) = Some (hs, rs) ->
      exists new_hyps new_refs,
        hs = hyps ++ new_hyps /\ rs = refs ++ new_refs /\
        length new_refs = length new_hyps /\
        length new_hyps
        = S (match max_count with
             | Some (S n) =>
                 (length outputs `min` (1 `max` (S n - length (hyps ++ [hyp]))))%nat
             | _ => length outputs
             end)).
    { intros hs rs Hrun.
      apply IH in Hrun as (nh & nr & -> & -> & Hlen & Hcount).
      exists (hyp :: nh), (ref :: nr). rewrite <- !app_assoc. simpl.
      repeat split; auto. }
    destruct max_count as [[|n]|].
    + intros Hrun. apply Hrec in Hrun as (nh & nr & -> & -> & Hlen & Hcount).
      exists nh, nr. repeat split; auto.
    + destruct (S n <=? length (hyps ++ [hyp]))%nat eqn:Hreached.
      * intros [= <- <-]. exists [hyp], [ref]. repeat split.
        apply Nat.leb_le in Hreached. rewrite length_app in Hreached.
        cbn [length] in *. lia.
      * intros Hrun. apply Hrec in Hrun as (nh & nr & -> & -> & Hlen & Hcount).
        exists nh, nr. repeat split; auto.
        apply Nat.leb_gt in Hreached. rewrite length_app in *.
        cbn [length] in *. lia.
    + intros Hrun. apply Hrec in Hrun as (nh & nr & -> & -> & Hlen & Hcount).
      exists nh, nr. repeat split; auto.
Qed.

End WithRegex.

End EvaluateFacts.

(** ** Properties of [evaluate.py] *)

Section EvaluateProperties.
Import PyStr Evaluate EvaluateLoop PyStrFacts BatchFacts EvaluateFacts.
Variable lower : str -> str.
Variable re_findall : str -> str -> list str.
Variable predict_batch_json : list (str * target) -> list (list str).

(** X1.  The batches of [get_batches], put end to end, are the pairs of the
    reader in their order, each source stripped and lower-cased: no example
    is lost, repeated or moved, whatever the batch size. *)
Theorem X1_get_batches_concat (items : list (str * target)) (batch_size : Z) :
  concat (get_batches lower items batch_size)
  = (fun p : str * target => (lower (strip (fst p)), snd p)) <$> items.
Proof. apply (get_batches_from_concat lower items batch_size []). Qed.

(** X2.  For a positive batch size, every batch of [get_batches] but the
    last holds exactly [batch_size] examples, and the last one, when it is
    not full, holds at least one example and fewer than [batch_size]: an
    empty batch is never yielded. *)
Theorem X2_get_batches_sizes (items : list (str * target)) (batch_size : Z) :
  (0 < batch_size)%Z ->
  exists full final,
    get_batches lower items batch_size = full ++ final /\
    Forall (fun b => Z.of_nat (length b) = batch_size) full /\
    (final = [] \/
     exists b, final = [b] /\ b <> [] /\ (Z.of_nat (length b) < batch_size)%Z).
Proof.
  intros Hpos. apply get_batches_from_sizes; [done|]. simpl. lia.
Qed.

(** X3.  For a batch size of zero or below, the test [len(batch) ==
    batch_size] never holds: [get_batches] yields all the examples as one
    batch (and nothing for an empty test set). *)
Theorem X3_get_batches_nonpositive (items : list (str * target)) (batch_size : Z) :
  (batch_size <= 0)%Z ->
  get_batches lower items batch_size
  = match (fun p : str * target => (lower (strip (fst p)), snd p)) <$> items with
    | [] => []
    | all => [all]
    end.
Proof.
  intros Hle. unfold get_batches.
  rewrite get_batches_from_unbounded by (simpl; lia). done.
Qed.

(** X4.  The loop over the outputs of one batch appends to [hyps] and
    [refs] (what they held stays in place) one entry per output, and with a
    positive [max_count] stops after the append that brings [hyps] to
    [max_count] entries; when [hyps] already holds [max_count] entries or
    more, it still appends one entry before it stops. *)
Theorem X4_evaluate_batch_count (is_multiple_ref is_subwords : bool)
    (max_count : option nat) (outputs : list (list str * target))
    (hyps : list str) (refs : list (list str)) hyps' refs' :
  evaluate_batch re_findall is_multiple_ref is_subwords max_count outputs hyps refs
  = Some (hyps', refs') ->
  exists new_hyps new_refs,
    hyps' = hyps ++ new_hyps /\ refs' = refs ++ new_refs /\
    length new_refs = length new_hyps /\
    length new_hyps
    = match max_count with
      | Some (S n) => (length outputs `min` (1 `max` (S n - length hyps)))%nat
      | _ => length outputs
      end.
Proof. apply evaluate_batch_grows. Qed.

(** X5.  [max_count] does not end the evaluation: the [break] leaves the
    loop over one batch only, so when the predictor returns an output per
    example, [hyps] ends with at least one entry for every batch of the test
    set, whatever [max_count] is. *)
Theorem X5_evaluate_visits_every_batch (items : list (str * target))
    (is_multiple_ref is_subwords : bool) (max_count : option nat)
    (batch_size : Z) hyps refs :
  (forall batch, length (predict_batch_json batch) = length batch) ->
  evaluate lower re_findall predict_batch_json items is_multiple_ref is_subwords
    max_count batch_size = Some (hyps, refs) ->
  (length (get_batches lower items batch_size) <= length hyps)%nat /\
  length refs = length hyps.
Proof.
  intros Hpredict. unfold evaluate.
  pose proof (get_batches_from_nonempty lower items batch_size []) as Hne.
  fold (get_batches lower items batch_size) in Hne.
  generalize dependent (get_batches lower items batch_size). intros batches Hne.
  assert (Hgen : forall (h0 : list str) (r0 : list (list str)),
    length r0 = length h0 ->
    foldl (fun acc batch =>
             '(hyps, refs) ← acc;
             evaluate_batch re_findall is_multiple_ref is_subwords max_count
               (zip (predict_batch_json batch) (snd <$> batch)) hyps refs)
          (Some (h0, r0)) batches = Some (hyps, refs) ->
    (length h0 + length batches <= length hyps)%nat /\ length refs = length hyps).
  { induction Hne as [|batch batches Hbatch Hne IH]; intros h0 r0 Hlen; simpl.
    - intros [= <- <-]. split; [lia|done].
    - destruct (evaluate_batch _ _ _ _ _ h0 r0) as [[h1 r1]|] eqn:Hrun.
      2:{ intros Hnone. exfalso. clear -Hnone.
          induction batches as [|b bs IHb]; simpl in Hnone; [done|auto]. }
      apply evaluate_batch_grows in Hrun as (nh & nr & -> & -> & Hn & Hcount).
      intros Hrest. apply IH in Hrest as [Hle Heq].
      2:{ rewrite !length_app. lia. }
      split; [|done]. rewrite length_app in Hle.
      assert (0 < length nh)%nat; [|lia].
      rewrite Hcount, length_zip, length_fmap, Hpredict.
      destruct batch; [done|]. cbn [length]. destruct max_count as [[|n]|]; lia. }
  intros Hrun. apply Hgen in Hrun; [|done]. simpl in Hrun. done.
Qed.

(** X6.  With several references per example, neither the hypothesis nor a
    reference appended by [evaluate] holds a character [<] or [>]: both are
    replaced by their entities in every sentence. *)
Theorem X6_multiple_ref_escapes (is_subwords : bool) (decoded_words : list str)
    (target : target) (hyp : str) (ref : list str) :
  hyp_and_ref re_findall true is_subwords decoded_words target = Some (hyp, ref) ->
  Forall (fun s : str => Forall (fun c => c ∉ lit "<>") s) (hyp :: ref).
Proof.
  unfold hyp_and_ref. simpl negb. cbv iota.
  destruct (match target with TStr _ => _ | TList _ => _ | TOther => _ end)
    as [reference_sents|]; [|done].
  cbn [mbind option_bind]. intros [= <- <-].
  repeat constructor; apply Forall_forall; intros c Hin Hc;
    by apply join_escaped_clean in Hin.
Qed.

(** X7.  When every match the regular-expression search returns has at
    least two characters (the two patterns of [detokenize] match five or
    more), [detokenize] does not raise and its result is never longer than
    the text. *)
Theorem X7_detokenize_never_longer (text : str) :
  (forall r t, Forall (fun f : str => (2 <= length f)%nat) (re_findall r t)) ->
  exists out,
    detokenize re_findall text = Some out /\ (length out <= length text)%nat.
Proof. apply detokenize_run. Qed.

End EvaluateProperties.

(** A search that finds the whole text, when it is long enough. *)
Lemma whole_text_findall_length (r t : PyStr.str) :
  Forall (fun f : PyStr.str => (2 <= length f)%nat)
    ((fun _ text : PyStr.str => if (5 <=? length text)%nat then [text] else []) r t).
Proof.
  cbv beta. destruct (Nat.leb_spec 5 (length t)); repeat constructor. lia.
Defined.

Lemma X2_get_batches_sizes_witness :
  exists full final,
    EvaluateLoop.get_batches (fun s => s)
      [(PyStr.lit " a", Evaluate.TOther); (PyStr.lit "b", Evaluate.TOther);
       (PyStr.lit "c ", Evaluate.TOther)] 2
    = full ++ final /\
    Forall (fun b => Z.of_nat (length b) = 2) full /\
    (final = [] \/
     exists b, final = [b] /\ b <> [] /\ (Z.of_nat (length b) < 2)%Z).
Proof. apply X2_get_batches_sizes. lia. Defined.

Lemma X3_get_batches_nonpositive_witness :
  EvaluateLoop.get_batches (fun s => s)
    [(PyStr.lit " a", Evaluate.TOther); (PyStr.lit "b", Evaluate.TOther)] 0
  = [[(PyStr.lit "a", Evaluate.TOther); (PyStr.lit "b", Evaluate.TOther)]].
Proof. apply (X3_get_batches_nonpositive (fun s => s)). lia. Defined.

Lemma X4_evaluate_batch_count_witness :
  exists new_hyps new_refs,
    [PyStr.lit "a"; PyStr.lit "b"; PyStr.lit "c"]
    = [PyStr.lit "a"; PyStr.lit "b"] ++ new_hyps /\
    [[PyStr.lit "x"]; [PyStr.lit "y"]; [PyStr.lit "z"]]
    = [[PyStr.lit "x"]; [PyStr.lit "y"]] ++ new_refs /\
    length new_refs = length new_hyps /\
    length new_hyps = 1%nat.
Proof.
  apply (X4_evaluate_batch_count (fun _ _ => []) true false (Some 1%nat)
           [([PyStr.lit "c"], Evaluate.TStr (PyStr.lit "z"));
            ([PyStr.lit "d"], Evaluate.TStr (PyStr.lit "w"))]).
  reflexivity.
Defined.

Lemma X5_evaluate_visits_every_batch_witness :
  exists hyps refs,
    EvaluateLoop.evaluate (fun s => s) (fun _ _ => [])
      (fun batch => (fun p : PyStr.str * Evaluate.target => [fst p]) <$> batch)
      [(PyStr.lit "a", Evaluate.TStr (PyStr.lit "x"));
       (PyStr.lit "b", Evaluate.TStr (PyStr.lit "y"));
       (PyStr.lit "c", Evaluate.TStr (PyStr.lit "z"))]
      true false (Some 1%nat) 1 = Some (hyps, refs) /\
    (3 <= length hyps)%nat.
Proof.
  eexists _, _. split; [reflexivity|].
  refine (proj1 (X5_evaluate_visits_every_batch (fun s => s) (fun _ _ => [])
            (fun batch => (fun p : PyStr.str * Evaluate.target => [fst p]) <$> batch)
            [(PyStr.lit "a", Evaluate.TStr (PyStr.lit "x"));
             (PyStr.lit "b", Evaluate.TStr (PyStr.lit "y"));
             (PyStr.lit "c", Evaluate.TStr (PyStr.lit "z"))]
            true false (Some 1%nat) 1 _ _ _ _)).
  - intros batch. apply length_fmap.
  - reflexivity.
Defined.

Lemma X6_multiple_ref_escapes_witness :
  Forall (fun s : PyStr.str => Forall (fun c => c ∉ PyStr.lit "<>") s)
    [PyStr.lit "a &lt; b"; PyStr.lit "&gt;"].
Proof.
  apply (X6_multiple_ref_escapes (fun _ _ => []) false
           [PyStr.lit "a"; PyStr.lit "<"; PyStr.lit "b"]
           (Evaluate.TStr (PyStr.lit ">"))).
  reflexivity.
Defined.

Lemma X7_detokenize_never_longer_witness :
  exists out,
    Evaluate.detokenize
      (fun _ text : PyStr.str => if (5 <=? length text)%nat then [text] else [])
      (PyStr.lit "a , b") = Some out /\
    (length out <= 5)%nat.
Proof.
  apply (X7_detokenize_never_longer _ (PyStr.lit "a , b")).
  apply whole_text_findall_length.
Defined.

(** ** [_prepare] on the batches of a data reader *)

Module PrepareBoundsFacts.
Import PrepareRows PrepareRun PrepareEntries PrepareBatch.

Section WithModel.
Variable self : PointerGeneratorNetwork.

Abbreviation V := (_target_vocab_size self).
Abbreviation unk := (_target_unk_index self).

Lemma reader_in_range (tokens ids : tensor) :
  reader_values self tokens ids -> in_range self tokens ids.
Proof.
  intros [HV Hunk Ht Hi Hw]. split; try done.
  - unfold small. lia.
  - unfold int64. lia.
  - eapply Forall_impl; [exact Ht|]. intros r Hr.
    eapply Forall_impl; [exact Hr|]. intros t Ht'. unfold small. simpl in *. lia.
  - eapply Forall_impl; [exact Hi|]. intros r Hr.
    eapply Forall_impl; [exact Hr|]. intros d Hd. unfold int64. simpl in *. lia.
Qed.

Lemma rank_sorted_zero (r : row) :
  Forall (fun y => 0 <= y) r -> rank_sorted 0 r = 0%nat.
Proof.
  intros Hr. unfold rank_sorted.
  replace (filter (fun y => y < 0) r) with (@nil Z); [done|].
  induction Hr as [|y r Hy Hr IH]; [done|].
  rewrite filter_cons_False by lia. done.
Qed.

Lemma masked_ids_nonneg (tokens ids : row) :
  Forall (fun d => 0 <= d) ids -> Forall (fun y => 0 <= y) (masked_ids self tokens ids).
Proof.
  intros Hids. apply Forall_lookup. intros j y. unfold masked_ids.
  rewrite lookup_zip_with. intros Hy.
  destruct (tokens !! j) as [t|]; [|done]. simpl in Hy.
  destruct (ids !! j) as [d|] eqn:Hd; [|done]. simpl in Hy.
  injection Hy as <-. eapply Forall_lookup_1 in Hids; [|exact Hd].
  destruct (t =? unk); simpl in *; lia.
Qed.

Lemma unk_token_nums_lookup (tokens ids : row) j t d :
  Forall int64 ids ->
  tokens !! j = Some t -> ids !! j = Some d ->
  unk_token_nums_row self tokens ids !! j
  = Some (Z.of_nat (rank_sorted (if t =? unk then d else 0)
                      (masked_ids self tokens ids))).
Proof.
  intros Hint Ht Hd. unfold unk_token_nums_row.
  rewrite unk_only_masked by done.
  apply UniqueFacts.unique_inverse_lookup. by apply masked_ids_lookup.
Qed.

Lemma max_all_bound (t : tensor) (count : Z) i j (r : row) n :
  max_all t = Some count -> t !! i = Some r -> r !! j = Some n -> n <= count.
Proof.
  unfold max_all. intros Hmax Hr Hn.
  apply max_row_spec in Hmax as [_ Hle].
  eapply Forall_forall in Hle; [exact Hle|].
  apply list_elem_of_In, in_concat. exists r. split; apply list_elem_of_In.
  - by eapply list_elem_of_lookup_2.
  - by eapply list_elem_of_lookup_2.
Qed.

Lemma max_all_elem (t : tensor) (count : Z) :
  max_all t = Some count -> exists i j r, t !! i = Some r /\ r !! j = Some count.
Proof.
  unfold max_all. intros Hmax. apply max_row_spec in Hmax as [Hin _].
  apply list_elem_of_In, in_concat in Hin as (r & Hr & Hin).
  apply list_elem_of_In, list_elem_of_lookup in Hr as [i Hr].
  apply list_elem_of_In, list_elem_of_lookup in Hin as [j Hin].
  eauto.
Qed.

Lemma unique_inverse_nonneg (r : row) : Forall (fun n => 0 <= n) (snd (unique r)).
Proof. unfold unique. simpl. apply Forall_fmap, Forall_true. intros x. simpl. lia. Qed.

Lemma prepare_values_run (src sids : tensor) tv B S T :
  well_formed B S T src sids tv ->
  exists count,
    max_all (slice_cols 0 S
               (zip_with (unk_token_nums_row self)
                  (all_tokens src tv) (all_ids sids tv))) = Some count /\
    Prepare.prepare_values self src sids tv
    = Some ((B, Z.to_nat count),
            slice_cols 0 S (final_tokens self S src sids tv),
            match tv with
            | Some _ => Some (slice_cols S (S + T) (final_tokens self S src sids tv))
            | None => None
            end) /\
    shape (final_tokens self S src sids tv) = replicate B (S + T)%nat.
Proof.
  intros Hwf. unfold Prepare.prepare_values.
  set (h0 := [src; sids] ++ match tv with Some (t, ti) => [t; ti] | None => [] end).
  destruct (prepare_run self h0 0 1
              (match tv with Some _ => Some (2%nat, 3%nat) | None => None end)
              tv B S T src sids)
    as (out & news & count & Hrun & Hc & Hz & Hms & Hmt & Hnone & Hshape);
    [done | done | by destruct tv as [[tgt tids]|] | done |].
  exists count. split; [done|]. split; [|done].
  rewrite Hrun. cbn [mbind option_bind].
  rewrite Hms. cbn [mbind option_bind]. rewrite Hz.
  unfold read_target in Hmt.
  destruct (Prepare.modified_target_tokens out) as [v|] eqn:Hv.
  - cbn [mbind option_bind] in Hmt. rewrite Hmt.
    destruct tv as [[tgt tids]|]; [done|]. by specialize (Hnone eq_refl).
  - by destruct tv as [[tgt tids]|].
Qed.

Section WithBatch.
Variables (src sids : tensor) (tv : option (tensor * tensor)) (B S T : nat).
Variable count : Z.
Hypothesis Hwf : well_formed B S T src sids tv.
Hypothesis Hrv : reader_values self (all_tokens src tv) (all_ids sids tv).
Hypothesis Hcount :
  max_all (slice_cols 0 S
             (zip_with (unk_token_nums_row self)
                (all_tokens src tv) (all_ids sids tv))) = Some count.

Lemma count_nonneg : 0 <= count.
Proof.
  apply max_all_elem in Hcount as (i & j & r & Hr & Hj).
  unfold slice_cols in Hr. rewrite list_lookup_fmap in Hr.
  destruct (zip_with _ _ _ !! i) as [nrow|] eqn:Hn; [|done].
  injection Hr as <-. rewrite lookup_zip_with in Hn.
  destruct (all_tokens src tv !! i) as [trow|]; [|done]. simpl in Hn.
  destruct (all_ids sids tv !! i) as [irow|]; [|done]. injection Hn as <-.
  apply lookup_take_Some in Hj as [Hj _]. rewrite lookup_drop in Hj.
  pose proof (unique_inverse_nonneg (unk_only_row self trow irow)) as Hnn.
  eapply Forall_lookup_1 in Hnn; [|exact Hj]. done.
Qed.

Lemma row_values i trow irow j t d :
  all_tokens src tv !! i = Some trow -> all_ids sids tv !! i = Some irow ->
  trow !! j = Some t -> irow !! j = Some d ->
  0 <= t < V /\ 0 <= d < 2 ^ 63 /\ Forall int64 irow /\
  Forall (fun y => 0 <= y) (masked_ids self trow irow).
Proof.
  intros Htrow Hirow Ht Hd. destruct Hrv as [HV Hunk Htok Hids Hw].
  eapply Forall_lookup_1 in Htok; [|exact Htrow].
  eapply Forall_lookup_1 in Hids; [|exact Hirow].
  split; [by eapply Forall_lookup_1 in Htok; eauto|].
  split; [by eapply Forall_lookup_1 in Hids; eauto|].
  split.
  - eapply Forall_impl; [exact Hids|]. intros y Hy. unfold int64. simpl in *. lia.
  - apply masked_ids_nonneg. eapply Forall_impl; [exact Hids|].
    intros y Hy. simpl in *. lia.
Qed.

(** The rewritten index of an entry, before the collapse of lines 127-132. *)
Lemma extended_entry i trow irow j t d :
  all_tokens src tv !! i = Some trow -> all_ids sids tv !! i = Some irow ->
  trow !! j = Some t -> irow !! j = Some d ->
  exists erow e,
    extended self src sids tv !! i = Some erow /\ erow !! j = Some e /\
    int64 e /\ 0 <= e /\
    e = (if t =? unk then V - 1 else t)
        + Z.of_nat (rank_sorted (if t =? unk then d else 0)
                      (masked_ids self trow irow)) /\
    (t <> unk -> e = t) /\
    ((j < S)%nat -> e <= V - 1 + count).
Proof.
  intros Htrow Hirow Ht Hd.
  pose proof (reader_in_range _ _ Hrv) as Hr.
  destruct (row_values i trow irow j t d Htrow Hirow Ht Hd)
    as (Htv & Hdv & Hint & Hmask).
  destruct (all_shapes src sids tv B S T Hwf) as [Hts Hds].
  pose proof (extended_lookup self src sids tv i j trow irow t d Hr Htrow Hirow Ht Hd)
    as He.
  pose proof (extended_int64 self src sids tv i j _ Hr ltac:(congruence) He) as Hi64.
  apply at2_row in He as (erow & Herow & He).
  eexists erow, _. split; [done|]. split; [exact He|]. split; [done|].
  pose proof (reader_V _ _ _ Hrv) as HV.
  split; [destruct (t =? unk); lia|]. split; [done|]. split.
  - intros Hne. destruct (Z.eqb_spec t unk); [done|].
    rewrite rank_sorted_zero by done. lia.
  - intros Hj.
    assert (Z.of_nat (rank_sorted (if t =? unk then d else 0)
                        (masked_ids self trow irow)) <= count).
    { eapply (max_all_bound _ count i j); [exact Hcount| |].
      - unfold slice_cols. rewrite list_lookup_fmap, lookup_zip_with, Htrow, Hirow.
        reflexivity.
      - rewrite lookup_take_lt by lia. rewrite lookup_drop. simpl.
        by apply unk_token_nums_lookup. }
    destruct (t =? unk); lia.
Qed.

(** The entry [_prepare] returns. *)
Lemma final_entry i trow irow j t d :
  all_tokens src tv !! i = Some trow -> all_ids sids tv !! i = Some irow ->
  trow !! j = Some t -> irow !! j = Some d ->
  exists x,
    at2 (final_tokens self S src sids tv) i j = Some x /\
    0 <= x < V + count /\
    (t <> unk -> x = t) /\
    ((j < S)%nat -> t = unk ->
     x = V - 1 + Z.of_nat (rank_sorted d (masked_ids self trow irow))).
Proof.
  intros Htrow Hirow Ht Hd.
  pose proof (reader_in_range _ _ Hrv) as Hr.
  pose proof (reader_V _ _ _ Hrv) as HV.
  pose proof (reader_unk _ _ _ Hrv) as Hunk.
  pose proof count_nonneg as Hc.
  destruct (extended_entry i trow irow j t d Htrow Hirow Ht Hd)
    as (erow & e & Herow & He & Hi64 & He0 & Heq & Hknown & Hsrc).
  destruct (decide (j < S)%nat) as [Hj|Hj].
  - exists e. split.
    { eapply final_kept; eauto. apply Hr. }
    split; [specialize (Hsrc Hj); lia|]. split; [done|].
    intros _ ->. rewrite Z.eqb_refl in Heq. done.
  - assert (Htv : exists tgt tids, tv = Some (tgt, tids)).
    { destruct (all_shapes src sids tv B S T Hwf) as [Hts _].
      pose proof (shape_lookup _ _ _ _ _ Hts Htrow) as Hl.
      apply lookup_lt_Some in Ht.
      pose proof (wf_target _ _ _ _ _ _ Hwf) as HT.
      destruct tv as [[tgt tids]|]; [eauto|]. simpl in HT. lia. }
    destruct (all_shapes src sids _ B S T Hwf) as [Hts Hds].
    assert (Hlen : length erow = (S + T)%nat).
    { assert (Hext : shape (extended self src sids tv) = replicate B (S + T)%nat).
      { unfold extended. rewrite shape_extend; congruence. }
      exact (shape_lookup _ _ _ _ _ Hext Herow). }
    pose proof (wf_S _ _ _ _ _ _ Hwf) as HS.
    destruct (max_row (take S erow)) as [m|] eqn:Hm.
    2:{ destruct erow as [|y erow]; [simpl in Hlen; lia|].
        destruct S; [lia | done]. }
    assert (Hmle : m <= V - 1 + count).
    { apply max_row_spec in Hm as [Hin _].
      apply list_elem_of_lookup in Hin as [j0 Hj0].
      apply lookup_take_Some in Hj0 as [Hj0 Hlt].
      assert (is_Some (trow !! j0)) as [t0 Ht0].
      { apply lookup_lt_is_Some.
        rewrite (shape_lookup _ _ _ _ _ Hts Htrow). lia. }
      assert (is_Some (irow !! j0)) as [d0 Hd0].
      { apply lookup_lt_is_Some.
        rewrite (shape_lookup _ _ _ _ _ Hds Hirow). lia. }
      destruct (extended_entry i trow irow j0 t0 d0 Htrow Hirow Ht0 Hd0)
        as (erow' & e0 & Herow' & He0' & _ & _ & _ & _ & Hsrc0).
      rewrite Herow in Herow'. injection Herow' as <-.
      rewrite Hj0 in He0'. injection He0' as <-. by apply Hsrc0. }
    destruct (row_values i trow irow j t d Htrow Hirow Ht Hd) as (Htv' & _).
    destruct Htv as (tgt & tids & Htv). rewrite Htv in Herow |- *.
    eexists. split.
    { apply (final_lookup_training self S src sids tgt tids i j erow e m);
        try done. apply Hr. }
    split; [|split].
    + destruct (Z.ltb_spec (Z.max (V - 1) m) e); lia.
    + intros Hne. rewrite (Hknown Hne).
      destruct (Z.ltb_spec (Z.max (V - 1) m) t); [lia|done].
    + intros Hlt. lia.
Qed.

(** Every entry [_prepare] returns is an index of the combined vocabulary. *)
Lemma final_all_bounds i (frow : row) j x :
  shape (final_tokens self S src sids tv) = replicate B (S + T)%nat ->
  final_tokens self S src sids tv !! i = Some frow -> frow !! j = Some x ->
  0 <= x < V + count.
Proof.
  intros Hshape Hfrow Hx.
  assert (Hi : (i < B)%nat).
  { apply lookup_lt_Some in Hfrow. by rewrite (shape_length _ _ _ Hshape) in Hfrow. }
  assert (Hj : (j < S + T)%nat).
  { apply lookup_lt_Some in Hx. by rewrite (shape_lookup _ _ _ _ _ Hshape Hfrow) in Hx. }
  destruct (all_lookup_shape src sids tv B S T i Hwf Hi)
    as (trow & irow & Htrow & Hirow & Hlt & Hli).
  assert (is_Some (trow !! j)) as [t Ht] by (apply lookup_lt_is_Some; lia).
  assert (is_Some (irow !! j)) as [d Hd] by (apply lookup_lt_is_Some; lia).
  destruct (final_entry i trow irow j t d Htrow Hirow Ht Hd) as (x' & Hat & Hb & _).
  rewrite (at2_lookup _ _ _ _ Hfrow), Hx in Hat. by injection Hat as <-.
Qed.

End WithBatch.

Lemma shape_slice_cols_from (t : tensor) n w lo hi :
  shape t = replicate n w -> (hi <= w)%nat ->
  shape (slice_cols lo hi t) = replicate n (hi - lo)%nat.
Proof.
  intros Hshape Hhi. unfold shape, slice_cols in *. rewrite <- list_fmap_compose.
  apply list_eq. intros i. rewrite list_lookup_fmap.
  assert (Hn : length t = n) by (by rewrite <- (length_fmap length), Hshape, length_replicate).
  destruct (t !! i) as [r|] eqn:Hr; simpl.
  - assert (length r = w).
    { assert (Hl : (length <$> t) !! i = Some (length r)) by (by rewrite list_lookup_fmap, Hr).
      rewrite Hshape in Hl. by apply lookup_replicate in Hl as [? _]. }
    rewrite lookup_replicate_2 by (apply lookup_lt_Some in Hr; lia).
    rewrite length_take, length_drop. f_equal. lia.
  - symmetry. apply lookup_replicate_None. apply lookup_ge_None in Hr. lia.
Qed.

Lemma slice_cols_bounds (P : Z -> Prop) (t : tensor) lo hi :
  Forall (Forall P) t -> Forall (Forall P) (slice_cols lo hi t).
Proof.
  intros Ht. unfold slice_cols. apply Forall_fmap.
  eapply Forall_impl; [exact Ht|]. intros r Hr. simpl.
  apply Forall_take, Forall_drop, Hr.
Qed.

Lemma final_row_same (S : nat) (src sids : tensor) tv (src' sids' : tensor) tv' i :
  same_example i src sids tv src' sids' tv' ->
  final_tokens self S src sids tv !! i = final_tokens self S src' sids' tv' !! i.
Proof.
  intros (Hs & Hi & Ht).
  assert (He : extended self src sids tv !! i = extended self src' sids' tv' !! i).
  { unfold extended. rewrite !lookup_zip_with.
    assert (all_tokens src tv !! i = all_tokens src' tv' !! i) as ->.
    { destruct tv as [[tgt tids]|], tv' as [[tgt' tids']|]; simpl; try done.
      destruct Ht as [Ht _]. by rewrite !lookup_zip_with, Hs, Ht. }
    assert (all_ids sids tv !! i = all_ids sids' tv' !! i) as ->; [|done].
    destruct tv as [[tgt tids]|], tv' as [[tgt' tids']|]; simpl; try done.
    destruct Ht as [_ Ht]. by rewrite !lookup_zip_with, Hi, Ht. }
  unfold final_tokens.
  destruct tv as [[tgt tids]|], tv' as [[tgt' tids']|]; try done.
  by rewrite !list_lookup_fmap, He.
Qed.

End WithModel.

End PrepareBoundsFacts.

(** ** Properties of [_prepare] *)

Section PrepareProperties.
Import PrepareRows PrepareRun PrepareEntries PrepareBatch PrepareBoundsFacts.
Variable self : PointerGeneratorNetwork.

Abbreviation V := (_target_vocab_size self).
Abbreviation unk := (_target_unk_index self).

(** X8.  On a well-formed batch of vocabulary indices and non-negative
    token identities, [_prepare] returns an extra-slot buffer [B x E] and
    index tensors of the shapes of its inputs whose entries all lie in
    [0, V + E): every returned source and target index is a position of the
    combined distribution of [V + E] entries. *)
Theorem X8_prepare_indices_in_range (src sids : tensor) tv B S T :
  well_formed B S T src sids tv ->
  reader_values self (all_tokens src tv) (all_ids sids tv) ->
  exists E ms mt,
    Prepare.prepare_values self src sids tv = Some ((B, E), ms, mt) /\
    shape ms = replicate B S /\
    Forall (Forall (fun x => 0 <= x < V + Z.of_nat E)) ms /\
    match tv with
    | Some _ =>
        exists t, mt = Some t /\ shape t = replicate B T /\
                  Forall (Forall (fun x => 0 <= x < V + Z.of_nat E)) t
    | None => mt = None
    end.
Proof.
  intros Hwf Hrv.
  destruct (prepare_values_run self src sids tv B S T Hwf)
    as (count & Hcount & Hrun & Hshape).
  pose proof (count_nonneg self src sids tv S count Hcount) as Hc.
  assert (Hall : Forall (Forall (fun x => 0 <= x < V + Z.of_nat (Z.to_nat count)))
                   (final_tokens self S src sids tv)).
  { apply Forall_lookup. intros i frow Hfrow.
    apply Forall_lookup. intros j x Hx. rewrite Z2Nat.id by done.
    exact (final_all_bounds self src sids tv B S T count Hwf Hrv Hcount
             i frow j x Hshape Hfrow Hx). }
  eexists _, _, _. split; [exact Hrun|]. split; [|split].
  - rewrite (shape_slice_cols_from _ B (S + T)) by (done || lia).
    by rewrite Nat.sub_0_r.
  - by apply slice_cols_bounds.
  - destruct tv as [[tgt tids]|]; [|done].
    eexists. split; [done|]. split; [|by apply slice_cols_bounds].
    rewrite (shape_slice_cols_from _ B (S + T)) by (done || lia).
    f_equal. lia.
Qed.

(** X9.  On such a batch [_prepare] returns every entry that is not the
    unknown-word index unchanged, in the source and in the target: only the
    unknown words are rewritten. *)
Theorem X9_prepare_keeps_known_words (src sids : tensor) tv B S T :
  well_formed B S T src sids tv ->
  reader_values self (all_tokens src tv) (all_ids sids tv) ->
  exists extra ms mt,
    Prepare.prepare_values self src sids tv = Some (extra, ms, mt) /\
    (forall i j t, at2 src i j = Some t -> t <> unk -> at2 ms i j = Some t) /\
    (forall tgt tids i j t,
        tv = Some (tgt, tids) -> at2 tgt i j = Some t -> t <> unk ->
        exists mtt, mt = Some mtt /\ at2 mtt i j = Some t).
Proof.
  intros Hwf Hrv.
  destruct (prepare_values_run self src sids tv B S T Hwf)
    as (count & Hcount & Hrun & Hshape).
  eexists _, _, _. split; [exact Hrun|].
  assert (Hrows : forall (a : tensor) w i j t,
    shape a = replicate B w -> at2 a i j = Some t ->
    (j < w)%nat /\
    exists trow irow, all_tokens src tv !! i = Some trow /\
                      all_ids sids tv !! i = Some irow /\
                      length irow = (S + T)%nat).
  { intros a w i j t Ha Hat. apply at2_row in Hat as (arow & Harow & Hat).
    split.
    { apply lookup_lt_Some in Hat. by rewrite (shape_lookup _ _ _ _ _ Ha Harow) in Hat. }
    assert (Hi : (i < B)%nat).
    { apply lookup_lt_Some in Harow. by rewrite (shape_length _ _ _ Ha) in Harow. }
    destruct (all_lookup_shape src sids tv B S T i Hwf Hi)
      as (trow & irow & Htrow & Hirow & _ & Hli). eauto. }
  split.
  - intros i j t Hat Hne.
    destruct (Hrows src S i j t (wf_src _ _ _ _ _ _ Hwf) Hat)
      as (Hj & trow & irow & Htrow & Hirow & Hli).
    pose proof (all_tokens_source src tv i j trow t Hat Htrow) as Ht.
    assert (is_Some (irow !! j)) as [d Hd] by (apply lookup_lt_is_Some; lia).
    destruct (final_entry self src sids tv B S T count Hwf Hrv Hcount
                i trow irow j t d Htrow Hirow Ht Hd) as (x & Hx & _ & Hkeep & _).
    rewrite at2_slice_cols by lia. change (0 + j)%nat with j.
    by rewrite Hx, (Hkeep Hne).
  - intros tgt tids i j t -> Hat Hne.
    destruct (wf_target _ _ _ _ _ _ Hwf) as [Htgt Htids].
    destruct (Hrows tgt T i j t Htgt Hat)
      as (Hj & trow & irow & Htrow & Hirow & Hli).
    pose proof (all_tokens_target src tgt tids B S i j trow t
                  (wf_src _ _ _ _ _ _ Hwf) Hat Htrow) as Ht.
    assert (is_Some (irow !! (S + j)%nat)) as [d Hd]
      by (apply lookup_lt_is_Some; lia).
    destruct (final_entry self src sids _ B S T count Hwf Hrv Hcount
                i trow irow (S + j) t d Htrow Hirow Ht Hd) as (x & Hx & _ & Hkeep & _).
    eexists. split; [done|].
    rewrite at2_slice_cols by lia. by rewrite Hx, (Hkeep Hne).
Qed.

(** X10.  The indices [_prepare] returns for an example depend on that
    example only: two well-formed batches with the same widths that hold the
    same example at position [i] get the same source and target rows at
    position [i], whatever their other examples are. *)
Theorem X10_prepare_examples_independent (src sids : tensor) tv
    (src' sids' : tensor) tv' B B' S T i :
  well_formed B S T src sids tv ->
  well_formed B' S T src' sids' tv' ->
  same_example i src sids tv src' sids' tv' ->
  exists E ms mt E' ms' mt',
    Prepare.prepare_values self src sids tv = Some ((B, E), ms, mt) /\
    Prepare.prepare_values self src' sids' tv' = Some ((B', E'), ms', mt') /\
    ms !! i = ms' !! i /\
    (fun t : tensor => t !! i) <$> mt = (fun t : tensor => t !! i) <$> mt'.
Proof.
  intros Hwf Hwf' Hsame.
  destruct (prepare_values_run self src sids tv B S T Hwf)
    as (count & _ & Hrun & _).
  destruct (prepare_values_run self src' sids' tv' B' S T Hwf')
    as (count' & _ & Hrun' & _).
  pose proof (final_row_same self S src sids tv src' sids' tv' i Hsame) as Hrow.
  eexists _, _, _, _, _, _. split; [exact Hrun|]. split; [exact Hrun'|].
  split.
  - unfold slice_cols. by rewrite !list_lookup_fmap, Hrow.
  - assert (Htgt : slice_cols S (S + T) (final_tokens self S src sids tv) !! i
                   = slice_cols S (S + T) (final_tokens self S src' sids' tv') !! i).
    { unfold slice_cols. by rewrite !list_lookup_fmap, Hrow. }
    destruct Hsame as (_ & _ & Ht).
    destruct tv as [[tgt tids]|], tv' as [[tgt' tids']|]; try done.
    change (Some (slice_cols S (S + T)
                    (final_tokens self S src sids (Some (tgt, tids))) !! i)
            = Some (slice_cols S (S + T)
                      (final_tokens self S src' sids' (Some (tgt', tids'))) !! i)).
    by rewrite Htgt.
Qed.

End PrepareProperties.

(** The batch of the scenario holds values of a data reader. *)
Lemma scenario_reader_values :
  PrepareBatch.reader_values model10 [[4; 1; 5; 1; 5; 1]] [[0; 1; 2; 1; 2; 3]].
Proof.
  split; simpl; try lia;
    repeat (apply Forall_cons; split); try apply Forall_nil; simpl; lia.
Defined.

Lemma X8_prepare_indices_in_range_witness :
  exists E ms mt,
    Prepare.prepare_values model10 [[4; 1; 5]] [[0; 1; 2]]
      (Some ([[1; 5; 1]], [[1; 2; 3]])) = Some ((1%nat, E), ms, mt) /\
    Forall (Forall (fun x => 0 <= x < 10 + Z.of_nat E)) ms.
Proof.
  destruct (X8_prepare_indices_in_range model10 [[4; 1; 5]] [[0; 1; 2]]
              (Some ([[1; 5; 1]], [[1; 2; 3]])) 1 3 3
              scenario_well_formed scenario_reader_values)
    as (E & ms & mt & Hrun & _ & Hms & _).
  exists E, ms, mt. split; assumption.
Defined.

Lemma X9_prepare_keeps_known_words_witness :
  exists extra ms mt,
    Prepare.prepare_values model10 [[4; 1; 5]] [[0; 1; 2]]
      (Some ([[1; 5; 1]], [[1; 2; 3]])) = Some (extra, ms, mt) /\
    at2 ms 0 2 = Some 5.
Proof.
  destruct (X9_prepare_keeps_known_words model10 [[4; 1; 5]] [[0; 1; 2]]
              (Some ([[1; 5; 1]], [[1; 2; 3]])) 1 3 3
              scenario_well_formed scenario_reader_values)
    as (extra & ms & mt & Hrun & Hsrc & _).
  exists extra, ms, mt. split; [exact Hrun|].
  apply Hsrc; [reflexivity | discriminate].
Defined.

Lemma scenario_pair_well_formed :
  well_formed 2 3 3 [[4; 1; 5]; [7; 7; 1]] [[0; 1; 2]; [0; 0; 1]]
    (Some ([[1; 5; 1]; [1; 0; 0]], [[1; 2; 3]; [1; 2; 2]])).
Proof. split; simpl; try lia; try reflexivity. split; reflexivity. Defined.

Lemma X10_prepare_examples_independent_witness :
  exists E ms mt E' ms' mt',
    Prepare.prepare_values model10 [[4; 1; 5]] [[0; 1; 2]]
      (Some ([[1; 5; 1]], [[1; 2; 3]])) = Some ((1%nat, E), ms, mt) /\
    Prepare.prepare_values model10 [[4; 1; 5]; [7; 7; 1]] [[0; 1; 2]; [0; 0; 1]]
      (Some ([[1; 5; 1]; [1; 0; 0]], [[1; 2; 3]; [1; 2; 2]]))
    = Some ((2%nat, E'), ms', mt') /\
    ms !! 0%nat = ms' !! 0%nat.
Proof.
  destruct (X10_prepare_examples_independent model10
              [[4; 1; 5]] [[0; 1; 2]] (Some ([[1; 5; 1]], [[1; 2; 3]]))
              [[4; 1; 5]; [7; 7; 1]] [[0; 1; 2]; [0; 0; 1]]
              (Some ([[1; 5; 1]; [1; 0; 0]], [[1; 2; 3]; [1; 2; 2]]))
              1 2 3 3 0)
    as (E & ms & mt & E' & ms' & mt' & Hrun & Hrun' & Hrow & _).
  - exact scenario_well_formed.
  - exact scenario_pair_well_formed.
  - repeat split; reflexivity.
  - exists E, ms, mt, E', ms', mt'. repeat split; assumption.
Defined.

(** ** One decoding step *)

Module StepFacts.
Import Decoder DecoderStep Int64Facts.
#[local] Open Scope R_scope.

Section WithModel.
Variable self : PointerGeneratorNetwork.

Abbreviation V := (_target_vocab_size self).
Abbreviation unk := (_target_unk_index self).

(** Line 183: an index of the extended vocabulary becomes the unknown-word
    index. *)
Lemma last_predictions_fixed (x : Z) :
  int64 x -> int64 unk ->
  add64 (sub64 x (mul64 x (if (V <=? x)%Z then 1 else 0)%Z))
        (mul64 unk (if (V <=? x)%Z then 1 else 0)%Z)
  = if (V <=? x)%Z then unk else x.
Proof.
  intros Hx Hu. unfold add64, sub64, mul64.
  destruct (V <=? x)%Z.
  - rewrite !Z.mul_1_r, (wrap64_id x) by done. rewrite Z.sub_diag.
    rewrite (wrap64_id 0) by (unfold int64; lia).
    rewrite (wrap64_id unk) by done. simpl. by apply wrap64_id.
  - rewrite !Z.mul_0_r. rewrite (wrap64_id 0) by (unfold int64; lia).
    rewrite Z.sub_0_r, (wrap64_id x) by done. rewrite Z.add_0_r.
    by apply wrap64_id.
Qed.

Lemma prepare_row_embedder (e1 e2 : Z -> vec) (m : modules) (lp : list Z)
    (st : state) (n : nat) :
  (forall x, (x < V)%Z -> e1 x = e2 x) ->
  (unk < V)%Z -> int64 unk -> Forall int64 lp ->
  prepare_row self (with_embedder e1 m) lp st n
  = prepare_row self (with_embedder e2 m) lp st n.
Proof.
  intros Hagree Hunk Hi64 Hlp. unfold prepare_row.
  destruct (lp !! n) as [x|] eqn:Hx; [|done]. cbn [mbind option_bind].
  eapply Forall_lookup_1 in Hlp; [|exact Hx].
  rewrite last_predictions_fixed by done.
  assert (He : e1 (if (V <=? x)%Z then unk else x)
               = e2 (if (V <=? x)%Z then unk else x)).
  { apply Hagree. destruct (Z.leb_spec V x); lia. }
  simpl. by rewrite He.
Qed.

Lemma prepare_output_projections_embedder (e1 e2 : Z -> vec) (m : modules)
    (lp : list Z) (st : state) :
  (forall x, (x < V)%Z -> e1 x = e2 x) ->
  (unk < V)%Z -> int64 unk -> Forall int64 lp ->
  _prepare_output_projections self (with_embedder e1 m) lp st
  = _prepare_output_projections self (with_embedder e2 m) lp st.
Proof.
  intros Hagree Hunk Hi64 Hlp. unfold _prepare_output_projections.
  rewrite (mapM_ext _ (prepare_row self (with_embedder e2 m) lp st)); [done|].
  intros n. by apply prepare_row_embedder.
Qed.

Section WithModules.
Variable m : modules.

Lemma prepare_output_projections_same_inputs (lp : list Z) (a b : state) :
  same_inputs a b ->
  _prepare_output_projections self m lp a = _prepare_output_projections self m lp b.
Proof.
  intros (He & Hm & Hh & Hc & Hcov & Ht & Hz & Htt).
  unfold _prepare_output_projections.
  rewrite (mapM_ext _ (prepare_row self m lp b)).
  2:{ intros n. unfold prepare_row. by rewrite He, Hm, Hh, Hc, Hcov. }
  by rewrite He, Hm, Hcov, Ht, Hz, Htt.
Qed.

Lemma take_step_same_inputs (lp : list Z) (a b : state) :
  same_inputs a b -> take_step self m lp a = take_step self m lp b.
Proof.
  intros Hsame. unfold take_step.
  by rewrite (prepare_output_projections_same_inputs lp a b).
Qed.

(** What a step leaves in place. *)
Lemma prepare_output_projections_frame (lp : list Z) (st st' : state) proj :
  _prepare_output_projections self m lp st = Some (proj, st') ->
  encoder_outputs st' = encoder_outputs st /\
  source_mask st' = source_mask st /\
  tokens st' = tokens st /\
  extra_zeros st' = extra_zeros st /\
  target_tokens st' = target_tokens st /\
  (_use_coverage self = false -> coverage st' = coverage st).
Proof.
  unfold _prepare_output_projections.
  destruct (mapM _ _) as [rows|]; [|done]. cbn [mbind option_bind].
  destruct (_use_coverage self) eqn:Hcov; simpl.
  - destruct (mapM row_coverage rows); [|done]. simpl.
    intros [= <- <-]. by repeat split.
  - intros [= <- <-]. by repeat split.
Qed.

Lemma loop_body_frame targets (acc acc' : loop_state) (timestep : nat) :
  loop_body self m targets acc timestep = Some acc' ->
  encoder_outputs (ls_state acc') = encoder_outputs (ls_state acc) /\
  source_mask (ls_state acc') = source_mask (ls_state acc) /\
  tokens (ls_state acc') = tokens (ls_state acc) /\
  extra_zeros (ls_state acc') = extra_zeros (ls_state acc) /\
  target_tokens (ls_state acc') = target_tokens (ls_state acc) /\
  (_use_coverage self = false ->
   coverage (ls_state acc') = coverage (ls_state acc)).
Proof.
  unfold loop_body.
  destruct (if training self && sampled m timestep then _ else _)
    as [input_choices|]; [|done]. cbn [mbind option_bind].
  destruct (if _use_coverage self then _ else _) as [cov|]; [|done].
  cbn [mbind option_bind].
  destruct (_prepare_output_projections self m input_choices (ls_state acc))
    as [[proj st']|] eqn:Hstep; [|done]. cbn [mbind option_bind].
  destruct (_get_final_dist m st' proj) as [final_dist|]; [|done].
  cbn [mbind option_bind].
  destruct (if _use_coverage self then _ else _) as [cl|]; [|done].
  cbn [mbind option_bind]. intros [= <-]. simpl.
  by apply prepare_output_projections_frame in Hstep.
Qed.

Lemma run_loop_frame targets (timesteps : list nat) (acc acc' : loop_state) :
  run_loop self m targets timesteps acc = Some acc' ->
  encoder_outputs (ls_state acc') = encoder_outputs (ls_state acc) /\
  source_mask (ls_state acc') = source_mask (ls_state acc) /\
  tokens (ls_state acc') = tokens (ls_state acc) /\
  extra_zeros (ls_state acc') = extra_zeros (ls_state acc) /\
  target_tokens (ls_state acc') = target_tokens (ls_state acc) /\
  (_use_coverage self = false ->
   coverage (ls_state acc') = coverage (ls_state acc)).
Proof.
  revert acc. induction timesteps as [|t ts IH]; intros acc; simpl.
  - intros [= <-]. by repeat split.
  - destruct (loop_body self m targets acc t) as [acc1|] eqn:Hbody; [|done].
    simpl. intros Hrun. apply IH in Hrun as (H1 & H2 & H3 & H4 & H5 & H6).
    apply loop_body_frame in Hbody as (G1 & G2 & G3 & G4 & G5 & G6).
    repeat split; try congruence.
    intros Hcov. rewrite H6, G6; done.
Qed.

Lemma init_same_inputs (a b : state) :
  encoder_outputs a = encoder_outputs b ->
  source_mask a = source_mask b ->
  tokens a = tokens b ->
  extra_zeros a = extra_zeros b ->
  target_tokens a = target_tokens b ->
  (_use_coverage self = false -> coverage a = coverage b) ->
  same_inputs (_init_decoder_state self m a) (_init_decoder_state self m b).
Proof.
  intros He Hm Ht Hz Htt Hcov. unfold same_inputs, _init_decoder_state. simpl.
  rewrite He, Hm, Ht, Hz, Htt. repeat split.
  destruct (_use_coverage self); [done|]. by apply Hcov.
Qed.

End WithModules.

End WithModel.

End StepFacts.

(** ** The rows of the final distribution *)

Module MixerRowsFacts.
Import Decoder DecoderStep MixerFacts LoopFacts StepFacts.
#[local] Open Scope R_scope.

Lemma copy_mass_absent (toks : list Z) (attn : list R) (k : nat) :
  Z.of_nat k ∉ toks -> copy_mass toks attn k = 0.
Proof.
  revert attn. induction toks as [|i toks IH]; intros attn Hk.
  - apply copy_mass_nil_l.
  - destruct attn as [|a attn]; [done|].
    rewrite copy_mass_cons, IH.
    + rewrite bool_decide_eq_false_2; [lra|].
      intros ->. apply Hk. left.
    + intros Hin. apply Hk. by right.
Qed.

Lemma elem_le_sum_R (l : list R) (k : nat) (x : R) :
  Forall (fun y => 0 <= y) l -> l !! k = Some x -> x <= sum_R l.
Proof.
  intros Hl. revert k. induction Hl as [|y l Hy Hl IH]; intros k Hk; [done|].
  simpl. pose proof (sum_R_nonneg l Hl) as Hs.
  destruct k as [|k]; simpl in Hk.
  - injection Hk as ->. lra.
  - specialize (IH k Hk). lra.
Qed.

Lemma mixer_denominator_pos (p : R) (toks : list Z) (attn : list R) :
  0 < p < 1 -> Forall (fun a => 0 <= a) attn ->
  0 < p + (1 - p) * sum_R (take (length toks) attn).
Proof.
  intros Hp Hattn.
  assert (0 <= sum_R (take (length toks) attn))
    by (apply sum_R_nonneg; by apply Forall_take).
  nra.
Qed.

Section WithModules.
Variable m : modules.

(** Every row of [_get_final_dist], in closed form. *)
Lemma get_final_dist_rows (st : state) (output_projections : list vec) :
  mixer_ok st output_projections ->
  exists final_dist,
    _get_final_dist m st output_projections = Some final_dist /\
    length final_dist = length output_projections /\
    forall n row, final_dist !! n = Some row ->
      Forall (fun x => 0 <= x) row /\
      sum_R row = 1 /\
      exists p_gen proj attn toks,
        0 < p_gen < 1 /\
        output_projections !! n = Some proj /\
        attn_scores st !! n = Some attn /\
        tokens st !! n = Some toks /\
        proj <> [] /\
        Forall (fun a => 0 <= a) attn /\
        length row = (length proj + extra_size1 st)%nat /\
        forall k, (k < length row)%nat ->
          row !! k = Some (mixed_mass p_gen proj attn toks k
                           / (p_gen + (1 - p_gen)
                                      * sum_R (take (length toks) attn))).
Proof.
  intros Hok. unfold _get_final_dist.
  set (f := fun n : nat => _).
  assert (Hrow : forall n, (n < length output_projections)%nat ->
    exists row, f n = Some row /\
      Forall (fun x => 0 <= x) row /\ sum_R row = 1 /\
      exists p_gen proj attn toks,
        0 < p_gen < 1 /\
        output_projections !! n = Some proj /\
        attn_scores st !! n = Some attn /\
        tokens st !! n = Some toks /\
        proj <> [] /\
        Forall (fun a => 0 <= a) attn /\
        length row = (length proj + extra_size1 st)%nat /\
        forall k, (k < length row)%nat ->
          row !! k = Some (mixed_mass p_gen proj attn toks k
                           / (p_gen + (1 - p_gen)
                                      * sum_R (take (length toks) attn)))).
  { intros n Hn.
    destruct (Hok n Hn) as ([ac Hac] & [dh Hdh] & [dc Hdc] & [di Hdi] &
      proj & attn & toks & extra & Hproj & Hattn & Htoks & Hextra &
      Hne & Hpos & Hlen & Hidx & Hsize & Hzero).
    destruct (final_dist_row_spec
                (sigmoid (p_gen_layer m (ac ++ (dh ++ dc) ++ di)))
                proj attn toks (negb (bool_decide (extra_size1 st = 0%nat))) extra)
      as (row & Hrun & Hlrow & Hnn & Hsum & Hk); try done.
    { apply sigmoid_range. }
    { intros Hb. apply negb_false_iff, bool_decide_eq_true_1 in Hb.
      apply nil_length_inv. congruence. }
    exists row. split.
    { unfold f, p_gen_row. rewrite Hac, Hdh, Hdc, Hdi, Hproj, Hattn, Htoks.
      cbn [mbind option_bind].
      case_bool_decide as Hz; cbn [mbind option_bind].
      - assert (extra = []) as -> by (apply nil_length_inv; congruence).
        exact Hrun.
      - rewrite Hextra. cbn [mbind option_bind]. exact Hrun. }
    split; [done|]. split; [done|].
    eexists _, proj, attn, toks.
    split; [apply sigmoid_range|]. repeat split; try done.
    by rewrite Hlrow, Hsize. }
  destruct (mapM_seq_run f (length output_projections)) as (fd & -> & Hlen & Hrows).
  { intros n Hn. destruct (Hrow n Hn) as (row & -> & _). eauto. }
  exists fd. split; [done|]. split; [done|].
  intros n row Hn.
  assert (Hlt : (n < length output_projections)%nat)
    by (rewrite <- Hlen; by eapply lookup_lt_Some).
  destruct (Hrow n Hlt) as (row' & Hf' & Hrest).
  rewrite (Hrows n row Hn) in Hf'. injection Hf' as <-. exact Hrest.
Qed.

Variable self : PointerGeneratorNetwork.

(** The attention scores a step leaves in [state] are values of the
    attention module. *)
Lemma attn_scores_from_attention (P : vec -> Prop) (lp : list Z) (st st' : state)
    proj :
  (forall h e mask c, P (attention m h e mask c)) ->
  _prepare_output_projections self m lp st = Some (proj, st') ->
  Forall P (attn_scores st').
Proof.
  intros HP. unfold _prepare_output_projections.
  destruct (mapM _ _) as [rows|] eqn:Hrows; [|done]. cbn [mbind option_bind].
  destruct (if negb (_use_coverage self) then _ else _) as [cov|]; [|done].
  cbn [mbind option_bind]. intros [= <- <-]. simpl.
  apply Forall_fmap. apply mapM_Some_1 in Hrows.
  apply Forall_forall. intros r Hr.
  apply list_elem_of_lookup in Hr as [k Hr].
  destruct (Forall2_lookup_r _ _ _ _ _ Hrows Hr) as (n & _ & Hn).
  revert Hn. unfold prepare_row.
  destruct (lp !! n); [|done]. cbn [mbind option_bind].
  destruct (encoder_outputs st !! n); [|done]. cbn [mbind option_bind].
  destruct (source_mask st !! n); [|done]. cbn [mbind option_bind].
  destruct (decoder_hidden st !! n); [|done]. cbn [mbind option_bind].
  destruct (decoder_context st !! n); [|done]. cbn [mbind option_bind].
  destruct (_use_coverage self); cbn [negb].
  - destruct (coverage st) as [all|]; [|done]. cbn [mbind option_bind].
    destruct (all !! n) as [c|]; [|done]. cbn [mbind option_bind].
    destruct (vec_add c _); [|done]. cbn [mbind option_bind].
    destruct (decoder_cell m _ _). intros [= <-]. apply HP.
  - cbn [mbind option_bind]. destruct (decoder_cell m _ _).
    intros [= <-]. apply HP.
Qed.

(** After a step, the tensors meet the conditions of the mixer. *)
Lemma step_mixer_ok (B C : nat) (st st' : state) (proj : list vec) :
  (0 < C)%nat ->
  state_ok self B C st -> after_step B C st st' proj -> state_ok self B C st' ->
  Forall (Forall (fun a => 0 <= a)) (attn_scores st') ->
  Forall (Forall (fun z => z = 0)) (extra_zeros st) ->
  mixer_ok st' proj.
Proof.
  intros HC Hok (Hlp & Hproj & He & Hm & Ht & Hx & Htt & Hdi & Hac & Hattn) Hok'
    Hnn Hzero.
  assert (Hsize : extra_size1 st' = extra_size1 st)
    by (unfold extra_size1; by rewrite Hx).
  intros n Hn. rewrite Hlp in Hn.
  split; [apply lookup_lt_is_Some_2; lia|].
  split; [apply lookup_lt_is_Some_2; rewrite (ok_decoder_hidden _ _ _ _ Hok'); lia|].
  split; [apply lookup_lt_is_Some_2; rewrite (ok_decoder_context _ _ _ _ Hok'); lia|].
  split; [apply lookup_lt_is_Some_2; lia|].
  destruct (lookup_lt_is_Some_2 proj n) as [pr Hpr]; [lia|].
  destruct (lookup_lt_is_Some_2 (source_mask st) n) as [mask Hmask];
    [rewrite (ok_source_mask _ _ _ _ Hok); lia|].
  destruct (Forall2_lookup_r _ _ _ _ _ Hattn Hmask) as (a & Ha & Hla).
  destruct (Forall2_lookup_r _ _ _ _ _ (ok_tokens _ _ _ _ Hok) Hmask)
    as (toks & Htoks & Hlt & Hrange).
  destruct (ok_extra_zeros _ _ _ _ Hok) as [Hxl Hxr].
  destruct (lookup_lt_is_Some_2 (extra_zeros st) n) as [ex Hex]; [lia|].
  pose proof (Forall_lookup_1 _ _ _ _ Hxr Hex) as Hlex. simpl in Hlex.
  pose proof (Forall_lookup_1 _ _ _ _ Hproj Hpr) as Hlpr. simpl in Hlpr.
  exists pr, a, toks, ex. rewrite Ht, Hx, Hsize.
  split; [done|]. split; [done|]. split; [done|]. split; [done|].
  split; [intros ->; simpl in Hlpr; lia|].
  split; [by eapply Forall_lookup_1 in Hnn|].
  split; [lia|].
  split; [by rewrite Hlpr, Hlex|].
  split; [done|].
  by eapply Forall_lookup_1 in Hzero.
Qed.

End WithModules.

End MixerRowsFacts.

(** ** Properties of the decoding step *)

Section StepProperties.
Import Decoder DecoderStep MixerFacts LoopFacts StepFacts MixerRowsFacts.
#[local] Open Scope R_scope.
Variable self : PointerGeneratorNetwork.
Variable m : modules.

Abbreviation V := (_target_vocab_size self).
Abbreviation unk := (_target_unk_index self).

Lemma ln_le_le (x y : R) : 0 < x -> x <= y -> ln x <= ln y.
Proof.
  intros Hx [Hlt| ->]; [|lra]. left. by apply ln_increasing.
Qed.

(** X11.  A decoding step never looks up the embedding of an index of the
    extended vocabulary: the previous predictions at or above [V] are
    replaced by the unknown-word index first, so the step is the same for
    any two target embedders that agree on the indices below [V]. *)
Theorem X11_embedder_below_vocabulary (e1 e2 : Z -> vec) (lp : list Z) (st : state) :
  (forall x, (x < V)%Z -> e1 x = e2 x) ->
  (unk < V)%Z -> int64 unk -> Forall int64 lp ->
  _prepare_output_projections self (with_embedder e1 m) lp st
  = _prepare_output_projections self (with_embedder e2 m) lp st.
Proof. apply prepare_output_projections_embedder. Qed.

(** X12.  Re-initialising the decoder state after the decoding loop undoes
    the loop: the loop leaves the encoder outputs, the mask, the source
    indices, the extra slots and the targets of [state] as they were, so a
    step taken from the re-initialised state is the step taken from the
    state initialised before the loop (the beam search of a validation pass
    does not depend on the teacher-forced pass before it). *)
Theorem X12_reinit_after_loop (st : state) targets (timesteps : list nat)
    (acc : loop_state) (lp : list Z) :
  run_loop self m targets timesteps
    (initial_loop_state self (_init_decoder_state self m st)) = Some acc ->
  take_step self m lp (_init_decoder_state self m (ls_state acc))
  = take_step self m lp (_init_decoder_state self m st).
Proof.
  intros Hrun.
  apply run_loop_frame in Hrun as (He & Hm & Ht & Hz & Htt & Hcov).
  transitivity (take_step self m lp
                  (_init_decoder_state self m (_init_decoder_state self m st))).
  - apply take_step_same_inputs. by apply init_same_inputs.
  - apply take_step_same_inputs. apply init_same_inputs; try done.
    intros Hoff. simpl. by rewrite Hoff.
Qed.

(** X13.  In every row of the final distribution an extra slot that no
    source position of the example points to has probability zero: the copy
    mechanism gives mass only to the indices found in the source. *)
Theorem X13_final_dist_support (st : state) (output_projections : list vec) :
  mixer_ok st output_projections ->
  exists final_dist,
    _get_final_dist m st output_projections = Some final_dist /\
    forall n row proj toks,
      final_dist !! n = Some row ->
      output_projections !! n = Some proj ->
      tokens st !! n = Some toks ->
      forall k x, row !! k = Some x ->
        (length proj <= k)%nat -> Z.of_nat k ∉ toks -> x = 0.
Proof.
  intros Hok.
  destruct (get_final_dist_rows m st output_projections Hok)
    as (final_dist & Hrun & _ & Hrows).
  exists final_dist. split; [exact Hrun|].
  intros n row proj toks Hrow Hproj Htoks k x Hx.
  destruct (Hrows n row Hrow)
    as (_ & _ & p & proj' & attn & toks' & Hp & Hproj' & _ & Htoks' & Hne &
        Hattn & _ & Hk).
  rewrite Hproj in Hproj'. injection Hproj' as <-.
  rewrite Htoks in Htoks'. injection Htoks' as <-.
  rewrite (Hk k) in Hx by (by eapply lookup_lt_Some). injection Hx as <-.
  pose proof (mixer_denominator_pos p toks attn Hp Hattn) as Hden.
  unfold mixed_mass. intros Hge Hnot.
  rewrite nth_overflow by (rewrite length_softmax; lia).
  rewrite copy_mass_absent by done. field. lra.
Qed.

Variables B C : nat.

(** X14.  On a well-shaped state, with non-negative attention weights and
    extra slots holding zero, [take_step] returns for every example the
    logarithms of a probability distribution over the [C] words and the
    extra slots, each shifted by epsilon: every log-probability is finite,
    between [ln eps] and [ln (1 + eps)]; the state it returns is well shaped
    again. *)
Theorem X14_take_step_log_probabilities (lp : list Z) (st : state) :
  modules_ok m C -> (0 < C)%nat ->
  (forall h e mask c, Forall (fun a => 0 <= a) (attention m h e mask c)) ->
  state_ok self B C st -> length lp = B ->
  Forall (Forall (fun z => z = 0)) (extra_zeros st) ->
  exists log_probabilities st',
    take_step self m lp st = Some (log_probabilities, st') /\
    length log_probabilities = B /\
    Forall (fun row : vec =>
              length row = (C + extra_size1 st)%nat /\
              Forall (fun x => ln _eps <= x <= ln (1 + _eps)) row /\
              sum_R ((fun x => exp x - _eps) <$> row) = 1)
           log_probabilities /\
    state_ok self B C st'.
Proof.
  intros Hmod HC Hnn Hok Hlp Hzero.
  destruct (prepare_output_projections_run self m B C Hmod lp st Hok Hlp)
    as (proj & st' & Hstep & Hafter & Hok').
  pose proof (attn_scores_from_attention m self _ lp st st' proj Hnn Hstep) as Hattn.
  pose proof (step_mixer_ok self B C st st' proj HC Hok Hafter Hok' Hattn Hzero)
    as Hmix.
  destruct (get_final_dist_rows m st' proj Hmix) as (fd & Hfd & Hlen & Hrows).
  destruct Hafter as (Hlproj & Hproj & _ & _ & _ & Hx & _).
  assert (Hsize : extra_size1 st' = extra_size1 st)
    by (unfold extra_size1; by rewrite Hx).
  unfold take_step. rewrite Hstep. cbn [mbind option_bind].
  rewrite Hfd. cbn [mbind option_bind].
  eexists _, _. split; [reflexivity|].
  split; [rewrite length_fmap; lia|]. split; [|done].
  apply Forall_fmap, Forall_lookup. intros n row Hrow.
  destruct (Hrows n row Hrow)
    as (Hpos & Hsum & p & pr & attn & toks & _ & Hpr & _ & _ & _ & _ & Hlrow & _).
  pose proof (Forall_lookup_1 _ _ _ _ Hproj Hpr) as Hlpr. simpl in Hlpr.
  pose proof eps_pos as Heps.
  assert (Hle : Forall (fun x => 0 <= x <= 1) row).
  { apply Forall_lookup. intros k x Hk. split.
    - by eapply Forall_lookup_1 in Hpos.
    - rewrite <- Hsum. by eapply elem_le_sum_R. }
  simpl. split; [rewrite length_fmap; lia|]. split.
  - apply Forall_fmap. eapply Forall_impl; [exact Hle|].
    intros x Hx01. simpl. split; apply ln_le_le; lra.
  - rewrite <- list_fmap_compose.
    rewrite (Forall_fmap_ext_1 _ (fun x => x)), list_fmap_id; [done|].
    eapply Forall_impl; [exact Hle|]. intros x Hx01. simpl.
    rewrite exp_ln by lra. lra.
Qed.

End StepProperties.

Lemma X11_embedder_below_vocabulary_witness :
  exists proj st',
    Decoder._prepare_output_projections (model4 false)
      (DecoderStep.with_embedder small_embedder (toy_modules mask_attention))
      [7] (toy_state None None) = Some (proj, st') /\
    Decoder._prepare_output_projections (model4 false)
      (DecoderStep.with_embedder index_embedder (toy_modules mask_attention))
      [7] (toy_state None None) = Some (proj, st') /\
    small_embedder 7 <> index_embedder 7.
Proof.
  assert (exists r,
    Decoder._prepare_output_projections (model4 false)
      (DecoderStep.with_embedder index_embedder (toy_modules mask_attention))
      [7] (toy_state None None) = Some r) as [[proj st'] Hr].
  { eexists. vm_compute. reflexivity. }
  exists proj, st'. split; [|split; [exact Hr|]].
  - rewrite <- Hr. apply X11_embedder_below_vocabulary.
    + intros x Hx. unfold small_embedder, index_embedder. simpl in Hx.
      rewrite Z.min_l by lia. reflexivity.
    + simpl. lia.
    + unfold int64. simpl. lia.
    + repeat constructor; unfold int64; lia.
  - unfold small_embedder, index_embedder. simpl. intros H.
    injection H as H. apply eq_IZR in H. discriminate H.
Defined.

Lemma X12_reinit_after_loop_witness :
  exists acc,
    Decoder.run_loop (model4 true) (toy_modules const_attention) None (seq 0 2)
      (Decoder.initial_loop_state (model4 true)
         (Decoder._init_decoder_state (model4 true) (toy_modules const_attention)
            (toy_state None None))) = Some acc /\
    DecoderStep.take_step (model4 true) (toy_modules const_attention) [2]
      (Decoder._init_decoder_state (model4 true) (toy_modules const_attention)
         (Decoder.ls_state acc))
    = DecoderStep.take_step (model4 true) (toy_modules const_attention) [2]
        (Decoder._init_decoder_state (model4 true) (toy_modules const_attention)
           (toy_state None None)).
Proof.
  assert (exists acc,
    Decoder.run_loop (model4 true) (toy_modules const_attention) None (seq 0 2)
      (Decoder.initial_loop_state (model4 true)
         (Decoder._init_decoder_state (model4 true) (toy_modules const_attention)
            (toy_state None None))) = Some acc) as [acc Hacc].
  { eexists. vm_compute. reflexivity. }
  exists acc. split; [exact Hacc|].
  exact (X12_reinit_after_loop (model4 true) (toy_modules const_attention)
           (toy_state None None) None (seq 0 2) acc [2] Hacc).
Defined.

Lemma padded_mixer_ok : Decoder.mixer_ok padded_state [[0; 0; 0; 0]%R].
Proof.
  intros n Hn. simpl in Hn. assert (n = 0%nat) as -> by lia.
  repeat split; try (eexists; reflexivity).
  exists [0; 0; 0; 0]%R, [1; 1]%R, [4; 2], [0; 0]%R.
  repeat split; try reflexivity; try discriminate; try lia;
    repeat (apply Forall_cons; split); try apply Forall_nil; simpl; try lia; lra.
Defined.

Lemma X13_final_dist_support_witness :
  exists final_dist,
    Decoder._get_final_dist (toy_modules toy_attention) padded_state
      [[0; 0; 0; 0]%R] = Some final_dist /\
    forall row x, final_dist !! 0%nat = Some row -> row !! 5%nat = Some x ->
                  x = 0%R.
Proof.
  destruct (X13_final_dist_support (toy_modules toy_attention)
              padded_state [[0; 0; 0; 0]%R] padded_mixer_ok)
    as (final_dist & Hrun & Hsupport).
  exists final_dist. split; [exact Hrun|].
  intros row x Hrow Hx.
  apply (Hsupport 0%nat row [0; 0; 0; 0]%R [4; 2] Hrow eq_refl eq_refl 5%nat x Hx).
  - simpl. lia.
  - intros Hin. repeat (apply elem_of_cons in Hin as [Hin|Hin]; [discriminate Hin|]).
    by apply elem_of_nil in Hin.
Defined.

Lemma unit_modules_ok : Decoder.modules_ok (toy_modules unit_attention) 4.
Proof. split; [intros; apply length_fmap | reflexivity]. Defined.

Lemma X14_take_step_log_probabilities_witness :
  exists log_probabilities st',
    DecoderStep.take_step (model4 false) (toy_modules unit_attention) [2]
      (toy_state None None) = Some (log_probabilities, st') /\
    length log_probabilities = 1%nat.
Proof.
  destruct (X14_take_step_log_probabilities (model4 false)
              (toy_modules unit_attention) 1 4 [2] (toy_state None None))
    as (logp & st' & Hrun & Hlen & _).
  - exact unit_modules_ok.
  - lia.
  - intros h e mask c. apply Forall_fmap, Forall_true. intros x. simpl. lra.
  - apply toy_state_ok.
  - reflexivity.
  - repeat constructor.
  - exists logp, st'. split; assumption.
Defined.

(** ** [forward] with targets *)

Module ForwardFacts.
Import PrepareRows PrepareRun PrepareEntries PrepareBatch PrepareBoundsFacts.
Import Decoder DecoderStep LoopFacts.
#[local] Open Scope R_scope.



Section WithModel.
Variable self : PointerGeneratorNetwork.
Variable m : modules.

Abbreviation V := (_target_vocab_size self).
Abbreviation unk := (_target_unk_index self).




End WithModel.

End ForwardFacts.

(** ** Properties of [forward] *)

Section ForwardProperties.
Import PrepareRows PrepareRun PrepareEntries PrepareBatch PrepareBoundsFacts.
Import Decoder DecoderStep LoopFacts StepFacts ForwardFacts.
#[local] Open Scope R_scope.
Variable self : PointerGeneratorNetwork.
Variable m : modules.
Variable beam_search :
  list Z -> state -> (list Z -> state -> option (list vec * state)) ->
  option (list (list (list Z)) * list vec).

Abbreviation V := (_target_vocab_size self).
Abbreviation unk := (_target_unk_index self).


End ForwardProperties.


(** ** From [_prepare] to [decode] *)

Module RoundTripFacts.
Import PrepareRows PrepareRun PrepareEntries PrepareBatch PrepareBoundsFacts.
Import UniqueFacts Decode DecodeFacts Identities LossFacts.

Lemma sorted_ext (l1 l2 : list Z) :
  StronglySorted Z.lt l1 -> StronglySorted Z.lt l2 ->
  (forall x, x ∈ l1 <-> x ∈ l2) -> l1 = l2.
Proof.
  intros H1. revert l2. induction H1 as [|a l1 H1 IH Ha]; intros l2 H2 Hel.
  - destruct l2 as [|b l2]; [done|].
    exfalso. eapply not_elem_of_nil, Hel. left.
  - destruct H2 as [|b l2 H2 Hb].
    { exfalso. eapply not_elem_of_nil, Hel. left. }
    assert (a = b) as ->.
    { assert (Ha2 : a ∈ b :: l2) by (apply Hel; left).
      assert (Hb1 : b ∈ a :: l1) by (apply Hel; left).
      apply elem_of_cons in Ha2 as [?|Ha2]; [done|].
      apply elem_of_cons in Hb1 as [?|Hb1]; [done|].
      eapply Forall_forall in Ha; [|exact Hb1].
      eapply Forall_forall in Hb; [|exact Ha2]. lia. }
    f_equal. apply IH; [done|]. intros x. split; intros Hx.
    + assert (Hx2 : x ∈ b :: l2) by (apply Hel; by right).
      apply elem_of_cons in Hx2 as [->|?]; [|done].
      eapply Forall_forall in Ha; [|exact Hx]. lia.
    + assert (Hx1 : x ∈ b :: l1) by (apply Hel; by right).
      apply elem_of_cons in Hx1 as [->|?]; [|done].
      eapply Forall_forall in Hb; [|exact Hx]. lia.
Qed.

Lemma position_lookup (u : list Z) (s : nat) (x : Z) :
  NoDup u -> u !! s = Some x -> position x u = s.
Proof.
  intros Hu. revert s. induction Hu as [|y u Hy Hu IH]; intros s Hs; [done|].
  simpl. destruct s as [|s]; simpl in Hs.
  - injection Hs as ->. by rewrite Z.eqb_refl.
  - destruct (Z.eqb_spec x y) as [->|_].
    + exfalso. apply Hy. by eapply list_elem_of_lookup_2.
    + f_equal. by apply IH.
Qed.

Section WithExample.
Variable self : PointerGeneratorNetwork.
Variables tokens ids : list Z.
Variable words : list string.
Hypothesis Hnum : numbered_by_first_occurrence self tokens ids words.

Abbreviation V := (_target_vocab_size self).
Abbreviation unk := (_target_unk_index self).

Abbreviation collected := (Identities.collected self tokens ids words).

Lemma collect_unk_tokens_identities (rest : list Z) (p : nat)
    (acc : list string) (accd : list Z) :
  drop p tokens = rest -> collected p acc accd ->
  exists acc' accd',
    collect_unk_tokens self p rest words acc = Some acc' /\
    collected (length tokens) acc' accd'.
Proof.
  revert p acc accd.
  induction rest as [|t rest IH]; intros p acc accd Hdrop Hinv.
  - exists acc, accd. split; [done|].
    destruct Hinv as (Hl & Hs & Hp & H1 & H2).
    assert (Hle : (length tokens <= p)%nat).
    { apply (f_equal length) in Hdrop. rewrite length_drop in Hdrop.
      simpl in Hdrop. lia. }
    repeat split; try done.
    + intros s w Hw. destruct (H1 s w Hw) as (q & d & Hq & Hu & Hrest).
      exists q, d. split; [by eapply lookup_lt_Some|done].
    + intros q w d Hq. apply H2. lia.
  - assert (Ht : tokens !! p = Some t).
    { rewrite <- (Nat.add_0_r p), <- lookup_drop, Hdrop. done. }
    assert (Hdrop' : drop (S p) tokens = rest).
    { replace (S p) with (p + 1)%nat by lia.
      rewrite <- (drop_drop tokens 1 p), Hdrop. done. }
    pose proof (lookup_lt_Some _ _ _ Ht) as Hp.
    destruct Hinv as (Hl & Hs & Hpos & H1 & H2).
    simpl. destruct (Z.eqb_spec t unk) as [->|Hne].
    + destruct (numbered_words _ _ _ _ Hnum p Ht) as [w Hw].
      destruct (lookup_lt_is_Some_2 ids p) as [d Hd];
        [by rewrite (numbered_ids _ _ _ _ Hnum)|].
      rewrite Hw. cbn [mbind option_bind]. unfold append_new.
      case_bool_decide as Hin.
      * apply (IH (S p) acc accd Hdrop').
        split; [done|]. split; [done|]. split; [done|]. split.
        { intros s w0 Hw0. destruct (H1 s w0 Hw0) as (q & d0 & Hq & Hrest).
          exists q, d0. split; [lia|done]. }
        intros q w0 d0 Hq Hu Hw0 Hd0.
        destruct (decide (q = p)) as [->|Hqp]; [|apply (H2 q); [lia|done..]].
        rewrite Hw in Hw0. injection Hw0 as <-.
        rewrite Hd in Hd0. injection Hd0 as <-.
        apply list_elem_of_lookup in Hin as [s Hs0].
        destruct (H1 s w Hs0) as (q & d0 & Hq0 & Hu0 & Hw0 & Hd0 & Hsd).
        exists s. split; [done|].
        assert (d0 = d) as <-; [|done].
        by apply (numbered_same _ _ _ _ Hnum q p d0 d w w).
      * assert (Hnew : forall k0, (k0 < p)%nat -> tokens !! k0 = Some unk ->
                         ids !! k0 <> Some d).
        { intros k0 Hk0 Hu0 Hd0.
          destruct (numbered_words _ _ _ _ Hnum k0 Hu0) as [w0 Hw0].
          assert (w0 = w) as ->
            by (by apply (numbered_same _ _ _ _ Hnum k0 p d d w0 w)).
          destruct (H2 k0 w d Hk0 Hu0 Hw0 Hd0) as (s & Hs0 & _).
          apply Hin. by eapply list_elem_of_lookup_2. }
        apply (IH (S p) (acc ++ [w]) (accd ++ [d]) Hdrop').
        split; [rewrite !length_app; simpl; lia|]. split.
        { apply StronglySorted_app_2; [|done|repeat constructor].
          intros x1 x2 Hx1 Hx2. apply list_elem_of_singleton in Hx2 as ->.
          apply list_elem_of_lookup in Hx1 as [s Hx1].
          destruct (lookup_lt_is_Some_2 acc s) as [w0 Hw0];
            [rewrite Hl; by eapply lookup_lt_Some|].
          destruct (H1 s w0 Hw0) as (q & d0 & Hq & Hu0 & _ & Hd0 & Hsd).
          rewrite Hx1 in Hsd. injection Hsd as ->.
          by apply (numbered_order _ _ _ _ Hnum q p d0 d). }
        split.
        { apply Forall_app. split; [done|]. repeat constructor.
          by apply (numbered_positive _ _ _ _ Hnum p d). }
        split.
        { intros s w0 Hw0. apply lookup_app_Some in Hw0 as [Hw0|[Hge Hw0]].
          - destruct (H1 s w0 Hw0) as (q & d0 & Hq & Hu0 & Hw1 & Hd0 & Hsd).
            exists q, d0. repeat split; try done; [lia|].
            by apply lookup_app_l_Some.
          - apply list_lookup_singleton_Some in Hw0 as [Hs0 <-].
            exists p, d. repeat split; try done; [lia|].
            rewrite lookup_app_r by lia.
            replace (s - length accd)%nat with 0%nat by lia. done. }
        intros q w0 d0 Hq Hu Hw0 Hd0.
        destruct (decide (q = p)) as [->|Hqp].
        -- rewrite Hw in Hw0. injection Hw0 as <-.
           rewrite Hd in Hd0. injection Hd0 as <-.
           exists (length acc). split.
           ++ rewrite lookup_app_r by lia. by rewrite Nat.sub_diag.
           ++ rewrite Hl, lookup_app_r by lia. by rewrite Nat.sub_diag.
        -- destruct (H2 q w0 d0 ltac:(lia) Hu Hw0 Hd0) as (s & Hs1 & Hs2).
           exists s. split; by apply lookup_app_l_Some.
    + apply (IH (S p) acc accd Hdrop').
      split; [done|]. split; [done|]. split; [done|]. split.
      { intros s w0 Hw0. destruct (H1 s w0 Hw0) as (q & d0 & Hq & Hrest).
        exists q, d0. split; [lia|done]. }
      intros q w0 d0 Hq Hu Hw0 Hd0.
      destruct (decide (q = p)) as [->|Hqp]; [congruence|].
      apply (H2 q); [lia|done..].
Qed.

(** The slot of an unknown source word in [unk_tokens] is one less than the
    rank of its identity. *)
Lemma unk_tokens_slots :
  exists unk_tokens,
    collect_unk_tokens self 0 tokens words [] = Some unk_tokens /\
    forall j d w,
      tokens !! j = Some unk -> ids !! j = Some d -> words !! j = Some w ->
      exists s, unk_tokens !! s = Some w /\
                rank_sorted d (masked_ids self tokens ids) = S s.
Proof.
  destruct (collect_unk_tokens_identities tokens 0 [] [])
    as (oov & accd & Hrun & Hl & Hs & Hpos & H1 & H2).
  { done. }
  { split; [done|]. split; [constructor|]. split; [constructor|].
    split; [intros s w Hw; done | intros q w d Hq; lia]. }
  exists oov. split; [exact Hrun|].
  assert (Hsorted : sorted_unique (masked_ids self tokens ids) = 0 :: accd).
  { apply sorted_ext.
    - apply sorted_unique_sorted.
    - constructor; [done|]. eapply Forall_impl; [exact Hpos|]. intros y Hy. exact Hy.
    - intros x. rewrite elem_of_sorted_unique. unfold masked_ids. split.
      + intros Hx. apply list_elem_of_lookup in Hx as [k Hx].
        rewrite lookup_zip_with in Hx.
        destruct (tokens !! k) as [t|] eqn:Ht; [|done]. simpl in Hx.
        destruct (ids !! k) as [d|] eqn:Hd; [|done]. simpl in Hx.
        injection Hx as <-.
        destruct (Z.eqb_spec t unk) as [->|_]; [|left].
        destruct (numbered_words _ _ _ _ Hnum k Ht) as [w Hw].
        destruct (H2 k w d (lookup_lt_Some _ _ _ Ht) Ht Hw Hd) as (s & _ & Hsd).
        right. by eapply list_elem_of_lookup_2.
      + intros Hx. apply elem_of_cons in Hx as [->|Hx].
        * destruct (numbered_known _ _ _ _ Hnum) as (j & t & Ht & Hne).
          destruct (lookup_lt_is_Some_2 ids j) as [d Hd].
          { rewrite (numbered_ids _ _ _ _ Hnum). by eapply lookup_lt_Some. }
          apply (list_elem_of_lookup_2 _ j).
          rewrite lookup_zip_with, Ht, Hd. simpl.
          by destruct (Z.eqb_spec t unk).
        * apply list_elem_of_lookup in Hx as [s Hx].
          destruct (lookup_lt_is_Some_2 oov s) as [w Hw];
            [rewrite Hl; by eapply lookup_lt_Some|].
          destruct (H1 s w Hw) as (q & d & _ & Hu & _ & Hd & Hsd).
          rewrite Hx in Hsd. injection Hsd as ->.
          apply (list_elem_of_lookup_2 _ q).
          rewrite lookup_zip_with, Hu, Hd. simpl. by rewrite Z.eqb_refl. }
  intros j d w Hu Hd Hw.
  destruct (H2 j w d (lookup_lt_Some _ _ _ Hu) Hu Hw Hd) as (s & Hsw & Hsd).
  exists s. split; [exact Hsw|].
  pose proof (numbered_positive _ _ _ _ Hnum j d Hu Hd) as Hdpos.
  rewrite <- position_rank.
  2:{ apply (list_elem_of_lookup_2 _ j). unfold masked_ids.
      rewrite lookup_zip_with, Hu, Hd. simpl. by rewrite Z.eqb_refl. }
  rewrite Hsorted. simpl. destruct (Z.eqb_spec d 0); [lia|].
  f_equal. apply position_lookup; [|done]. by apply sorted_NoDup.
Qed.

End WithExample.

Section WithBatch.
Variable self : PointerGeneratorNetwork.
Variable get_token_from_index : Z -> option string.

Abbreviation V := (_target_vocab_size self).
Abbreviation unk := (_target_unk_index self).

(** The round trip of one example. *)
Lemma copy_round_trip_example (src sids : tensor) (B S i : nat)
    (srow irow : list Z) (words : list string) (js : list nat) :
  well_formed B S 0 src sids None ->
  reader_values self src sids ->
  src !! i = Some srow -> sids !! i = Some irow ->
  numbered_by_first_occurrence self srow irow words ->
  _end_index self < V ->
  Forall (fun j => srow !! j = Some unk) js ->
  exists extra ms mrow copied ws,
    Prepare.prepare_values self src sids None = Some (extra, ms, None) /\
    ms !! i = Some mrow /\
    at_positions mrow js = Some copied /\
    at_positions words js = Some ws /\
    decode_example self get_token_from_index (Sequence copied) words srow = Some ws.
Proof.
  unfold at_positions. intros Hwf Hrv Hsrow Hirow Hnum Hend Hjs.
  destruct (prepare_values_run self src sids None B S 0 Hwf)
    as (count & Hcount & Hrun & Hshape).
  destruct (unk_tokens_slots self srow irow words Hnum) as (oov & Hcollect & Hslots).
  assert (is_Some (final_tokens self S src sids None !! i)) as [frow Hfrow].
  { apply lookup_lt_is_Some. rewrite (shape_length _ _ _ Hshape).
    apply lookup_lt_Some in Hsrow.
    by rewrite (shape_length _ _ _ (wf_src _ _ _ _ _ _ Hwf)) in Hsrow. }
  pose proof (shape_lookup _ _ _ _ _ (wf_src _ _ _ _ _ _ Hwf) Hsrow) as Hls.
  eexists _, _, (take (S - 0) (drop 0 frow)).
  assert (Hall : exists copied ws,
    mapM (fun j => take (S - 0) (drop 0 frow) !! j) js = Some copied /\
    mapM (fun j => words !! j) js = Some ws /\
    Forall (fun x => V <= x) copied /\
    mapM (predicted_token self get_token_from_index oov) copied = Some ws).
  { induction Hjs as [|j js Hj Hjs IH].
    - exists [], []. repeat split; constructor.
    - destruct IH as (copied & ws & Hc & Hw & Hge & Hdec).
      pose proof (lookup_lt_Some _ _ _ Hj) as HjS. rewrite Hls in HjS.
      destruct (lookup_lt_is_Some_2 irow j) as [d Hd].
      { rewrite (numbered_ids _ _ _ _ Hnum). by eapply lookup_lt_Some. }
      destruct (numbered_words _ _ _ _ Hnum j Hj) as [w Hwj].
      destruct (final_entry self src sids None B S 0 count Hwf Hrv Hcount
                  i srow irow j unk d Hsrow Hirow Hj Hd) as (x & Hx & _ & _ & Hrank).
      specialize (Hrank HjS eq_refl).
      destruct (Hslots j d w Hj Hd Hwj) as (s & Hs & Hrs).
      rewrite Hrs in Hrank.
      rewrite (at2_lookup _ _ _ _ Hfrow) in Hx.
      exists (x :: copied), (w :: ws).
      rewrite !mapM_cons, Hc, Hw, Hdec, Hwj.
      rewrite lookup_take_lt by lia. rewrite lookup_drop. simpl.
      rewrite Hx. cbn [mbind option_bind].
      split; [done|]. split; [done|]. split; [constructor; [lia|done]|].
      unfold predicted_token. destruct (Z.ltb_spec x V); [lia|].
      replace (Z.to_nat (x - V)) with s by lia. by rewrite Hs. }
  destruct Hall as (copied & ws & Hc & Hw & Hge & Hdec).
  exists copied, ws. split; [exact Hrun|]. split.
  { unfold slice_cols. by rewrite list_lookup_fmap, Hfrow. }
  split; [done|]. split; [done|].
  unfold decode_example. simpl top_indices. cbn [mbind option_bind].
  unfold until_end. rewrite bool_decide_eq_false_2.
  2:{ intros Hin. eapply Forall_forall in Hge; [|exact Hin]. simpl in Hge. lia. }
  cbn [mbind option_bind]. rewrite Hcollect. cbn [mbind option_bind]. exact Hdec.
Qed.

End WithBatch.

End RoundTripFacts.

(** ** Properties of [_prepare] followed by [decode] *)

Section RoundTripProperties.
Import PrepareRows PrepareRun PrepareEntries PrepareBatch PrepareBoundsFacts.
Import UniqueFacts Decode DecodeFacts Identities RoundTripFacts LossFacts.
Variable self : PointerGeneratorNetwork.
Variable get_token_from_index : Z -> option string.

Abbreviation V := (_target_vocab_size self).
Abbreviation unk := (_target_unk_index self).

(** X16.  Copying decodes to the source word.  Take an inference batch of
    [B] rows of [S] vocabulary indices, padded or not, with one list of
    literal source tokens per example, in which the identities of every
    example number its unknown words by first occurrence, and an end index
    below [V].  Whatever unknown source positions are copied in each
    example, [decode] maps the indices that [_prepare] gave to those
    positions back to the literal source tokens at those positions, for
    every example of the batch. *)
Theorem X16_copy_round_trip (src sids : tensor) (B S : nat)
    (metadata : list (list string)) (positions : list (list nat)) :
  well_formed B S 0 src sids None ->
  reader_values self src sids ->
  length metadata = B -> length positions = B ->
  (forall i srow irow words,
     src !! i = Some srow -> sids !! i = Some irow -> metadata !! i = Some words ->
     numbered_by_first_occurrence self srow irow words) ->
  _end_index self < V ->
  (forall i srow js,
     src !! i = Some srow -> positions !! i = Some js ->
     Forall (fun j => srow !! j = Some unk) js) ->
  exists extra ms copied ws,
    Prepare.prepare_values self src sids None = Some (extra, ms, None) /\
    at_positions_rows ms positions = Some copied /\
    at_positions_rows metadata positions = Some ws /\
    decode self get_token_from_index (Sequence <$> copied) metadata src = Some ws.
Proof.
  intros Hwf Hrv Hlm Hlp Hnum Hend Hpos.
  destruct (prepare_values_run self src sids None B S 0 Hwf)
    as (count & Hcount & Hrun & Hshape).
  set (ms := slice_cols 0 S (final_tokens self S src sids None)) in *.
  pose proof (shape_length _ _ _ (wf_src _ _ _ _ _ _ Hwf)) as Hlsrc.
  pose proof (shape_length _ _ _ (wf_sids _ _ _ _ _ _ Hwf)) as Hlsids.
  assert (Hlms : length ms = B).
  { unfold ms, slice_cols. rewrite length_fmap. by apply shape_length in Hshape. }
  assert (Hex : forall i, (i < B)%nat ->
    exists srow words js mrow copied_i ws_i,
      src !! i = Some srow /\ metadata !! i = Some words /\
      positions !! i = Some js /\ ms !! i = Some mrow /\
      at_positions mrow js = Some copied_i /\
      at_positions words js = Some ws_i /\
      decode_example self get_token_from_index (Sequence copied_i) words srow
      = Some ws_i).
  { intros i Hi.
    destruct (lookup_lt_is_Some_2 src i) as [srow Hsrow]; [lia|].
    destruct (lookup_lt_is_Some_2 sids i) as [irow Hirow]; [lia|].
    destruct (lookup_lt_is_Some_2 metadata i) as [words Hwords]; [lia|].
    destruct (lookup_lt_is_Some_2 positions i) as [js Hjs]; [lia|].
    destruct (copy_round_trip_example self get_token_from_index src sids B S i
                srow irow words js Hwf Hrv Hsrow Hirow
                (Hnum i srow irow words Hsrow Hirow Hwords) Hend
                (Hpos i srow js Hsrow Hjs))
      as (extra' & ms' & mrow & copied_i & ws_i & Hrun' & Hmrow & Hc & Hw & Hdec).
    rewrite Hrun in Hrun'. injection Hrun' as _ <-.
    by exists srow, words, js, mrow, copied_i, ws_i. }
  assert (is_Some (at_positions_rows ms positions)) as [copied Hcopied].
  { apply mapM_is_Some_2, Forall_lookup. intros i [mrow js] Hi.
    apply lookup_zip_Some in Hi as [Hmrow Hjs].
    destruct (Hex i) as (? & ? & ? & ? & copied_i & ? & ? & ? & ? & ? & Hc & _).
    { apply lookup_lt_Some in Hjs. lia. }
    simplify_eq. by exists copied_i. }
  assert (is_Some (at_positions_rows metadata positions)) as [ws Hws].
  { apply mapM_is_Some_2, Forall_lookup. intros i [words js] Hi.
    apply lookup_zip_Some in Hi as [Hwords Hjs].
    destruct (Hex i) as (? & ? & ? & ? & ? & ws_i & ? & ? & ? & ? & _ & Hw & _).
    { apply lookup_lt_Some in Hjs. lia. }
    simplify_eq. by exists ws_i. }
  exists (B, Z.to_nat count), ms, copied, ws.
  split; [exact Hrun|]. split; [exact Hcopied|]. split; [exact Hws|].
  apply mapM_Some_1 in Hcopied, Hws.
  pose proof (Forall2_length _ _ _ Hcopied) as Hlc. rewrite length_zip in Hlc.
  pose proof (Forall2_length _ _ _ Hws) as Hlw. rewrite length_zip in Hlw.
  unfold decode. apply mapM_Some_2, Forall2_same_length_lookup_2.
  { rewrite !length_zip, length_fmap. lia. }
  intros i [[p words] srow] ws_i Hi Hwsi.
  apply lookup_zip_Some in Hi as [Hi Hsrow].
  apply lookup_zip_Some in Hi as [Hp Hwords].
  rewrite list_lookup_fmap in Hp.
  destruct (copied !! i) as [copied_i|] eqn:Hci; [|done].
  injection Hp as <-. cbn [fst snd].
  destruct (Hex i) as (srow' & words' & js & mrow & copied_i' & ws_i' &
                       Hsrow' & Hwords' & Hjs & Hmrow & Hc & Hw & Hdec).
  { apply lookup_lt_Some in Hsrow. lia. }
  simplify_eq.
  assert (Hzc : zip ms positions !! i = Some (mrow, js))
    by (by apply lookup_zip_Some).
  destruct (Forall2_lookup_l _ _ _ _ _ Hcopied Hzc) as (c & Hc1 & Hc2).
  assert (Hzw : zip metadata positions !! i = Some (words, js))
    by (by apply lookup_zip_Some).
  destruct (Forall2_lookup_l _ _ _ _ _ Hws Hzw) as (w & Hw1 & Hw2).
  cbn [fst snd] in Hc2, Hw2. simplify_eq. exact Hdec.
Qed.

(** X17.  An unknown source word whose identity is 0 is not given an index
    of its own: on a batch of vocabulary indices and non-negative
    identities [_prepare] rewrites it to [V - 1], the index of the last word
    of the vocabulary, which [decode] looks up in the vocabulary. *)
Theorem X17_identity_zero_is_last_word (src sids : tensor) tv B S T :
  well_formed B S T src sids tv ->
  reader_values self (all_tokens src tv) (all_ids sids tv) ->
  exists extra ms mt,
    Prepare.prepare_values self src sids tv = Some (extra, ms, mt) /\
    forall i j,
      at2 src i j = Some unk -> at2 sids i j = Some 0 ->
      at2 ms i j = Some (V - 1) /\
      forall unk_tokens,
        predicted_token self get_token_from_index unk_tokens (V - 1)
        = get_token_from_index (V - 1).
Proof.
  intros Hwf Hrv.
  destruct (prepare_values_run self src sids tv B S T Hwf)
    as (count & Hcount & Hrun & Hshape).
  eexists _, _, _. split; [exact Hrun|].
  intros i j Hu Hd. split.
  - apply at2_row in Hu as Hu'. destruct Hu' as (srow & Hsrow & Hj).
    assert (HjS : (j < S)%nat).
    { apply lookup_lt_Some in Hj.
      by rewrite (shape_lookup _ _ _ _ _ (wf_src _ _ _ _ _ _ Hwf) Hsrow) in Hj. }
    assert (Hi : (i < B)%nat).
    { apply lookup_lt_Some in Hsrow.
      by rewrite (shape_length _ _ _ (wf_src _ _ _ _ _ _ Hwf)) in Hsrow. }
    destruct (all_lookup_shape src sids tv B S T i Hwf Hi)
      as (trow & irow & Htrow & Hirow & _).
    pose proof (all_tokens_source src tv i j trow unk Hu Htrow) as Ht.
    pose proof (all_ids_source sids tv i j irow 0 Hd Hirow) as Hi0.
    destruct (final_entry self src sids tv B S T count Hwf Hrv Hcount
                i trow irow j unk 0 Htrow Hirow Ht Hi0) as (x & Hx & _ & _ & Hrank).
    specialize (Hrank HjS eq_refl).
    destruct (row_values self src sids tv Hrv i trow irow j unk 0 Htrow Hirow Ht Hi0)
      as (_ & _ & _ & Hmask).
    rewrite rank_sorted_zero in Hrank by done.
    rewrite at2_slice_cols by lia. change (0 + j)%nat with j.
    rewrite Hx, Hrank. f_equal. lia.
  - intros unk_tokens. unfold predicted_token.
    destruct (Z.ltb_spec (V - 1) V); [done|lia].
Qed.

(** X18.  [decode] raises when a predicted index kept for an example lies
    beyond the unknown words of its source: an index [x >= V] with
    [x - V] not below the length of [unk_tokens] stands for no token. *)
Theorem X18_decode_index_beyond_unk_tokens (p : predictions)
    (indices kept : list Z) (unk_tokens source_tokens : list string)
    (source_to_target : list Z) (x : Z) :
  top_indices p = Some indices ->
  until_end self indices = Some kept ->
  collect_unk_tokens self 0 source_to_target source_tokens [] = Some unk_tokens ->
  x ∈ kept -> V + Z.of_nat (length unk_tokens) <= x ->
  decode_example self get_token_from_index p source_tokens source_to_target = None.
Proof.
  intros Htop Hkept Hcollect Hin Hx. unfold decode_example.
  rewrite Htop. cbn [mbind option_bind]. rewrite Hkept. cbn [mbind option_bind].
  rewrite Hcollect. cbn [mbind option_bind].
  apply mapM_None_2, Exists_exists. exists x. split; [done|].
  unfold predicted_token. destruct (Z.ltb_spec x V); [lia|].
  apply lookup_ge_None. lia.
Qed.

End RoundTripProperties.

(** Examples for the round trip: "the zorblax ran quux zorblax", and
    "zorblax the" padded to the same width. *)
Lemma round_trip_numbered :
  Identities.numbered_by_first_occurrence model10 [4; 1; 5; 1; 1] [0; 1; 2; 3; 1]
    ["the"; "zorblax"; "ran"; "quux"; "zorblax"]%string.
Proof.
  split.
  - reflexivity.
  - intros j Hu.
    destruct j as [|[|[|[|[|j]]]]]; simpl in *; simplify_eq; by eexists.
  - exists 0%nat, 4. split; [reflexivity|discriminate].
  - intros j d Hu Hd.
    destruct j as [|[|[|[|[|j]]]]]; simpl in *; simplify_eq; lia.
  - intros j k d d' w w' Hj Hk Hd Hd' Hw Hw'.
    destruct j as [|[|[|[|[|j]]]]]; simpl in *; simplify_eq;
      destruct k as [|[|[|[|[|k]]]]]; simpl in *; simplify_eq;
      split; intros; simplify_eq; done.
  - intros j k d d' Hjk Hj Hk Hd Hd' Hnew.
    destruct j as [|[|[|[|[|j]]]]]; simpl in *; simplify_eq;
      destruct k as [|[|[|[|[|k]]]]]; simpl in *; simplify_eq; try lia;
      exfalso; apply (Hnew 1%nat); first [lia | reflexivity].
Defined.

Lemma round_trip_numbered_padded :
  Identities.numbered_by_first_occurrence model10 [1; 4; 0; 0; 0] [1; 2; 0; 0; 0]
    ["zorblax"; "the"]%string.
Proof.
  split.
  - reflexivity.
  - intros j Hu.
    destruct j as [|[|[|[|[|j]]]]]; simpl in *; simplify_eq; by eexists.
  - exists 1%nat, 4. split; [reflexivity|discriminate].
  - intros j d Hu Hd.
    destruct j as [|[|[|[|[|j]]]]]; simpl in *; simplify_eq; lia.
  - intros j k d d' w w' Hj Hk Hd Hd' Hw Hw'.
    destruct j as [|[|[|[|[|j]]]]]; simpl in *; simplify_eq;
      destruct k as [|[|[|[|[|k]]]]]; simpl in *; simplify_eq;
      split; intros; simplify_eq; done.
  - intros j k d d' Hjk Hj Hk Hd Hd' Hnew.
    destruct j as [|[|[|[|[|j]]]]]; simpl in *; simplify_eq;
      destruct k as [|[|[|[|[|k]]]]]; simpl in *; simplify_eq; lia.
Defined.

Lemma round_trip_well_formed :
  well_formed 2 5 0 [[4; 1; 5; 1; 1]; [1; 4; 0; 0; 0]]
    [[0; 1; 2; 3; 1]; [1; 2; 0; 0; 0]] None.
Proof. split; simpl; try lia; reflexivity. Defined.

Lemma round_trip_reader_values :
  PrepareBatch.reader_values model10 [[4; 1; 5; 1; 1]; [1; 4; 0; 0; 0]]
    [[0; 1; 2; 3; 1]; [1; 2; 0; 0; 0]].
Proof.
  split; simpl; try lia;
    repeat (apply Forall_cons; split); try apply Forall_nil; simpl; lia.
Defined.

Lemma X16_copy_round_trip_witness :
  exists extra ms copied,
    Prepare.prepare_values model10 [[4; 1; 5; 1; 1]; [1; 4; 0; 0; 0]]
      [[0; 1; 2; 3; 1]; [1; 2; 0; 0; 0]] None
    = Some (extra, ms, None) /\
    Identities.at_positions_rows ms [[3; 1; 4]; [0]]%nat = Some copied /\
    Decode.decode model10 vocab10 (Decode.Sequence <$> copied)
      [["the"; "zorblax"; "ran"; "quux"; "zorblax"]; ["zorblax"; "the"]]%string
      [[4; 1; 5; 1; 1]; [1; 4; 0; 0; 0]]
    = Some [["quux"; "zorblax"; "zorblax"]; ["zorblax"]]%string.
Proof.
  destruct (X16_copy_round_trip model10 vocab10
              [[4; 1; 5; 1; 1]; [1; 4; 0; 0; 0]]
              [[0; 1; 2; 3; 1]; [1; 2; 0; 0; 0]] 2 5
              [["the"; "zorblax"; "ran"; "quux"; "zorblax"]; ["zorblax"; "the"]]%string
              [[3; 1; 4]; [0]]%nat)
    as (extra & ms & copied & ws & Hrun & Hc & Hw & Hdec).
  - exact round_trip_well_formed.
  - exact round_trip_reader_values.
  - reflexivity.
  - reflexivity.
  - intros i srow irow words Hsrow Hirow Hwords.
    destruct i as [|[|i]]; simpl in *; simplify_eq.
    + exact round_trip_numbered.
    + exact round_trip_numbered_padded.
  - simpl. lia.
  - intros i srow js Hsrow Hjs.
    destruct i as [|[|i]]; simpl in *; simplify_eq; repeat constructor.
  - exists extra, ms, copied. repeat split; try assumption.
    injection Hw as <-. exact Hdec.
Defined.

Lemma X17_identity_zero_is_last_word_witness :
  exists extra ms mt,
    Prepare.prepare_values model10 [[1; 4]] [[0; 1]] None = Some (extra, ms, mt) /\
    at2 ms 0 0 = Some 9.
Proof.
  destruct (X17_identity_zero_is_last_word model10 vocab10 [[1; 4]] [[0; 1]] None 1 2 0)
    as (extra & ms & mt & Hrun & Hzero).
  - split; simpl; try lia; reflexivity.
  - split; simpl; try lia;
      repeat (apply Forall_cons; split); try apply Forall_nil; simpl; lia.
  - exists extra, ms, mt. split; [exact Hrun|].
    apply (Hzero 0%nat 0%nat); reflexivity.
Defined.

Lemma X18_decode_index_beyond_unk_tokens_witness :
  Decode.decode_example model10 vocab10 (Decode.Sequence [4; 11; 3])
    ["the"; "zorblax"]%string [4; 1] = None.
Proof.
  apply (X18_decode_index_beyond_unk_tokens model10 vocab10 _ [4; 11; 3] [4; 11]
           ["zorblax"]%string _ _ 11).
  - reflexivity.
  - reflexivity.
  - reflexivity.
  - right. left.
  - simpl. lia.
Defined.

(** ** Teacher forcing *)

Module TeacherForcingFacts.
Import Decoder DecoderStep LoopFacts.
#[local] Open Scope R_scope.

Lemma cat_columns_is_Some (columns : list (list Z)) :
  is_Some (cat_columns columns)
  <-> exists first, head columns = Some first /\
                    Forall (fun c : list Z => length c = length first) columns.
Proof.
  unfold cat_columns. split.
  - destruct (head columns) as [first|]; [|by intros [? ?]].
    cbn [mbind option_bind]. intros Hsome. exists first. split; [done|].
    destruct (decide (Forall (fun c : list Z => length c = length first) columns));
      [done|].
    rewrite option_guard_False in Hsome by done. by destruct Hsome.
  - intros (first & Hhead & Hall). rewrite Hhead. cbn [mbind option_bind].
    rewrite option_guard_True by done. cbn [mbind option_bind].
    apply mapM_is_Some_2, Forall_forall. intros n Hn.
    apply elem_of_seq in Hn. change (is_Some (mapM (fun c : list Z => c !! n) columns)).
    apply mapM_is_Some_2. eapply Forall_impl; [exact Hall|].
    intros c Hc. simpl in *. apply lookup_lt_is_Some. lia.
Qed.

Lemma cat_columns_lengths (c1 c2 : list (list Z)) :
  length <$> c1 = length <$> c2 ->
  is_Some (cat_columns c1) -> is_Some (cat_columns c2).
Proof.
  intros Hlen. rewrite !cat_columns_is_Some. intros (f1 & Hhead & Hall).
  assert (Hcorr : forall k c, c2 !! k = Some c ->
            exists c', c1 !! k = Some c' /\ length c' = length c).
  { intros k c Hc.
    assert (Hk : (length <$> c1) !! k = Some (length c))
      by (by rewrite Hlen, list_lookup_fmap, Hc).
    rewrite list_lookup_fmap in Hk.
    destruct (c1 !! k) as [c'|]; [|done]. injection Hk as Hk. eauto. }
  destruct c1 as [|x c1]; [done|]. injection Hhead as ->.
  destruct c2 as [|y c2]; [done|].
  destruct (Hcorr 0%nat y eq_refl) as (c' & [= <-] & Hy).
  exists y. split; [done|].
  apply Forall_lookup. intros k c Hc.
  destruct (Hcorr k c Hc) as (c' & Hc' & Hl).
  eapply Forall_lookup_1 in Hall; [|exact Hc']. simpl in Hall. lia.
Qed.

Section WithModel.
Variable self : PointerGeneratorNetwork.
Variable m : modules.
Variable choice : vec -> Z.
Hypothesis never_sampled : forall t, training self && sampled m t = false.

Lemma loop_body_choice (targets : list (list Z)) (acc1 acc2 : loop_state)
    (timestep : nat) :
  same_but_predictions acc1 acc2 ->
  match loop_body self (with_argmax choice m) (Some targets) acc1 timestep,
        loop_body self m (Some targets) acc2 timestep with
  | Some acc1', Some acc2' => same_but_predictions acc1' acc2'
  | None, None => True
  | _, _ => False
  end.
Proof.
  intros (Hst & Hproba & Hcl & Hlen). unfold loop_body.
  change (sampled (with_argmax choice m) timestep) with (sampled m timestep).
  rewrite never_sampled.
  destruct (mapM (fun r : list Z => r !! timestep) targets) as [ic|]; [|done].
  cbn [mbind option_bind]. rewrite Hst.
  destruct (if _use_coverage self then Some <$> coverage (ls_state acc2) else Some None)
    as [cov|]; [|done].
  cbn [mbind option_bind].
  change (_prepare_output_projections self (with_argmax choice m) ic (ls_state acc2))
    with (_prepare_output_projections self m ic (ls_state acc2)).
  destruct (_prepare_output_projections self m ic (ls_state acc2))
    as [[proj st']|]; [|done].
  cbn [mbind option_bind].
  change (_get_final_dist (with_argmax choice m) st' proj)
    with (_get_final_dist m st' proj).
  destruct (_get_final_dist m st' proj) as [fd|]; [|done].
  cbn [mbind option_bind]. rewrite Hcl.
  destruct (if _use_coverage self then _ else _) as [cl|]; [|done].
  cbn [mbind option_bind].
  split; [done|]. split; [simpl; by rewrite Hproba|]. split; [done|].
  simpl. rewrite !fmap_app, Hlen. simpl. by rewrite !length_fmap.
Qed.

Lemma run_loop_choice (targets : list (list Z)) (timesteps : list nat)
    (acc1 acc2 : loop_state) :
  same_but_predictions acc1 acc2 ->
  match run_loop self (with_argmax choice m) (Some targets) timesteps acc1,
        run_loop self m (Some targets) timesteps acc2 with
  | Some acc1', Some acc2' => same_but_predictions acc1' acc2'
  | None, None => True
  | _, _ => False
  end.
Proof.
  revert acc1 acc2. induction timesteps as [|t ts IH]; intros acc1 acc2 Hsame.
  - done.
  - simpl. pose proof (loop_body_choice targets acc1 acc2 t Hsame) as Hbody.
    destruct (loop_body self (with_argmax choice m) (Some targets) acc1 t) as [a1|],
             (loop_body self m (Some targets) acc2 t) as [a2|]; try done.
    simpl. by apply IH.
Qed.

End WithModel.

End TeacherForcingFacts.

Section TeacherForcingProperties.
Import Decoder DecoderStep LoopFacts TeacherForcingFacts.
#[local] Open Scope R_scope.
Variable self : PointerGeneratorNetwork.
Variable m : modules.

(** X19.  Under teacher forcing the loss does not depend on the predicted
    indices: when the previous prediction is never sampled as the next
    input, [_forward_loop] with targets raises or returns the same loss
    whatever index is chosen as the predicted class of a distribution. *)
Theorem X19_teacher_forced_loss (choice : vec -> Z) (st : state)
    (targets : list (list Z)) :
  (forall t, training self && sampled m t = false) ->
  loss <$> _forward_loop self (with_argmax choice m) st (Some targets)
  = loss <$> _forward_loop self m st (Some targets).
Proof.
  intros Hnever. unfold _forward_loop.
  change (num_decoding_steps self (Some targets)) with (size1 targets - 1)%nat.
  pose proof (run_loop_choice self m choice Hnever targets
                (seq 0 (size1 targets - 1))
                (initial_loop_state self st) (initial_loop_state self st)) as Hrun.
  destruct (run_loop self (with_argmax choice m) (Some targets) _ _) as [a1|],
           (run_loop self m (Some targets) _ _) as [a2|];
    try (by exfalso; apply Hrun); [|done].
  destruct Hrun as (Hst & Hproba & Hcl & Hlen); [done|].
  cbn [mbind option_bind].
  assert (Hcat : is_Some (cat_columns (step_predictions a1))
                 <-> is_Some (cat_columns (step_predictions a2))).
  { split; by apply cat_columns_lengths. }
  destruct (cat_columns (step_predictions a1)) as [p1|],
           (cat_columns (step_predictions a2)) as [p2|].
  - cbn [mbind option_bind]. rewrite Hst, Hproba, Hcl.
    destruct (stack_proba _ _) as [proba|]; [|done]. cbn [mbind option_bind].
    destruct (target_tokens (ls_state a2)) as [tt|]; [|done].
    cbn [mbind option_bind].
    destruct (_get_loss proba tt _eps) as [l|]; [|done]. cbn [mbind option_bind].
    destruct (if _use_coverage self then _ else _) as [l'|]; done.
  - exfalso. destruct Hcat as [Hcat _]. by destruct Hcat.
  - exfalso. destruct Hcat as [_ Hcat]. by destruct Hcat.
  - done.
Qed.

End TeacherForcingProperties.

Lemma X19_teacher_forced_loss_witness :
  Decoder.loss <$>
    Decoder._forward_loop (model4 false)
      (DecoderStep.with_argmax (fun _ => 3) (toy_modules const_attention))
      (toy_state None (Some [[2; 2; 2]])) (Some [[2; 2; 2]])
  = Decoder.loss <$>
      Decoder._forward_loop (model4 false) (toy_modules const_attention)
        (toy_state None (Some [[2; 2; 2]])) (Some [[2; 2; 2]]).
Proof.
  apply (X19_teacher_forced_loss (model4 false) (toy_modules const_attention)).
  intros t. reflexivity.
Defined.

(** ** The coverage loss *)

Module CoverageSignFacts.
Import Decoder DecoderStep MixerFacts LoopFacts MixerRowsFacts.
#[local] Open Scope R_scope.

Lemma div_INR_nonneg (x : R) (n : nat) : 0 <= x -> 0 <= x / INR n.
Proof.
  intros Hx. unfold Rdiv. destruct n as [|n].
  - simpl. rewrite Rinv_0. lra.
  - apply Rmult_le_pos; [done|]. left. apply Rinv_0_lt_compat.
    apply lt_0_INR. lia.
Qed.

Lemma zip_with_nonneg (f : R -> R -> R) (a b : list R) :
  (forall x y, 0 <= x -> 0 <= y -> 0 <= f x y) ->
  Forall (fun x => 0 <= x) a -> Forall (fun x => 0 <= x) b ->
  Forall (fun x => 0 <= x) (zip_with f a b).
Proof.
  intros Hf Ha. revert b. induction Ha as [|x a Hx Ha IH]; intros b Hb; [constructor|].
  destruct Hb as [|y b Hy Hb]; [constructor|].
  simpl. constructor; [by apply Hf | by apply IH].
Qed.

Section WithModel.
Variable self : PointerGeneratorNetwork.
Variable m : modules.
Hypothesis use_coverage : _use_coverage self = true.
Hypothesis attention_nonneg :
  forall h e mask c, Forall (fun a => 0 <= a) (attention m h e mask c).

Lemma prepare_row_coverage_nonneg (lp : list Z) (st : state) (n : nat)
    (cov : list vec) (r : step_row) (c : vec) :
  coverage st = Some cov -> Forall (Forall (fun c => 0 <= c)) cov ->
  prepare_row self m lp st n = Some r -> row_coverage r = Some c ->
  Forall (fun x => 0 <= x) c.
Proof.
  intros Hcov Hnn. unfold prepare_row.
  destruct (lp !! n); [|done]. cbn [mbind option_bind].
  destruct (encoder_outputs st !! n) as [e|]; [|done]. cbn [mbind option_bind].
  destruct (source_mask st !! n) as [mask|]; [|done]. cbn [mbind option_bind].
  destruct (decoder_hidden st !! n) as [h|]; [|done]. cbn [mbind option_bind].
  destruct (decoder_context st !! n); [|done]. cbn [mbind option_bind].
  rewrite use_coverage, Hcov. cbn [negb mbind option_bind].
  destruct (cov !! n) as [c0|] eqn:Hc0; [|done]. cbn [mbind option_bind].
  unfold vec_add. case_bool_decide; [|done]. cbn [mbind option_bind].
  destruct (decoder_cell m _ _). intros [= <-]. simpl. intros [= <-].
  apply zip_with_nonneg.
  - intros x y Hx Hy. lra.
  - by eapply Forall_lookup_1 in Hnn.
  - apply attention_nonneg.
Qed.

Lemma step_coverage_nonneg (lp : list Z) (st st' : state) proj
    (cov : list vec) :
  coverage st = Some cov -> Forall (Forall (fun c => 0 <= c)) cov ->
  _prepare_output_projections self m lp st = Some (proj, st') ->
  forall cov', coverage st' = Some cov' -> Forall (Forall (fun c => 0 <= c)) cov'.
Proof.
  intros Hcov Hnn. unfold _prepare_output_projections.
  destruct (mapM _ _) as [rows|] eqn:Hrows; [|done]. cbn [mbind option_bind].
  rewrite use_coverage. cbn [negb].
  destruct (mapM row_coverage rows) as [covs|] eqn:Hcovs; [|done].
  cbn [fmap option_fmap option_map mbind option_bind].
  intros [= <- <-] cov' [= <-].
  apply mapM_Some_1 in Hrows. apply mapM_Some_1 in Hcovs.
  apply Forall_lookup. intros k c Hc.
  destruct (Forall2_lookup_r _ _ _ _ _ Hcovs Hc) as (r & Hr & Hrc).
  destruct (Forall2_lookup_r _ _ _ _ _ Hrows Hr) as (n & _ & Hn).
  by eapply (prepare_row_coverage_nonneg lp st n cov r c).
Qed.

Lemma loop_body_coverage_nonneg targets (acc acc' : loop_state) (timestep : nat) :
  coverage_nonneg acc ->
  loop_body self m targets acc timestep = Some acc' ->
  coverage_nonneg acc'.
Proof.
  intros [Hcov Hcl]. unfold loop_body.
  destruct (if training self && sampled m timestep then _ else _)
    as [ic|]; [|done]. cbn [mbind option_bind].
  rewrite use_coverage.
  destruct (coverage (ls_state acc)) as [cov|] eqn:Hc; [|done].
  cbn [fmap option_fmap option_map mbind option_bind].
  destruct (_prepare_output_projections self m ic (ls_state acc))
    as [[proj st']|] eqn:Hstep; [|done]. cbn [mbind option_bind].
  destruct (_get_final_dist m st' proj) as [fd|]; [|done].
  cbn [mbind option_bind].
  destruct (guard (length (attn_scores st') = length cov)) as [Hguard|]; [|done].
  cbn [mbind option_bind].
  destruct (mapM _ (zip (attn_scores st') cov)) as [step|] eqn:Hmap; [|done].
  cbn [mbind option_bind].
  assert (Hstep_nn : Forall (fun x => 0 <= x) step).
  { apply mapM_Some_1 in Hmap. apply Forall_lookup. intros k x Hx.
    destruct (Forall2_lookup_r _ _ _ _ _ Hmap Hx) as ([a c] & Hac & Hsum).
    simpl in Hsum. unfold vec_min in Hsum.
    case_bool_decide; [|done]. simpl in Hsum. injection Hsum as <-.
    apply lookup_zip_Some in Hac as [Ha Hc0]. simpl in *.
    apply sum_R_nonneg, zip_with_nonneg.
    - intros x y Hx0 Hy0. by apply Rmin_glb.
    - pose proof (attn_scores_from_attention m self _ ic _ _ _
                    attention_nonneg Hstep) as Hattn.
      by eapply Forall_lookup_1 in Hattn.
    - specialize (Hcov cov eq_refl). by eapply Forall_lookup_1 in Hcov. }
  destruct (coverage_loss acc) as [cl|] eqn:Hcl0.
  - unfold vec_add. case_bool_decide; [|done].
    cbn [fmap option_fmap option_map mbind option_bind].
    intros [= <-]. split; simpl.
    + by apply (step_coverage_nonneg ic (ls_state acc) st' proj cov Hc (Hcov cov eq_refl)).
    + intros cl' [= <-]. apply zip_with_nonneg; [intros; lra | by apply Hcl | done].
  - intros [= <-]. split; simpl.
    + by apply (step_coverage_nonneg ic (ls_state acc) st' proj cov Hc (Hcov cov eq_refl)).
    + by intros cl' [= <-].
Qed.

Lemma run_loop_coverage_nonneg targets (timesteps : list nat)
    (acc acc' : loop_state) :
  coverage_nonneg acc ->
  run_loop self m targets timesteps acc = Some acc' ->
  coverage_nonneg acc'.
Proof.
  revert acc. induction timesteps as [|t ts IH]; intros acc Hinv; simpl.
  - by intros [= <-].
  - destruct (loop_body self m targets acc t) as [acc1|] eqn:Hbody; [|done].
    simpl. apply IH. by eapply loop_body_coverage_nonneg.
Qed.

End WithModel.

End CoverageSignFacts.

Section CoverageSignProperties.
Import Decoder DecoderStep MixerFacts LoopFacts CoverageSignFacts.
#[local] Open Scope R_scope.
Variable self : PointerGeneratorNetwork.
Variable m : modules.

(** X20.  With coverage enabled and non-negative attention weights, the
    coverage vector started at zero by [_init_decoder_state] and the
    coverage loss accumulated by the loop never hold a negative value: the
    coverage term of the loss is non-negative. *)
Theorem X20_coverage_term_nonneg (st : state) (targets : list (list Z)) (term : R) :
  _use_coverage self = true ->
  (forall h e mask c, Forall (fun a => 0 <= a) (attention m h e mask c)) ->
  coverage_term self m (_init_decoder_state self m st) targets = Some term ->
  0 <= term.
Proof.
  intros Hcov Hattn. unfold coverage_term.
  destruct (run_loop self m (Some targets) _ _) as [acc|] eqn:Hrun; [|done].
  cbn [mbind option_bind].
  apply (run_loop_coverage_nonneg self m Hcov Hattn) in Hrun as [_ Hcl].
  2:{ split; simpl; [|done]. rewrite Hcov. intros cov [= <-].
      apply Forall_fmap, Forall_true. intros r. simpl.
      apply Forall_replicate. lra. }
  destruct (coverage_loss acc) as [cl|]; [|done]. cbn [mbind option_bind].
  intros [= <-]. unfold mean. apply div_INR_nonneg, sum_R_nonneg, Forall_fmap.
  eapply Forall_impl; [exact (Hcl cl eq_refl)|].
  intros x Hx. simpl. by apply div_INR_nonneg.
Qed.

End CoverageSignProperties.

Lemma X20_coverage_term_nonneg_witness :
  exists term,
    Decoder.coverage_term (model4 true) (toy_modules const_attention)
      (Decoder._init_decoder_state (model4 true) (toy_modules const_attention)
         (toy_state None (Some [[2; 2; 2]]))) [[2; 2; 2]] = Some term /\
    (0 <= term)%R.
Proof.
  assert (exists term,
    Decoder.coverage_term (model4 true) (toy_modules const_attention)
      (Decoder._init_decoder_state (model4 true) (toy_modules const_attention)
         (toy_state None (Some [[2; 2; 2]]))) [[2; 2; 2]] = Some term)
    as [term Hterm].
  { eexists. vm_compute. reflexivity. }
  exists term. split; [exact Hterm|].
  apply (X20_coverage_term_nonneg (model4 true) (toy_modules const_attention)
           (toy_state None (Some [[2; 2; 2]])) [[2; 2; 2]] term).
  - reflexivity.
  - intros h e mask c. repeat constructor; lra.
  - exact Hterm.
Defined.

(** ** Empty inputs *)

Module EmptyFacts.

Lemma M_bind_None {A B} (m : M A) (f : A -> M B) (h : heap) :
  (forall a h', f a h' = None) -> (m ≫= f) h = None.
Proof.
  intros Hf. unfold mbind, M_bind. destruct (m h) as [[a h']|]; [apply Hf|done].
Qed.

Lemma max_all_no_columns (t : list (list Z)) : max_all (slice_cols 0 0 t) = None.
Proof.
  assert (Hnil : concat (slice_cols 0 0 t) = []).
  { induction t as [|r t IH]; [done|]. simpl. exact IH. }
  unfold max_all. by rewrite Hnil.
Qed.

Lemma size1_empty_rows (t : list (list Z)) :
  Forall (fun r : list Z => r = []) t -> size1 t = 0%nat.
Proof. intros Ht. destruct Ht as [|r t ->]; done. Qed.

End EmptyFacts.

Section EmptyProperties.
Import Decoder EmptyFacts.
Variable self : PointerGeneratorNetwork.
Variable m : modules.

(** X21.  [_prepare] raises on a batch without examples and on a batch
    whose source has no column: [torch.max] is taken over the empty source
    span of [unk_token_nums]. *)
Theorem X21_prepare_empty_source (h : heap) (s si : loc)
    (target : option (loc * loc)) (src : list (list Z)) :
  h !! s = Some src -> Forall (fun r : list Z => r = []) src ->
  Prepare._prepare self s si target h = None.
Proof.
  intros Hs Hempty. unfold Prepare._prepare.
  unfold mbind at 1, M_bind at 1. unfold load at 1. rewrite Hs.
  rewrite (size1_empty_rows src Hempty).
  apply M_bind_None. intros [tokens token_ids] ?.
  do 14 (apply M_bind_None; intros ? ?).
  apply M_bind_None. intros [ms mt] ?.
  apply M_bind_None. intros nums ?.
  unfold mbind, M_bind, lift. by rewrite max_all_no_columns.
Qed.

(** X22.  [_forward_loop] raises when there is no decoding step to run
    (targets of at most one column, or [max_decoding_steps = 0] without
    targets): the predictions of no step cannot be concatenated. *)
Theorem X22_forward_loop_no_step (st : state) (targets : option (list (list Z))) :
  num_decoding_steps self targets = 0%nat ->
  _forward_loop self m st targets = None.
Proof. intros Hsteps. unfold _forward_loop. by rewrite Hsteps. Qed.

End EmptyProperties.

Lemma X21_prepare_empty_source_witness :
  Prepare._prepare model10 0 1 None [[[]; []]; [[]; []]] = None.
Proof.
  apply (X21_prepare_empty_source model10 _ 0%nat 1%nat None [[]; []]).
  - reflexivity.
  - repeat constructor.
Defined.

Lemma X22_forward_loop_no_step_witness :
  Decoder._forward_loop (model4 false) (toy_modules const_attention)
    (toy_state None (Some [[2]])) (Some [[2]]) = None.
Proof.
  apply (X22_forward_loop_no_step (model4 false)). reflexivity.
Defined.

(** ** The placeholder of [evaluate] *)

Section PlaceholderProperties.
Import PyStr Evaluate.
Variable re_findall : str -> str -> list str.

(** X23.  With one reference per example, every hypothesis and every
    reference that [evaluate] appends has more than one character once
    stripped: a shorter one was replaced by the placeholder. *)
Theorem X23_single_reference_placeholder (is_subwords : bool)
    (decoded_words : list str) (target : target) (hyp : str) (ref : list str) :
  hyp_and_ref re_findall false is_subwords decoded_words target = Some (hyp, ref) ->
  (1 < length (strip hyp))%nat /\
  exists r, ref = [r] /\ (1 < length (strip r))%nat.
Proof. apply single_ref_substitutes. Qed.

End PlaceholderProperties.

Lemma X23_single_reference_placeholder_witness :
  (1 < length (PyStr.strip (PyStr.lit "empty")))%nat /\
  exists r, [PyStr.lit "a summary"] = [r] /\ (1 < length (PyStr.strip r))%nat.
Proof.
  apply (X23_single_reference_placeholder (fun _ _ => []) true []
           (Evaluate.TStr (PyStr.lit "a summary"))).
  reflexivity.
Defined.
